(** * A WebDAV gateway over an S3 object store: model and properties

    Shallow embedding of [src/index.ts].  The worker translates WebDAV
    requests into calls on an S3-compatible store.  Every store call goes
    through [aws.fetch]; the model threads an explicit store state through
    the handlers and records every call in a trace, so that both the
    responses and the store traffic of a handler can be stated.

    Conventions.
    - JavaScript strings are modelled as [string]: sequences of 8-bit code
      units.  Among those the line terminators of the regular expression
      dot are LF (10) and CR (13).
    - Numbers that the code handles are object sizes and status codes:
      integers, or NaN when [parseInt] finds no digit.  The model is exact
      for magnitudes below 2^53.
    - [null] and [undefined] are [None].
    - Fallible code returns a [Result]: a value, a thrown error, or
      [Diverge] when the fuel bounding the listing loop runs out. *)

From Stdlib Require Import ZArith NArith Bool Lia.
From Stdlib Require Import Ascii.
From Stdlib Require String.
From stdpp Require Import base option list gmap strings pretty.

Local Open Scope Z_scope.

(** ** JavaScript strings *)

Module Js.

Definition LF : string := String (Ascii.ascii_of_nat 10) EmptyString.
Definition CR : string := String (Ascii.ascii_of_nat 13) EmptyString.
Definition TAB : string := String (Ascii.ascii_of_nat 9) EmptyString.
Definition DQ : string := String (Ascii.ascii_of_nat 34) EmptyString.

(** A string in a boolean position: the empty string is falsy. *)
Definition truthy (s : string) : bool := negb (String.eqb s "").

(** [s || d] on strings. *)
Definition or_else (s : option string) (d : string) : string :=
  match s with
  | Some v => if truthy v then v else d
  | None => d
  end.

(** [s || undefined]. *)
Definition or_undefined (s : option string) : option string :=
  match s with
  | Some v => if truthy v then Some v else None
  | None => None
  end.

(** [s.startsWith(p)]. *)
Fixpoint startsWith (s p : string) {struct p} : bool :=
  match p with
  | EmptyString => true
  | String a p' =>
      match s with
      | EmptyString => false
      | String b s' => Ascii.eqb a b && startsWith s' p'
      end
  end.

(** [s.slice(n)] for a non-negative [n]. *)
Fixpoint drop (n : nat) (s : string) : string :=
  match n, s with
  | O, _ => s
  | S _, EmptyString => EmptyString
  | S n', String _ s' => drop n' s'
  end.

(** [s.slice(0, n)] for a non-negative [n]. *)
Fixpoint take (n : nat) (s : string) : string :=
  match n, s with
  | O, _ => EmptyString
  | S _, EmptyString => EmptyString
  | S n', String c s' => String c (take n' s')
  end.

(** [s.slice(0, -1)]. *)
Definition dropLast (s : string) : string :=
  take (String.length s - 1)%nat s.

(** [s.endsWith(p)]. *)
Definition endsWith (s p : string) : bool :=
  (String.length p <=? String.length s)%nat
  && String.eqb (drop (String.length s - String.length p)%nat s) p.

(** [s.includes(p)]. *)
Fixpoint includes (s p : string) : bool :=
  startsWith s p
  || match s with
     | EmptyString => false
     | String _ s' => includes s' p
     end.

(** The number of places at which [p] occurs in [s]. *)
Fixpoint occurrences (s p : string) : nat :=
  ((if startsWith s p then 1 else 0)
   + match s with
     | EmptyString => 0
     | String _ s' => occurrences s' p
     end)%nat.

(** [s.split(sep)] for a one-character separator. *)
Fixpoint split (sep : Ascii.ascii) (s : string) : list string :=
  match s with
  | EmptyString => [EmptyString]
  | String c s' =>
      if Ascii.eqb c sep then EmptyString :: split sep s'
      else match split sep s' with
           | h :: t => String c h :: t
           | [] => [String c EmptyString]
           end
  end.

(** [a.join(sep)]. *)
Fixpoint join (sep : string) (a : list string) : string :=
  match a with
  | [] => EmptyString
  | [x] => x
  | x :: rest => x +:+ sep +:+ join sep rest
  end.

(** [a.slice(0, -k)] on arrays. *)
Definition slice_to_neg {A} (k : nat) (a : list A) : list A :=
  firstn (length a - k)%nat a.

(** [s.replace(/c/g, '')] for a single character [c]. *)
Fixpoint remove_char (c : Ascii.ascii) (s : string) : string :=
  match s with
  | EmptyString => EmptyString
  | String d s' => if Ascii.eqb d c then remove_char c s' else String d (remove_char c s')
  end.

(** First occurrence of [needle] in [s]: the text before it and the text
    after it. *)
Fixpoint cut (needle s : string) : option (string * string) :=
  if startsWith s needle then Some (EmptyString, drop (String.length needle) s)
  else match s with
       | EmptyString => None
       | String c s' =>
           match cut needle s' with
           | Some (before, after) => Some (String c before, after)
           | None => None
           end
       end.

Definition isLineTerminator (c : Ascii.ascii) : bool :=
  Ascii.eqb c (Ascii.ascii_of_nat 10) || Ascii.eqb c (Ascii.ascii_of_nat 13).

Fixpoint hasLineTerminator (s : string) : bool :=
  match s with
  | EmptyString => false
  | String c s' => isLineTerminator c || hasLineTerminator s'
  end.

(** The regular expressions of the source all have the shape
    [open(.*?)close] with literal [open] and [close].  [match_at] tries a
    match that starts at the head of [s]: after [open] the lazy group
    grows one character at a time until [close] follows, so it stops at
    the first occurrence of [close]; without the [s] flag the dot refuses
    line terminators, and the attempt fails when one stands before that
    occurrence.  The result is the captured group and the text after the
    match. *)
Definition match_at (dotAll : bool) (open close s : string) : option (string * string) :=
  if startsWith s open then
    match cut close (drop (String.length open) s) with
    | Some (group, rest) =>
        if dotAll || negb (hasLineTerminator group) then Some (group, rest) else None
    | None => None
    end
  else None.

(** [regex.exec(s)]: the leftmost start position with a match. *)
Fixpoint exec (dotAll : bool) (open close s : string) : option (string * string) :=
  match match_at dotAll open close s with
  | Some r => Some r
  | None =>
      match s with
      | EmptyString => None
      | String _ s' => exec dotAll open close s'
      end
  end.

(** [match?.[1]]. *)
Definition group1 (m : option (string * string)) : option string := fst <$> m.

(** *** Numbers *)

Inductive number : Type :=
| NaN
| Num (z : Z).

Definition isWhiteSpace (c : Ascii.ascii) : bool :=
  let n := Ascii.nat_of_ascii c in
  ((9 <=? n) && (n <=? 13) || (n =? 32) || (n =? 160))%nat.

Fixpoint trimStart (s : string) : string :=
  match s with
  | String c s' => if isWhiteSpace c then trimStart s' else s
  | EmptyString => EmptyString
  end.

Definition digitValue (radix : Z) (c : Ascii.ascii) : option Z :=
  let n := Z.of_nat (Ascii.nat_of_ascii c) in
  let v := if (48 <=? n) && (n <=? 57) then Some (n - 48)
           else if (97 <=? n) && (n <=? 122) then Some (n - 87)
           else if (65 <=? n) && (n <=? 90) then Some (n - 55)
           else None in
  match v with
  | Some d => if d <? radix then Some d else None
  | None => None
  end.

Fixpoint digits (radix : Z) (acc : option Z) (s : string) : option Z :=
  match s with
  | EmptyString => acc
  | String c s' =>
      match digitValue radix c with
      | Some d => digits radix (Some (radix * default 0 acc + d)) s'
      | None => acc
      end
  end.

(** [parseInt(s)] with no radix argument. *)
Definition parseInt (s : string) : number :=
  let s := trimStart s in
  let '(sign, s) :=
    match s with
    | String c s' =>
        if Ascii.eqb c "-"%char then (-1, s')
        else if Ascii.eqb c "+"%char then (1, s')
        else (1, s)
    | EmptyString => (1, s)
    end in
  let '(radix, s) :=
    if startsWith s "0x" || startsWith s "0X" then (16, drop 2 s) else (10, s) in
  match digits radix None s with
  | Some v => Num (sign * v)
  | None => NaN
  end.

(** [n.toString()] and the rendering of a number in a template. *)
Definition Number_toString (n : number) : string :=
  match n with
  | NaN => "NaN"
  | Num z => pretty z
  end.

(** *** Dates

    A [Date] holds a time value in milliseconds since the epoch, or is
    invalid. *)

Inductive Date : Type :=
| InvalidDate
| TimeValue (ms : Z).

End Js.

(** ** The fetch interface: requests, responses, headers *)

(** A [Headers] object.  Names are compared case-insensitively, and [get]
    joins the values of a repeated header. *)
Definition Headers : Type := list (string * string).

Definition lower_char (c : ascii) : ascii :=
  let n := nat_of_ascii c in
  if ((65 <=? n) && (n <=? 90))%nat then ascii_of_nat (n + 32) else c.

Fixpoint toLowerCase (s : string) : string :=
  match s with
  | EmptyString => EmptyString
  | String c s' => String (lower_char c) (toLowerCase s')
  end.

Definition Headers_get (h : Headers) (name : string) : option string :=
  match filter (fun kv => String.eqb (toLowerCase kv.1) (toLowerCase name) = true) h with
  | [] => None
  | found => Some (Js.join ", " (snd <$> found))
  end.

Module Request.
Record t : Type := mk {
  url : string;
  method : string;
  headers : Headers;
  body : option string;
}.
End Request.

Module Response.
Record t : Type := mk {
  body : option string;
  status : Z;
  statusText : string;
  headers : Headers;
}.

(** [response.ok]. *)
Definition ok (r : t) : bool := (200 <=? status r) && (status r <=? 299).
End Response.

(** [new Response(body, { status })]. *)
Definition new_Response (body : option string) (status : Z) : Response.t :=
  Response.mk body status "" [].

(** [new Response(body, { status, headers })]. *)
Definition new_Response_with (body : option string) (status : Z) (headers : Headers) : Response.t :=
  Response.mk body status "" headers.

(** What awaiting [aws.fetch] gives: a response, or a rejection (the
    network or the signing failed) with the message of its error. *)
Inductive FetchOutcome : Type :=
| Resolved (response : Response.t)
| Rejected (message : string).

(** The runtime's [Date]: parsing of date strings, formatting, the clock. *)
Class Runtime : Type := {
  Date_parse : string -> Js.Date;
  Date_toUTCString : Js.Date -> string;
  Date_now : Js.Date;
}.

(** ** Percent-encoding and URLs *)

Definition hexDigit (n : nat) : ascii :=
  if (n <? 10)%nat then ascii_of_nat (48 + n) else ascii_of_nat (55 + n).

Definition percentEncode (c : ascii) : string :=
  let n := nat_of_ascii c in
  String "%" (String (hexDigit (n / 16)) (String (hexDigit (n mod 16)) EmptyString)).

Definition isAlphaNumeric (c : ascii) : bool :=
  let n := nat_of_ascii c in
  ((48 <=? n) && (n <=? 57) || (65 <=? n) && (n <=? 90) || (97 <=? n) && (n <=? 122))%nat.

Fixpoint charIn (c : ascii) (set : string) : bool :=
  match set with
  | EmptyString => false
  | String d set' => Ascii.eqb c d || charIn c set'
  end.

(** [encodeURIComponent(s)]. *)
Fixpoint encodeURIComponent (s : string) : string :=
  match s with
  | EmptyString => EmptyString
  | String c s' =>
      (if isAlphaNumeric c || charIn c "-_.!~*'()" then String c EmptyString
       else percentEncode c) +:+ encodeURIComponent s'
  end.

(** The form encoding of [URLSearchParams]. *)
Fixpoint formEncode (s : string) : string :=
  match s with
  | EmptyString => EmptyString
  | String c s' =>
      (if Ascii.eqb c " " then "+"
       else if isAlphaNumeric c || charIn c "*-._" then String c EmptyString
       else percentEncode c) +:+ formEncode s'
  end.

(** [new URLSearchParams(entries).toString()]. *)
Definition URLSearchParams_toString (entries : list (string * string)) : string :=
  Js.join "&" ((fun kv => formEncode kv.1 +:+ "=" +:+ formEncode kv.2) <$> entries).

(** Text before the first [c], or all of [s]. *)
Definition upTo (c : string) (s : string) : string :=
  match Js.cut c s with
  | Some (before, _) => before
  | None => s
  end.

(** [new URL(href).pathname] on an absolute URL that is already in
    serialized form (the parser's normalisation of other inputs is not
    modelled).  [None] stands for the [TypeError] of an invalid URL. *)
Definition URL_pathname (href : string) : option string :=
  match Js.cut "://" href with
  | None => None
  | Some (_, rest) =>
      let rest := upTo "?" (upTo "#" rest) in
      match Js.cut "/" rest with
      | None => Some "/"
      | Some (_, path) => Some ("/" +:+ path)
      end
  end.

(** The path of a resource from the text of a URL: the pathname without
    its leading slash and without one trailing slash.  This is the body of
    [make_resource_path], and the first lines of COPY and MOVE apply the
    same steps to the Destination header. *)
Definition resource_path_of (href : string) : option string :=
  match URL_pathname href with
  | None => None
  | Some pathname =>
      let path := Js.drop 1 pathname in
      Some (if Js.endsWith path "/" then Js.dropLast path else path)
  end.

(** The path of the parent of a resource: all segments but the last.
    [handle_put] and [handle_mkcol] compute it with the same expression. *)
Definition dirname_of (resource_path : string) : string :=
  Js.join "/" (Js.slice_to_neg 1 (Js.split "/" resource_path)).

(** ** Store records *)

Record Env : Type := {
  S3_ACCESS_KEY_ID : string;
  S3_SECRET_ACCESS_KEY : string;
  S3_REGION : string;
  S3_BUCKET : string;
  S3_ENDPOINT : option string;
  USERNAME : string;
  PASSWORD : string;
}.

Record S3Object : Type := {
  key : string;
  size : Js.number;
  lastModified : Js.Date;
  etag : string;
  contentType : option string;
  contentDisposition : option string;
  contentLanguage : option string;
  contentEncoding : option string;
  cacheControl : option string;
  metadata : option (gmap string string);
}.

Record DavProperties : Type := {
  creationdate : option string;
  displayname : option string;
  getcontentlanguage : option string;
  getcontentlength : option string;
  getcontenttype : option string;
  getetag : option string;
  getlastmodified : option string;
  resourcetype : string;
}.

Definition COLLECTION : string := "<collection />".

Definition getS3Url (env : Env) (bucket : string) (key : option string)
    (queryParams : option string) : string :=
  let baseUrl :=
    Js.or_else (S3_ENDPOINT env) ("https://s3." +:+ S3_REGION env +:+ ".amazonaws.com") in
  let pathStyle := bool_decide (Js.or_undefined (S3_ENDPOINT env) ≠ None) in
  let query :=
    match Js.or_undefined queryParams with
    | Some q => "?" +:+ q
    | None => ""
    end in
  if pathStyle then
    let path :=
      match Js.or_undefined key with
      | Some k => "/" +:+ bucket +:+ "/" +:+ k
      | None => "/" +:+ bucket
      end in
    baseUrl +:+ path +:+ query
  else
    let path := Js.or_else key "" in
    "https://" +:+ bucket +:+ ".s3." +:+ S3_REGION env +:+ ".amazonaws.com/" +:+ path +:+ query.

(** The body of the loop of [parseXmlToObjects]: the record read off the
    text of one [Contents] element, none when the text shows no key. *)
Definition object_of_contents `{Runtime} (contentXml : string) : list S3Object :=
  let keyMatch := Js.exec false "<Key>" "</Key>" contentXml in
  let sizeMatch := Js.exec false "<Size>" "</Size>" contentXml in
  let lastModifiedMatch := Js.exec false "<LastModified>" "</LastModified>" contentXml in
  let etagMatch := Js.exec false "<ETag>" "</ETag>" contentXml in
  match keyMatch with
  | Some (k, _) =>
      [{| key := k;
          size := Js.parseInt (Js.or_else (Js.group1 sizeMatch) "0");
          lastModified := Date_parse (Js.or_else (Js.group1 lastModifiedMatch) "");
          etag := Js.or_else (Js.remove_char (ascii_of_nat 34) <$> Js.group1 etagMatch) "";
          contentType := None;
          contentDisposition := None;
          contentLanguage := None;
          contentEncoding := None;
          cacheControl := None;
          metadata := Some ∅ |}]
  | None => []
  end.

(** The loop of [parseXmlToObjects] over the matches of the global
    [Contents] expression.  Every match consumes text, so the length of
    the input is enough fuel. *)
Fixpoint parseContents `{Runtime} (fuel : nat) (xmlText : string) : list S3Object :=
  match fuel with
  | O => []
  | S fuel' =>
      match Js.exec true "<Contents>" "</Contents>" xmlText with
      | None => []
      | Some (contentXml, rest) => object_of_contents contentXml ++ parseContents fuel' rest
      end
  end.

Definition parseXmlToObjects `{Runtime} (xmlText : string) : list S3Object :=
  parseContents (String.length xmlText) xmlText.

Definition fromS3Object `{Runtime} (object : option S3Object) : DavProperties :=
  match object with
  | None =>
      {| creationdate := Some (Date_toUTCString Date_now);
         displayname := None;
         getcontentlanguage := None;
         getcontentlength := Some "0";
         getcontenttype := None;
         getetag := None;
         getlastmodified := Some (Date_toUTCString Date_now);
         resourcetype := COLLECTION |}
  | Some object =>
      {| creationdate := Some (Date_toUTCString (lastModified object));
         displayname := contentDisposition object;
         getcontentlanguage := contentLanguage object;
         getcontentlength := Some (Js.Number_toString (size object));
         getcontenttype := contentType object;
         getetag := Some (etag object);
         getlastmodified := Some (Date_toUTCString (lastModified object));
         resourcetype := default "" (metadata object ≫= (.!! "resourcetype")) |}
  end.

(** [object.metadata?.resourcetype === '<collection />']. *)
Definition isCollectionObject (object : S3Object) : bool :=
  bool_decide (metadata object ≫= (.!! "resourcetype") = Some COLLECTION).

Definition generate_propfind_response `{Runtime} (object : option S3Object) : string :=
  let entries (p : DavProperties) : list (string * option string) :=
    [("creationdate", creationdate p);
     ("displayname", displayname p);
     ("getcontentlanguage", getcontentlanguage p);
     ("getcontentlength", getcontentlength p);
     ("getcontenttype", getcontenttype p);
     ("getetag", getetag p);
     ("getlastmodified", getlastmodified p);
     ("resourcetype", Some (resourcetype p))] in
  let props (p : DavProperties) : string :=
    Js.join (Js.LF +:+ Js.TAB +:+ Js.TAB +:+ Js.TAB +:+ Js.TAB)
      (omap (fun kv => (fun value => "<" +:+ kv.1 +:+ ">" +:+ value +:+ "</" +:+ kv.1 +:+ ">") <$> kv.2)
            (entries p)) in
  let href :=
    match object with
    | None => "/"
    | Some o => "/" +:+ key o +:+ (if isCollectionObject o then "/" else "")
    end in
  Js.LF +:+ Js.TAB +:+ "<response>"
  +:+ Js.LF +:+ Js.TAB +:+ Js.TAB +:+ "<href>" +:+ href +:+ "</href>"
  +:+ Js.LF +:+ Js.TAB +:+ Js.TAB +:+ "<propstat>"
  +:+ Js.LF +:+ Js.TAB +:+ Js.TAB +:+ Js.TAB +:+ "<prop>"
  +:+ Js.LF +:+ Js.TAB +:+ Js.TAB +:+ Js.TAB +:+ props (fromS3Object object)
  +:+ Js.LF +:+ Js.TAB +:+ Js.TAB +:+ Js.TAB +:+ "</prop>"
  +:+ Js.LF +:+ Js.TAB +:+ Js.TAB +:+ Js.TAB +:+ "<status>HTTP/1.1 200 OK</status>"
  +:+ Js.LF +:+ Js.TAB +:+ Js.TAB +:+ "</propstat>"
  +:+ Js.LF +:+ Js.TAB +:+ "</response>".

(** ** Handlers as computations over the store

    A handler runs against a store of some type [World] that answers each
    [aws.fetch] call and may change by it.  The state of a run is the
    store together with the trace of the calls made so far. *)

Record State (World : Type) : Type := {
  world : World;
  trace : list Request.t;
}.
Arguments world {World} _.
Arguments trace {World} _.

Inductive Result (A : Type) : Type :=
| Value (a : A)
| Throw (message : string)
| Diverge.
Arguments Value {A} _.
Arguments Throw {A} _.
Arguments Diverge {A}.

Definition M (World A : Type) : Type := State World -> Result A * State World.

Definition ret {World A} (a : A) : M World A := fun st => (Value a, st).

Definition bind {World A B} (m : M World A) (k : A -> M World B) : M World B :=
  fun st =>
    match m st with
    | (Value a, st') => k a st'
    | (Throw e, st') => (Throw e, st')
    | (Diverge, st') => (Diverge, st')
    end.

(** [throw new Error(message)]. *)
Definition throw {World A} (message : string) : M World A := fun st => (Throw message, st).

Definition diverge {World A} : M World A := fun st => (Diverge, st).

(** [try { m } catch (error) { handler(error.message) }]. *)
Definition try_catch {World A} (m : M World A) (handler : string -> M World A) : M World A :=
  fun st =>
    match m st with
    | (Throw e, st') => handler e st'
    | r => r
    end.

Notation "x <- m ;; k" := (bind m (fun x => k))
  (at level 100, m at next level, right associativity).

(** [for (const x of xs) acc = body(acc, x)]. *)
Fixpoint for_of {World A Acc} (xs : list A) (body : Acc -> A -> M World Acc) (acc : Acc)
    : M World Acc :=
  match xs with
  | [] => ret acc
  | x :: xs' => acc' <- body acc x ;; for_of xs' body acc'
  end.

(** A promise that was started and has settled: fulfilled, or rejected
    with the message of its error. *)
Definition Settled : Type := option string.

(** Starting an asynchronous operation.  The model runs it to its end at
    once, so the store calls of two operations started one after the other
    are not interleaved; its failure is kept in the promise and surfaces
    where the promise is awaited. *)
Definition start {World A} (m : M World A) : M World Settled :=
  fun st =>
    match m st with
    | (Value _, st') => (Value None, st')
    | (Throw e, st') => (Value (Some e), st')
    | (Diverge, st') => (Diverge, st')
    end.

(** [await Promise.all(promise_array)]: rejects with the rejection of the
    first rejected promise. *)
Fixpoint Promise_all {World} (promise_array : list Settled) : M World unit :=
  match promise_array with
  | [] => ret tt
  | None :: rest => Promise_all rest
  | Some e :: _ => throw e
  end.

Section Handlers.

Context `{Runtime}.
Context {World : Type}.

(** The store: how it answers a call in a given state, and the state
    after the call. *)
Variable fetch : Request.t -> World -> FetchOutcome * World.

(** Bound on the number of pages one listing may fetch. *)
Variable fuel : nat.

(** [await aws.fetch(url, { method, headers, body })]. *)
Definition aws_fetch (url method : string) (headers : Headers) (body : option string)
    : M World Response.t :=
  fun st =>
    let call := Request.mk url method headers body in
    let '(outcome, w) := fetch call (world st) in
    let st' := {| world := w; trace := trace st ++ [call] |} in
    match outcome with
    | Resolved response => (Value response, st')
    | Rejected message => (Throw message, st')
    end.

Definition S3_API_error (response : Response.t) : string :=
  "S3 API error: " +:+ pretty (Response.status response) +:+ " " +:+ Response.statusText response.

Definition S3_copy_error (response : Response.t) : string :=
  "S3 copy error: " +:+ pretty (Response.status response).

(** The URL of one page request of [listAll]: the list parameters, with
    the delimiter unless the listing is recursive, and the continuation
    token when there is one. *)
Definition listAll_url (env : Env) (bucket prefix : string) (isRecursive : bool)
    (continuationToken : option string) : string :=
  let params :=
    URLSearchParams_toString
      ([("list-type", "2"); ("prefix", prefix)]
       ++ (if isRecursive then [] else [("delimiter", "/")])
       ++ match Js.or_undefined continuationToken with
          | Some token => [("continuation-token", token)]
          | None => []
          end) in
  getS3Url env bucket None (Some params).

(** The do-while loop of [listAll], from the state of its variable
    [continuationToken].  The generator is consumed by a [for await] loop
    whose body updates an accumulator: each object is handed to the body when
    it is yielded, before the next page is requested. *)
Fixpoint listAll_from {Acc} (n : nat) (env : Env) (bucket prefix : string) (isRecursive : bool)
    (continuationToken : option string) (body : Acc -> S3Object -> M World Acc) (acc : Acc)
    : M World Acc :=
  match n with
  | O => diverge
  | S n' =>
      let url := listAll_url env bucket prefix isRecursive continuationToken in
      response <- aws_fetch url "GET" [] None ;;
      if negb (Response.ok response) then throw (S3_API_error response)
      else
        let xmlText := default "" (Response.body response) in
        let objects := parseXmlToObjects xmlText in
        acc <- for_of objects body acc ;;
        let truncatedMatch := Js.exec false "<IsTruncated>" "</IsTruncated>" xmlText in
        let isTruncated := bool_decide (Js.group1 truncatedMatch = Some "true") in
        let continuationToken :=
          if isTruncated then
            Js.group1 (Js.exec false "<NextContinuationToken>" "</NextContinuationToken>" xmlText)
          else None in
        match Js.or_undefined continuationToken with
        | Some _ => listAll_from n' env bucket prefix isRecursive continuationToken body acc
        | None => ret acc
        end
  end.

(** [for await (const object of listAll(aws, env, bucket, prefix, isRecursive)) body]. *)
Definition listAll {Acc} (env : Env) (bucket prefix : string) (isRecursive : bool)
    (body : Acc -> S3Object -> M World Acc) (acc : Acc) : M World Acc :=
  listAll_from fuel env bucket prefix isRecursive None body acc.

(** [make_resource_path(request)]; [new URL] throws on an invalid URL. *)
Definition make_resource_path (request : Request.t) : M World string :=
  match resource_path_of (Request.url request) with
  | None => throw "Invalid URL"
  | Some path => ret path
  end.

(** The content headers that PUT hands on to the store. *)
Definition content_headers : list string :=
  ["Content-Type"; "Content-Disposition"; "Content-Language"; "Content-Encoding";
   "Cache-Control"].

(** The request headers that [handle_put] copies when they are truthy. *)
Definition copy_headers (names : list string) (from : Headers) : Headers :=
  omap (fun name => (fun v => (name, v)) <$> Js.or_undefined (Headers_get from name)) names.

Definition handle_put (request : Request.t) (env : Env) (bucket : string) : M World Response.t :=
  if Js.endsWith (Request.url request) "/" then
    ret (new_Response (Some "Method Not Allowed") 405)
  else
    resource_path <- make_resource_path request ;;
    let dirpath := dirname_of resource_path in
    early <-
      (if bool_decide (dirpath ≠ "") then
         try_catch
           (let url := getS3Url env bucket (Some (encodeURIComponent dirpath)) None in
            response <- aws_fetch url "HEAD" [] None ;;
            if Response.status response =? 404 then
              ret (Some (new_Response (Some "Conflict") 409))
            else
              let resourceType := Headers_get (Response.headers response) "x-amz-meta-resourcetype" in
              if bool_decide (resourceType ≠ Some COLLECTION) then
                ret (Some (new_Response (Some "Conflict") 409))
              else ret None)
           (fun _ => ret (Some (new_Response (Some "Conflict") 409)))
       else ret None) ;;
    match early with
    | Some response => ret response
    | None =>
        let body := Request.body request in
        let url := getS3Url env bucket (Some (encodeURIComponent resource_path)) None in
        let headers :=
          copy_headers content_headers (Request.headers request) in
        response <- aws_fetch url "PUT" headers (Some (default "" body)) ;;
        if negb (Response.ok response) then throw (S3_API_error response)
        else ret (new_Response (Some "") 201)
    end.

(** The body of the batch delete request. *)
Definition deleteXml (objectsToDelete : list string) : string :=
  "<?xml version=" +:+ Js.DQ +:+ "1.0" +:+ Js.DQ +:+ " encoding=" +:+ Js.DQ +:+ "UTF-8" +:+ Js.DQ
  +:+ "?>" +:+ Js.LF +:+ "<Delete>" +:+ Js.LF +:+ Js.TAB
  +:+ Js.join "" ((fun key => "<Object><Key>" +:+ key +:+ "</Key></Object>") <$> objectsToDelete)
  +:+ Js.LF +:+ "</Delete>".

(** The batch delete of [handle_delete], shared by its two branches. *)
Definition batch_delete (env : Env) (bucket : string) (objectsToDelete : list string)
    : M World unit :=
  if bool_decide (objectsToDelete ≠ []) then
    let url := getS3Url env bucket None (Some "delete") in
    response <- aws_fetch url "POST" [("Content-Type", "application/xml")]
                  (Some (deleteXml objectsToDelete)) ;;
    if negb (Response.ok response) then throw (S3_API_error response) else ret tt
  else ret tt.

(** [catch (error) { if (error.message.includes('404')) return 404; throw error; }]. *)
Definition catch_404 (message : string) : M World Response.t :=
  if Js.includes message "404" then ret (new_Response (Some "Not Found") 404)
  else throw message.

Definition handle_delete (request : Request.t) (env : Env) (bucket : string)
    : M World Response.t :=
  resource_path <- make_resource_path request ;;
  if bool_decide (resource_path = "") then
    objectsToDelete <-
      listAll env bucket "" true (fun keys object => ret (keys ++ [key object])) [] ;;
    _ <- batch_delete env bucket objectsToDelete ;;
    ret (new_Response None 204)
  else
    try_catch
      (let headUrl := getS3Url env bucket (Some (encodeURIComponent resource_path)) None in
       headResponse <- aws_fetch headUrl "HEAD" [] None ;;
       if Response.status headResponse =? 404 then ret (new_Response (Some "Not Found") 404)
       else
         let deleteUrl := getS3Url env bucket (Some (encodeURIComponent resource_path)) None in
         deleteResponse <- aws_fetch deleteUrl "DELETE" [] None ;;
         if negb (Response.ok deleteResponse) then throw (S3_API_error deleteResponse)
         else
           let resourceType :=
             Headers_get (Response.headers headResponse) "x-amz-meta-resourcetype" in
           if bool_decide (resourceType ≠ Some COLLECTION) then ret (new_Response None 204)
           else
             objectsToDelete <-
               listAll env bucket (resource_path +:+ "/") true
                 (fun keys object => ret (keys ++ [key object])) [] ;;
             _ <- batch_delete env bucket objectsToDelete ;;
             ret (new_Response None 204))
      catch_404.

Definition handle_mkcol (request : Request.t) (env : Env) (bucket : string)
    : M World Response.t :=
  resource_path <- make_resource_path request ;;
  exists_already <-
    try_catch
      (let url := getS3Url env bucket (Some (encodeURIComponent resource_path)) None in
       response <- aws_fetch url "HEAD" [] None ;;
       ret (Response.ok response))
      (fun _ => ret false) ;;
  if exists_already : bool then ret (new_Response (Some "Method Not Allowed") 405)
  else
    let parent_dir := dirname_of resource_path in
    early <-
      (if bool_decide (parent_dir ≠ "") then
         try_catch
           (let parentUrl := getS3Url env bucket (Some (encodeURIComponent parent_dir)) None in
            parentResponse <- aws_fetch parentUrl "HEAD" [] None ;;
            if Response.status parentResponse =? 404 then
              ret (Some (new_Response (Some "Conflict") 409))
            else ret None)
           (fun _ => ret (Some (new_Response (Some "Conflict") 409)))
       else ret None) ;;
    match early with
    | Some response => ret response
    | None =>
        let url := getS3Url env bucket (Some (encodeURIComponent resource_path)) None in
        let headers :=
          [("x-amz-meta-resourcetype", COLLECTION)]
          ++ copy_headers ["Content-Type"] (Request.headers request) in
        response <- aws_fetch url "PUT" headers (Some "") ;;
        if negb (Response.ok response) then throw (S3_API_error response)
        else ret (new_Response (Some "") 201)
    end.

(** The record that [handle_propfind] builds from the headers of a HEAD
    response. *)
Definition object_of_head (resource_path : string) (response : Response.t) : S3Object :=
  let get := Headers_get (Response.headers response) in
  {| key := resource_path;
     size := Js.parseInt (Js.or_else (get "Content-Length") "0");
     lastModified := Date_parse (Js.or_else (get "Last-Modified") "");
     etag := Js.or_else (Js.remove_char (ascii_of_nat 34) <$> get "ETag") "";
     contentType := Js.or_undefined (get "Content-Type");
     contentDisposition := Js.or_undefined (get "Content-Disposition");
     contentLanguage := Js.or_undefined (get "Content-Language");
     contentEncoding := Js.or_undefined (get "Content-Encoding");
     cacheControl := Js.or_undefined (get "Cache-Control");
     metadata := Some {[ "resourcetype" := Js.or_else (get "x-amz-meta-resourcetype") "" ]} |}.

Definition multistatus_open : string :=
  "<?xml version=" +:+ Js.DQ +:+ "1.0" +:+ Js.DQ +:+ " encoding=" +:+ Js.DQ +:+ "utf-8" +:+ Js.DQ
  +:+ "?>" +:+ Js.LF +:+ "<multistatus xmlns=" +:+ Js.DQ +:+ "DAV:" +:+ Js.DQ +:+ ">".

Definition multistatus_close : string := Js.LF +:+ "</multistatus>" +:+ Js.LF.

(** The loop body of the two listing branches of [handle_propfind]. *)
Definition append_propfind_response (page : string) (object : S3Object) : M World string :=
  ret (page +:+ generate_propfind_response (Some object)).

Definition handle_propfind (request : Request.t) (env : Env) (bucket : string)
    : M World Response.t :=
  resource_path <- make_resource_path request ;;
  let page := multistatus_open in
  self <-
    (if bool_decide (resource_path = "") then
       ret (inr (page +:+ generate_propfind_response None, true))
     else
       try_catch
         (let url := getS3Url env bucket (Some (encodeURIComponent resource_path)) None in
          response <- aws_fetch url "HEAD" [] None ;;
          if Response.status response =? 404 then
            ret (inl (new_Response (Some "Not Found") 404))
          else if negb (Response.ok response) then throw (S3_API_error response)
          else
            let object := object_of_head resource_path response in
            let is_collection := isCollectionObject object in
            ret (inr (page +:+ generate_propfind_response (Some object), is_collection)))
         (fun message => response <- catch_404 message ;; ret (inl response))) ;;
  match self with
  | inl response => ret response
  | inr (page, is_collection) =>
      listed <-
        (if is_collection : bool then
           let depth := default "infinity" (Headers_get (Request.headers request) "Depth") in
           if bool_decide (depth = "0") then ret (Some page)
           else if bool_decide (depth = "1") then
             let prefix :=
               if bool_decide (resource_path = "") then resource_path
               else resource_path +:+ "/" in
             page <- listAll env bucket prefix false append_propfind_response page ;;
             ret (Some page)
           else if bool_decide (depth = "infinity") then
             let prefix :=
               if bool_decide (resource_path = "") then resource_path
               else resource_path +:+ "/" in
             page <- listAll env bucket prefix true append_propfind_response page ;;
             ret (Some page)
           else ret None
         else ret (Some page)) ;;
      match listed with
      | None => ret (new_Response (Some "Forbidden") 403)
      | Some page =>
          let page := page +:+ multistatus_close in
          ret (new_Response_with (Some page) 207 [("Content-Type", "text/xml")])
      end
  end.

(** The destination path of COPY and MOVE, from the Destination header:
    the same two steps as [make_resource_path]. *)
Definition destination_of (destination_header : string) : M World string :=
  match resource_path_of destination_header with
  | None => throw "Invalid URL"
  | Some destination => ret destination
  end.

Definition destination_parent_of (destination : string) : string :=
  Js.join "/"
    (Js.slice_to_neg (if Js.endsWith destination "/" then 2 else 1) (Js.split "/" destination)).

(** The check of the parent of the destination, the same code in COPY and
    MOVE: a 409 response, or nothing when the handler goes on. *)
Definition check_destination_parent (env : Env) (bucket destination_parent : string)
    : M World (option Response.t) :=
  if bool_decide (destination_parent ≠ "") then
    try_catch
      (let parentUrl := getS3Url env bucket (Some (encodeURIComponent destination_parent)) None in
       parentResponse <- aws_fetch parentUrl "HEAD" [] None ;;
       if Response.status parentResponse =? 404 then
         ret (Some (new_Response (Some "Conflict") 409))
       else ret None)
      (fun _ => ret (Some (new_Response (Some "Conflict") 409)))
  else ret None.

(** The check of the destination itself, the same code in COPY and MOVE up
    to the flag that forbids replacing it: the value of
    [destination_exists], and a 412 response when the handler returns. *)
Definition check_destination (env : Env) (bucket destination : string) (forbidden : bool)
    : M World (bool * option Response.t) :=
  try_catch
    (let destUrl := getS3Url env bucket (Some (encodeURIComponent destination)) None in
     destResponse <- aws_fetch destUrl "HEAD" [] None ;;
     if Response.ok destResponse then
       if forbidden then ret (true, Some (new_Response (Some "Precondition Failed") 412))
       else ret (true, None)
     else ret (false, None))
    (fun _ => ret (false, None)).

(** A store-side copy: a PUT of [target] that names its source. *)
Definition copy_object (env : Env) (bucket target source : string) : M World Response.t :=
  let copyUrl := getS3Url env bucket (Some (encodeURIComponent target)) None in
  aws_fetch copyUrl "PUT" [("x-amz-copy-source", bucket +:+ "/" +:+ source)] None.

(** [new Response(destination_exists ? null : '', { status: destination_exists ? 204 : 201 })]. *)
Definition copied_response (destination_exists : bool) : Response.t :=
  new_Response (if destination_exists then None else Some "")
               (if destination_exists then 204 else 201).

(** The target of a descendant [objectKey] of the source collection. *)
Definition target_of (destination prefix objectKey : string) : string :=
  let target := destination +:+ "/" +:+ Js.drop (String.length prefix) objectKey in
  if Js.endsWith target "/" then Js.dropLast target else target.

Definition handle_copy (request : Request.t) (env : Env) (bucket : string)
    : M World Response.t :=
  resource_path <- make_resource_path request ;;
  let dont_overwrite := bool_decide (Headers_get (Request.headers request) "Overwrite" = Some "F") in
  match Headers_get (Request.headers request) "Destination" with
  | None => ret (new_Response (Some "Bad Request") 400)
  | Some destination_header =>
      destination <- destination_of destination_header ;;
      let destination_parent := destination_parent_of destination in
      conflict <- check_destination_parent env bucket destination_parent ;;
      match conflict with
      | Some response => ret response
      | None =>
          checked <- check_destination env bucket destination dont_overwrite ;;
          match checked with
          | (_, Some response) => ret response
          | (destination_exists, None) =>
              try_catch
                (let sourceUrl := getS3Url env bucket (Some (encodeURIComponent resource_path)) None in
                 sourceResponse <- aws_fetch sourceUrl "HEAD" [] None ;;
                 if Response.status sourceResponse =? 404 then
                   ret (new_Response (Some "Not Found") 404)
                 else
                   let is_dir :=
                     bool_decide (Headers_get (Response.headers sourceResponse)
                                    "x-amz-meta-resourcetype" = Some COLLECTION) in
                   if is_dir then
                     let depth := default "infinity" (Headers_get (Request.headers request) "Depth") in
                     if bool_decide (depth = "infinity") then
                       let prefix := resource_path +:+ "/" in
                       let copy (objectKey : string) : M World unit :=
                         copyResponse <-
                           copy_object env bucket (target_of destination prefix objectKey) objectKey ;;
                         if negb (Response.ok copyResponse) then throw (S3_copy_error copyResponse)
                         else ret tt in
                       copyDir <- start (copy_object env bucket destination resource_path) ;;
                       promise_array <-
                         listAll env bucket prefix true
                           (fun promise_array object =>
                              promise <- start (copy (key object)) ;;
                              ret (promise_array ++ [promise]))
                           [copyDir] ;;
                       _ <- Promise_all promise_array ;;
                       ret (copied_response destination_exists)
                     else if bool_decide (depth = "0") then
                       copyResponse <- copy_object env bucket destination resource_path ;;
                       if negb (Response.ok copyResponse) then throw (S3_copy_error copyResponse)
                       else ret (copied_response destination_exists)
                     else ret (new_Response (Some "Bad Request") 400)
                   else
                     copyResponse <- copy_object env bucket destination resource_path ;;
                     if negb (Response.ok copyResponse) then throw (S3_copy_error copyResponse)
                     else ret (copied_response destination_exists))
                catch_404
          end
      end
  end.

(** [await aws.fetch(deleteUrl, { method: 'DELETE' })], the response dropped. *)
Definition delete_object (env : Env) (bucket objectKey : string) : M World unit :=
  let deleteUrl := getS3Url env bucket (Some (encodeURIComponent objectKey)) None in
  _ <- aws_fetch deleteUrl "DELETE" [] None ;;
  ret tt.

(** The closure [move] of [handle_move]: copy one descendant, then delete
    its source. *)
Definition move_object (env : Env) (bucket destination prefix objectKey : string)
    : M World unit :=
  copyResponse <- copy_object env bucket (target_of destination prefix objectKey) objectKey ;;
  if negb (Response.ok copyResponse) then throw (S3_copy_error copyResponse)
  else delete_object env bucket objectKey.

Definition handle_move (request : Request.t) (env : Env) (bucket : string)
    : M World Response.t :=
  resource_path <- make_resource_path request ;;
  let overwrite := bool_decide (Headers_get (Request.headers request) "Overwrite" = Some "T") in
  match Headers_get (Request.headers request) "Destination" with
  | None => ret (new_Response (Some "Bad Request") 400)
  | Some destination_header =>
      destination <- destination_of destination_header ;;
      let destination_parent := destination_parent_of destination in
      conflict <- check_destination_parent env bucket destination_parent ;;
      match conflict with
      | Some response => ret response
      | None =>
          checked <- check_destination env bucket destination (negb overwrite) ;;
          match checked with
          | (_, Some response) => ret response
          | (destination_exists, None) =>
              try_catch
                (let sourceUrl := getS3Url env bucket (Some (encodeURIComponent resource_path)) None in
                 sourceResponse <- aws_fetch sourceUrl "HEAD" [] None ;;
                 if Response.status sourceResponse =? 404 then
                   ret (new_Response (Some "Not Found") 404)
                 else if bool_decide (resource_path = destination) then
                   ret (new_Response (Some "Bad Request") 400)
                 else
                   _ <- (if destination_exists : bool then
                           _ <- handle_delete
                                  (Request.mk destination_header (Request.method request)
                                     (Request.headers request) (Request.body request))
                                  env bucket ;;
                           ret tt
                         else ret tt) ;;
                   let is_dir :=
                     bool_decide (Headers_get (Response.headers sourceResponse)
                                    "x-amz-meta-resourcetype" = Some COLLECTION) in
                   if is_dir then
                     let depth := default "infinity" (Headers_get (Request.headers request) "Depth") in
                     if bool_decide (depth = "infinity") then
                       let prefix := resource_path +:+ "/" in
                       moveDir <-
                         start (_ <- copy_object env bucket destination resource_path ;;
                                delete_object env bucket resource_path) ;;
                       promise_array <-
                         listAll env bucket prefix true
                           (fun promise_array object =>
                              promise <-
                                start (move_object env bucket destination prefix (key object)) ;;
                              ret (promise_array ++ [promise]))
                           [moveDir] ;;
                       _ <- Promise_all promise_array ;;
                       ret (copied_response destination_exists)
                     else if bool_decide (depth = "0") then
                       copyResponse <- copy_object env bucket destination resource_path ;;
                       if negb (Response.ok copyResponse) then throw (S3_copy_error copyResponse)
                       else
                         _ <- delete_object env bucket resource_path ;;
                         ret (copied_response destination_exists)
                     else ret (new_Response (Some "Bad Request") 400)
                   else
                     copyResponse <- copy_object env bucket destination resource_path ;;
                     if negb (Response.ok copyResponse) then throw (S3_copy_error copyResponse)
                     else
                       _ <- delete_object env bucket resource_path ;;
                       ret (copied_response destination_exists))
                catch_404
          end
      end
  end.

End Handlers.

(** ** A reference store

    A model of the S3 service the gateway talks to, used to run the
    handlers on concrete buckets: objects kept in key order, HEAD, GET,
    PUT, store-side copy, DELETE, batch delete, and the paginated
    version-2 listing with prefix, delimiter and continuation token.
    A fault predicate lets chosen calls fail with status 500 and no
    effect. *)

Module S3.

Record Object : Type := {
  data : string;
  stored_headers : Headers;
  modified : Z;
}.

Record Bucket : Type := {
  objects : list (string * Object);
  clock : Z;
  max_keys : nat;
  fault : Request.t -> bool;
}.

(** *** Dates of the reference runtime *)

Definition days_from_civil (y m d : Z) : Z :=
  let y := if m <=? 2 then y - 1 else y in
  let era := y / 400 in
  let yoe := y - era * 400 in
  let doy := (153 * (m + (if 2 <? m then -3 else 9)) + 2) / 5 + d - 1 in
  let doe := yoe * 365 + yoe / 4 - yoe / 100 + doy in
  era * 146097 + doe - 719468.

Definition civil_from_days (z : Z) : Z * Z * Z :=
  let z := z + 719468 in
  let era := z / 146097 in
  let doe := z - era * 146097 in
  let yoe := (doe - doe / 1460 + doe / 36524 - doe / 146096) / 365 in
  let doy := doe - (365 * yoe + yoe / 4 - yoe / 100) in
  let mp := (5 * doy + 2) / 153 in
  let d := doy - (153 * mp + 2) / 5 + 1 in
  let m := if mp <? 10 then mp + 3 else mp - 9 in
  let y := yoe + era * 400 + (if m <=? 2 then 1 else 0) in
  (y, m, d).

Definition pad (width : nat) (n : Z) : string :=
  let s := pretty n in
  String.concat "" (replicate (width - String.length s) "0") +:+ s.

Definition dayNames : list string := ["Sun"; "Mon"; "Tue"; "Wed"; "Thu"; "Fri"; "Sat"].
Definition monthNames : list string :=
  ["Jan"; "Feb"; "Mar"; "Apr"; "May"; "Jun"; "Jul"; "Aug"; "Sep"; "Oct"; "Nov"; "Dec"].

(** The HTTP date of a time value, the format of [toUTCString]. *)
Definition http_date (ms : Z) : string :=
  let secs := ms / 1000 in
  let days := secs / 86400 in
  let tod := secs mod 86400 in
  let '(y, m, d) := civil_from_days days in
  default "" (dayNames !! Z.to_nat ((days + 4) mod 7)) +:+ ", " +:+ pad 2 d +:+ " "
  +:+ default "" (monthNames !! Z.to_nat (m - 1)) +:+ " " +:+ pad 4 y +:+ " "
  +:+ pad 2 (tod / 3600) +:+ ":" +:+ pad 2 (tod mod 3600 / 60) +:+ ":" +:+ pad 2 (tod mod 60)
  +:+ " GMT".

(** The ISO date of a time value, the format of a listing. *)
Definition iso_date (ms : Z) : string :=
  let secs := ms / 1000 in
  let days := secs / 86400 in
  let tod := secs mod 86400 in
  let '(y, m, d) := civil_from_days days in
  pad 4 y +:+ "-" +:+ pad 2 m +:+ "-" +:+ pad 2 d +:+ "T"
  +:+ pad 2 (tod / 3600) +:+ ":" +:+ pad 2 (tod mod 3600 / 60) +:+ ":" +:+ pad 2 (tod mod 60)
  +:+ "." +:+ pad 3 (ms mod 1000) +:+ "Z".

Definition field (from len : nat) (s : string) : option Z :=
  let t := Js.take len (Js.drop from s) in
  if bool_decide (String.length t = len) && forallb (fun c => isAlphaNumeric c) (String.list_ascii_of_string t)
  then Js.digits 10 None t else None.

Definition month_of_name (name : string) : option Z :=
  (fun i => Z.of_nat i + 1) <$> list_find (fun n => n = name) monthNames ≫= (fun p => Some p.1).

Definition time_value (y m d hh mm ss ms : Z) : Z :=
  ((days_from_civil y m d * 86400 + hh * 3600 + mm * 60 + ss) * 1000 + ms).

(** Date strings of the two formats above; anything else is invalid. *)
Definition parse_date (s : string) : Js.Date :=
  let iso :=
    y ← field 0 4 s; m ← field 5 2 s; d ← field 8 2 s;
    hh ← field 11 2 s; mm ← field 14 2 s; ss ← field 17 2 s; ms ← field 20 3 s;
    if bool_decide (String.length s = 24%nat) then Some (time_value y m d hh mm ss ms) else None in
  let http :=
    d ← field 5 2 s; m ← month_of_name (Js.take 3 (Js.drop 8 s)); y ← field 12 4 s;
    hh ← field 17 2 s; mm ← field 20 2 s; ss ← field 23 2 s;
    if bool_decide (String.length s = 29%nat) then Some (time_value y m d hh mm ss 0) else None in
  match iso, http with
  | Some t, _ => Js.TimeValue t
  | None, Some t => Js.TimeValue t
  | None, None => Js.InvalidDate
  end.

Definition runtime (now : Z) : Runtime := {|
  Date_parse := parse_date;
  Date_toUTCString := fun d =>
    match d with
    | Js.InvalidDate => "Invalid Date"
    | Js.TimeValue ms => http_date ms
    end;
  Date_now := Js.TimeValue now;
|}.

(** *** Decoding a call *)

Definition hexValue (c : ascii) : option nat := Z.to_nat <$> Js.digitValue 16 c.

(** Percent-decoding; [skip] counts the characters of an escape that are
    still to be passed over. *)
Fixpoint percentDecode_from (plus_is_space : bool) (skip : nat) (s : string) : string :=
  match s with
  | EmptyString => EmptyString
  | String c s' =>
      match skip with
      | S k => percentDecode_from plus_is_space k s'
      | O =>
          let escape :=
            if Ascii.eqb c "%" then
              match s' with
              | String h (String l _) =>
                  match hexValue h, hexValue l with
                  | Some hv, Some lv => Some (ascii_of_nat (16 * hv + lv))
                  | _, _ => None
                  end
              | _ => None
              end
            else None in
          match escape with
          | Some d => String d (percentDecode_from plus_is_space 2 s')
          | None =>
              String (if plus_is_space && Ascii.eqb c "+" then " "%char else c)
                     (percentDecode_from plus_is_space 0 s')
          end
      end
  end.

Definition percentDecode (plus_is_space : bool) (s : string) : string :=
  percentDecode_from plus_is_space 0 s.

Definition parse_query (query : string) : list (string * string) :=
  (fun pair =>
     match Js.cut "=" pair with
     | Some (k, v) => (percentDecode true k, percentDecode true v)
     | None => (percentDecode true pair, "")
     end) <$> filter (fun pair => pair ≠ "") (Js.split "&" query).

Fixpoint lookup_param (name : string) (params : list (string * string)) : option string :=
  match params with
  | [] => None
  | (k, v) :: rest => if String.eqb k name then Some v else lookup_param name rest
  end.

(** The object key and the query parameters that a URL built by
    [getS3Url] addresses; no key for the bucket itself. *)
Definition parse_url (env : Env) (bucket url : string)
    : option (option string * list (string * string)) :=
  let base := getS3Url env bucket None None in
  if Js.startsWith url base then
    let rest := Js.drop (String.length base) url in
    let '(path, query) :=
      match Js.cut "?" rest with
      | Some (path, query) => (path, query)
      | None => (rest, "")
      end in
    let path := if Js.startsWith path "/" then Js.drop 1 path else path in
    Some (Js.or_undefined (Some (percentDecode false path)), parse_query query)
  else None.

(** *** Objects in key order *)

Fixpoint lookup_object (k : string) (objs : list (string * Object)) : option Object :=
  match objs with
  | [] => None
  | (k', o) :: rest => if String.eqb k k' then Some o else lookup_object k rest
  end.

Fixpoint insert_object (k : string) (o : Object) (objs : list (string * Object))
    : list (string * Object) :=
  match objs with
  | [] => [(k, o)]
  | (k', o') :: rest =>
      if String.eqb k k' then (k, o) :: rest
      else if String.ltb k k' then (k, o) :: (k', o') :: rest
      else (k', o') :: insert_object k o rest
  end.

Definition remove_object (k : string) (objs : list (string * Object)) : list (string * Object) :=
  filter (fun ko => ko.1 ≠ k) objs.

(** *** XML text *)

Fixpoint xml_escape (s : string) : string :=
  match s with
  | EmptyString => EmptyString
  | String c s' =>
      (if Ascii.eqb c "&" then "&amp;"
       else if Ascii.eqb c "<" then "&lt;"
       else if Ascii.eqb c ">" then "&gt;"
       else if Ascii.eqb c (ascii_of_nat 34) then "&quot;"
       else String c EmptyString) +:+ xml_escape s'
  end.

Fixpoint xml_unescape_from (skip : nat) (s : string) : string :=
  match s with
  | EmptyString => EmptyString
  | String c s' =>
      match skip with
      | S k => xml_unescape_from k s'
      | O =>
          if Js.startsWith s "&amp;" then String "&" (xml_unescape_from 4 s')
          else if Js.startsWith s "&lt;" then String "<" (xml_unescape_from 3 s')
          else if Js.startsWith s "&gt;" then String ">" (xml_unescape_from 3 s')
          else if Js.startsWith s "&quot;" then String (ascii_of_nat 34) (xml_unescape_from 5 s')
          else String c (xml_unescape_from 0 s')
      end
  end.

Definition xml_unescape (s : string) : string := xml_unescape_from 0 s.

(** Markup as a sequence of tags and text between them. *)
Inductive Token : Type :=
| Tag (name : string)
| Text (text : string).

Definition token_text (t : Token) : string :=
  match t with
  | Tag name => "<" +:+ name +:+ ">"
  | Text text => text
  end.

Fixpoint flatten (ts : list Token) : string :=
  match ts with
  | [] => EmptyString
  | t :: ts' => token_text t +:+ flatten ts'
  end.

Definition element (name text : string) : list Token :=
  [Tag name; Text text; Tag ("/" +:+ name)].

(** An entry of a listing: an object, or the common prefix that stands
    for all keys that continue past the delimiter. *)
Inductive Entry : Type :=
| Content (k : string) (o : Object)
| CommonPrefix (p : string).

Definition marker (e : Entry) : string :=
  match e with
  | Content k _ => k
  | CommonPrefix p => p
  end.

Definition etag_of (o : Object) : string :=
  Js.DQ +:+ "h" +:+ pretty (Z.of_nat (String.length (data o))) +:+ Js.DQ.

Definition entry_tokens (e : Entry) : list Token :=
  match e with
  | Content k o =>
      [Tag "Contents"]
      ++ element "Key" (xml_escape k)
      ++ element "LastModified" (iso_date (modified o))
      ++ element "ETag" (xml_escape (etag_of o))
      ++ element "Size" (pretty (Z.of_nat (String.length (data o))))
      ++ element "StorageClass" "STANDARD"
      ++ [Tag "/Contents"]
  | CommonPrefix p =>
      [Tag "CommonPrefixes"] ++ element "Prefix" (xml_escape p) ++ [Tag "/CommonPrefixes"]
  end.

(** The entry a key contributes to the listing of [prefix]. *)
Definition entry_of (prefix : string) (delimiter : option string) (ko : string * Object)
    : option Entry :=
  if Js.startsWith ko.1 prefix then
    let rest := Js.drop (String.length prefix) ko.1 in
    match delimiter ≫= (fun d => if Js.truthy d then Js.cut d rest else None) with
    | Some (before, _) => Some (CommonPrefix (prefix +:+ before +:+ default "" delimiter))
    | None => Some (Content ko.1 ko.2)
    end
  else None.

(** Runs of keys under one common prefix give one entry. *)
Fixpoint merge_prefixes (es : list Entry) : list Entry :=
  match es with
  | CommonPrefix p :: rest =>
      CommonPrefix p
      :: match merge_prefixes rest with
         | CommonPrefix q :: rest' =>
             if String.eqb p q then rest' else CommonPrefix q :: rest'
         | other => other
         end
  | e :: rest => e :: merge_prefixes rest
  | [] => []
  end.

Definition entries (objs : list (string * Object)) (prefix : string) (delimiter : option string)
    : list Entry :=
  merge_prefixes (omap (entry_of prefix delimiter) objs).

(** The entries after the continuation token, which is the marker of the
    last entry of the page before. *)
Definition entries_after (token : option string) (es : list Entry) : list Entry :=
  match token with
  | Some t => filter (fun e => String.ltb t (marker e) = true) es
  | None => es
  end.

(** A page of a listing: its entries, and the continuation token when
    the listing is truncated after them. *)
Definition page_tokens (bucket prefix : string) (delimiter : option string) (max_keys : nat)
    (page : list Entry) (next : option string) : list Token :=
  [Tag ("?xml version=" +:+ Js.DQ +:+ "1.0" +:+ Js.DQ +:+ " encoding=" +:+ Js.DQ +:+ "UTF-8"
        +:+ Js.DQ +:+ "?");
   Text Js.LF;
   Tag "ListBucketResult"]
  ++ element "Name" (xml_escape bucket)
  ++ element "Prefix" (xml_escape prefix)
  ++ element "KeyCount" (pretty (Z.of_nat (length page)))
  ++ element "MaxKeys" (pretty (Z.of_nat max_keys))
  ++ match delimiter with
     | Some d => element "Delimiter" (xml_escape d)
     | None => []
     end
  ++ element "IsTruncated" (match next with Some _ => "true" | None => "false" end)
  ++ concat (entry_tokens <$> page)
  ++ match next with
     | Some token => element "NextContinuationToken" (xml_escape token)
     | None => []
     end
  ++ [Tag "/ListBucketResult"].

Definition render_page (bucket prefix : string) (delimiter : option string) (max_keys : nat)
    (page : list Entry) (next : option string) : string :=
  flatten (page_tokens bucket prefix delimiter max_keys page next).

(** The first page of the entries that remain: at most [max_keys] of
    them, and the marker of the last one as the token when more follow. *)
Definition first_page (max_keys : nat) (remaining : list Entry)
    : list Entry * option string :=
  let page := take max_keys remaining in
  (page, if bool_decide (drop max_keys remaining ≠ []) then marker <$> last page else None).

(** *** Answering a call *)

Definition respond (status : Z) (headers : Headers) (body : string) : FetchOutcome :=
  Resolved (Response.mk (Some body) status "" headers).

(** The keys named in the body of a batch delete. *)
Fixpoint keys_of_delete (fuel : nat) (xml : string) : list string :=
  match fuel with
  | O => []
  | S fuel' =>
      match Js.exec true "<Key>" "</Key>" xml with
      | Some (k, rest) => xml_unescape k :: keys_of_delete fuel' rest
      | None => []
      end
  end.

Definition head_headers (o : Object) : Headers :=
  [("content-length", pretty (Z.of_nat (String.length (data o))));
   ("last-modified", http_date (modified o));
   ("etag", etag_of o)]
  ++ stored_headers o.

Definition store (b : Bucket) (objs : list (string * Object)) : Bucket :=
  {| objects := objs; clock := clock b + 1000; max_keys := max_keys b; fault := fault b |}.

Definition fetch (env : Env) (bucket : string) (call : Request.t) (b : Bucket)
    : FetchOutcome * Bucket :=
  if fault b call then (respond 500 [] "InternalError", b)
  else
    match parse_url env bucket (Request.url call) with
    | None => (Rejected "fetch failed", b)
    | Some (None, params) =>
        let method := Request.method call in
        if String.eqb method "GET" then
          let prefix := default "" (lookup_param "prefix" params) in
          let delimiter := lookup_param "delimiter" params in
          let token := lookup_param "continuation-token" params in
          let remaining := entries_after token (entries (objects b) prefix delimiter) in
          let '(page, next) := first_page (max_keys b) remaining in
          (respond 200 [("content-type", "application/xml")]
             (render_page bucket prefix delimiter (max_keys b) page next), b)
        else if String.eqb method "POST" && bool_decide (lookup_param "delete" params ≠ None) then
          let body := default "" (Request.body call) in
          let keys := keys_of_delete (String.length body) body in
          (respond 200 [] "<DeleteResult></DeleteResult>",
           store b (foldr remove_object (objects b) keys))
        else (respond 200 [] "", b)
    | Some (Some k, _) =>
        let method := Request.method call in
        if String.eqb method "HEAD" then
          match lookup_object k (objects b) with
          | Some o => (respond 200 (head_headers o) "", b)
          | None => (respond 404 [] "", b)
          end
        else if String.eqb method "GET" then
          match lookup_object k (objects b) with
          | Some o => (respond 200 (head_headers o) (data o), b)
          | None => (respond 404 [] "NoSuchKey", b)
          end
        else if String.eqb method "PUT" then
          match Headers_get (Request.headers call) "x-amz-copy-source" with
          | Some source =>
              match lookup_object (Js.drop (String.length bucket + 1) source) (objects b) with
              | Some o =>
                  (respond 200 [] "<CopyObjectResult></CopyObjectResult>",
                   store b (insert_object k
                              {| data := data o; stored_headers := stored_headers o;
                                 modified := clock b |}
                              (objects b)))
              | None => (respond 404 [] "NoSuchKey", b)
              end
          | None =>
              (respond 200 [] "",
               store b (insert_object k
                          {| data := default "" (Request.body call);
                             stored_headers :=
                               (fun kv => (toLowerCase kv.1, kv.2)) <$> Request.headers call;
                             modified := clock b |}
                          (objects b)))
          end
        else if String.eqb method "DELETE" then
          (respond 204 [] "", store b (remove_object k (objects b)))
        else (respond 405 [] "MethodNotAllowed", b)
    end.

End S3.

(** ** Markup read as tokens

    The notions in which the properties of the regular expressions are
    stated. *)

Module Markup.

(** The record that [parseXmlToObjects] reads off the entry of an object
    in a page of the reference store. *)
Definition listed_object `{Runtime} (k : string) (o : S3.Object) : S3Object :=
  {| key := S3.xml_escape k;
     size := Js.parseInt (pretty (Z.of_nat (String.length (S3.data o))));
     lastModified := Date_parse (S3.iso_date (S3.modified o));
     etag := Js.remove_char (ascii_of_nat 34) (S3.xml_escape (S3.etag_of o));
     contentType := None;
     contentDisposition := None;
     contentLanguage := None;
     contentEncoding := None;
     cacheControl := None;
     metadata := Some ∅ |}.

Definition listed_objects `{Runtime} (page : list S3.Entry) : list S3Object :=
  omap (fun e => match e with
                 | S3.Content k o => Some (listed_object k o)
                 | S3.CommonPrefix _ => None
                 end) page.

(** The keys of the objects of a page. *)
Definition content_keys (page : list S3.Entry) : list string :=
  omap (fun e => match e with
                 | S3.Content k _ => Some k
                 | S3.CommonPrefix _ => None
                 end) page.

(** Text that stands for itself in markup and stays on one line: none of
    the characters that markup escapes, no line terminator. *)
Fixpoint plain (s : string) : bool :=
  match s with
  | EmptyString => true
  | String c s' =>
      negb (charIn c ("&<>" +:+ Js.DQ)) && negb (Js.isLineTerminator c) && plain s'
  end.

Definition token_ok (t : S3.Token) : bool :=
  match t with
  | S3.Tag name => negb (charIn "<" name) && negb (charIn ">" name)
  | S3.Text text => negb (charIn "<" text)
  end.

(** The tokens before and after the first tag called [name]. *)
Fixpoint split_at_tag (name : string) (ts : list S3.Token)
    : option (list S3.Token * list S3.Token) :=
  match ts with
  | [] => None
  | t :: ts' =>
      let here :=
        match t with
        | S3.Tag n => String.eqb n name
        | S3.Text _ => false
        end in
      if here then Some ([], ts')
      else match split_at_tag name ts' with
           | Some (before, after) => Some (t :: before, after)
           | None => None
           end
  end.

(** The fields of an object entry, between its [Contents] tags. *)
Definition content_fields (k : string) (o : S3.Object) : list S3.Token :=
  S3.element "Key" (S3.xml_escape k)
  ++ S3.element "LastModified" (S3.iso_date (S3.modified o))
  ++ S3.element "ETag" (S3.xml_escape (S3.etag_of o))
  ++ S3.element "Size" (pretty (Z.of_nat (String.length (S3.data o))))
  ++ S3.element "StorageClass" "STANDARD".

(** The text of a tag. *)
Definition tag (name : string) : string := S3.token_text (S3.Tag name).

End Markup.

(** ** Notions used in the statements *)

(** The state a handler starts from. *)
Definition initial {World} (w : World) : State World := {| world := w; trace := [] |}.

(** The calls that the handlers make. *)
Definition head_call (env : Env) (bucket k : string) : Request.t :=
  Request.mk (getS3Url env bucket (Some (encodeURIComponent k)) None) "HEAD" [] None.

Definition list_call (env : Env) (bucket prefix : string) (isRecursive : bool)
    (token : option string) : Request.t :=
  Request.mk (listAll_url env bucket prefix isRecursive token) "GET" [] None.

Definition put_call (env : Env) (bucket k : string) (headers : Headers) (body : string)
    : Request.t :=
  Request.mk (getS3Url env bucket (Some (encodeURIComponent k)) None) "PUT" headers (Some body).

Definition copy_call (env : Env) (bucket target source : string) : Request.t :=
  Request.mk (getS3Url env bucket (Some (encodeURIComponent target)) None) "PUT"
    [("x-amz-copy-source", bucket +:+ "/" +:+ source)] None.

Definition delete_call (env : Env) (bucket k : string) : Request.t :=
  Request.mk (getS3Url env bucket (Some (encodeURIComponent k)) None) "DELETE" [] None.

(** A call that only reads. *)
Definition is_read (call : Request.t) : bool :=
  String.eqb (Request.method call) "HEAD" || String.eqb (Request.method call) "GET".

(** A page of a listing: its entries, and the token under which the
    store continues when the page is truncated. *)
Definition Page : Type := list S3.Entry * option string.

(** The store answers the calls of a script one after the other with the
    outcomes that the script names, and is left in the state [w_end]. *)
Fixpoint answers {World} (fetch : Request.t -> World -> FetchOutcome * World)
    (script : list (Request.t * FetchOutcome)) (w w_end : World) : Prop :=
  match script with
  | [] => w_end = w
  | (call, outcome) :: rest =>
      ∃ w', fetch call w = (outcome, w') ∧ answers fetch rest w' w_end
  end.

#[global] Instance Request_eq_dec : EqDecision Request.t.
Proof. solve_decision. Defined.

#[global] Instance Response_eq_dec : EqDecision Response.t.
Proof. solve_decision. Defined.

#[global] Instance FetchOutcome_eq_dec : EqDecision FetchOutcome.
Proof. solve_decision. Defined.

(** The state in which a store is left when it answers a script, checked
    by running the store. *)
Fixpoint follows {World} (fetch : Request.t -> World -> FetchOutcome * World)
    (script : list (Request.t * FetchOutcome)) (w : World) : option World :=
  match script with
  | [] => Some w
  | (call, outcome) :: rest =>
      if bool_decide ((fetch call w).1 = outcome) then follows fetch rest (fetch call w).2
      else None
  end.

(** Against any store that answers the script, the computation makes
    exactly the calls of the script, in its order, and ends with the given
    result. *)
Definition runs {World A} (fetch : Request.t -> World -> FetchOutcome * World)
    (m : M World A) (script : list (Request.t * FetchOutcome)) (result : Result A) : Prop :=
  ∀ (w : World) (tr : list Request.t) (w_end : World),
    answers fetch script w w_end →
    m {| world := w; trace := tr |} = (result, {| world := w_end; trace := tr ++ script.*1 |}).

(** What a store says about a key when it is asked for its head: the key
    is missing when the status is 404 or the call fails, present when the
    status is a success. *)
Definition missing (outcome : FetchOutcome) : bool :=
  match outcome with
  | Resolved response => Response.status response =? 404
  | Rejected _ => true
  end.

Definition present (outcome : FetchOutcome) : bool :=
  match outcome with
  | Resolved response => Response.ok response
  | Rejected _ => false
  end.

(** The head of a key is answered with a status other than 404. *)
Definition found (outcome : FetchOutcome) : bool :=
  match outcome with
  | Resolved response => negb (Response.status response =? 404)
  | Rejected _ => false
  end.

(** The head of a key names it a collection. *)
Definition marked_collection (outcome : FetchOutcome) : bool :=
  match outcome with
  | Resolved response =>
      bool_decide (Headers_get (Response.headers response) "x-amz-meta-resourcetype"
                   = Some COLLECTION)
  | Rejected _ => false
  end.

(** The result of awaiting a call with the given outcome. *)
Definition awaited (outcome : FetchOutcome) : Result Response.t :=
  match outcome with
  | Resolved response => Value response
  | Rejected message => Throw message
  end.

(** The call with which COPY and MOVE check the parent of a destination,
    none for a destination at the top. *)
Definition parent_script (env : Env) (bucket destination : string) (outcome : FetchOutcome)
    : list (Request.t * FetchOutcome) :=
  if bool_decide (destination_parent_of destination ≠ "") then
    [(head_call env bucket (destination_parent_of destination), outcome)]
  else [].

(** The same for the parent of the target of PUT. *)
Definition dirname_script (env : Env) (bucket resource_path : string) (outcome : FetchOutcome)
    : list (Request.t * FetchOutcome) :=
  if bool_decide (dirname_of resource_path ≠ "") then
    [(head_call env bucket (dirname_of resource_path), outcome)]
  else [].

(** The request with one more header. *)
Definition with_header (request : Request.t) (name value : string) : Request.t :=
  Request.mk (Request.url request) (Request.method request)
    (Request.headers request ++ [(name, value)]) (Request.body request).

(** The body of a multistatus answer: the element of the resource itself
    and the elements of the listed objects, in order. *)
Definition multistatus `{Runtime} (self : option S3Object) (listed : list S3Object) : string :=
  multistatus_open +:+ generate_propfind_response self
  +:+ String.concat "" ((λ o, generate_propfind_response (Some o)) <$> listed)
  +:+ multistatus_close.

Definition multistatus_response `{Runtime} (self : option S3Object) (listed : list S3Object)
    : Response.t :=
  new_Response_with (Some (multistatus self listed)) 207 [("Content-Type", "text/xml")].


(** The checks of MOVE up to the head of the source. *)
Definition move_checks (env : Env) (bucket resource_path destination : string)
    (parent_outcome destination_outcome : FetchOutcome) (source : Response.t)
    : list (Request.t * FetchOutcome) :=
  parent_script env bucket destination parent_outcome
  ++ [(head_call env bucket destination, destination_outcome);
      (head_call env bucket resource_path, Resolved source)].

(** A store on which asking for the head of a key changes nothing. *)
Definition head_is_pure {World} (fetch : Request.t -> World -> FetchOutcome * World) : Prop :=
  ∀ (call : Request.t) (w : World), Request.method call = "HEAD" → (fetch call w).2 = w.

(** The destination of a COPY or MOVE request. *)
Definition destination_key (request : Request.t) : option string :=
  Headers_get (Request.headers request) "Destination" ≫= resource_path_of.

(** The response that carries a page of a listing. *)
Definition listing_response (xml : string) : Response.t :=
  Response.mk (Some xml) 200 "" [("content-type", "application/xml")].

(** The calls of a listing that is answered with the given pages, from
    [token] on: each page is asked for with the token that the page before
    named, and the calls that the consumer makes for an object follow the
    page on which the object is listed. *)
Fixpoint listing_script `{Runtime} (env : Env) (bucket prefix : string) (isRecursive : bool)
    (max_keys : nat) (per_object : S3Object -> list (Request.t * FetchOutcome))
    (token : option string) (pages : list Page) : list (Request.t * FetchOutcome) :=
  match pages with
  | [] => []
  | (entries, next) :: rest =>
      (list_call env bucket prefix isRecursive token,
       Resolved (listing_response
                   (S3.render_page bucket prefix (if isRecursive then None else Some "/")
                      max_keys entries next)))
      :: concat (per_object <$> Markup.listed_objects entries)
      ++ listing_script env bucket prefix isRecursive max_keys per_object next rest
  end.

(** The calls of a listing whose consumer makes no call of its own. *)
Fixpoint page_script (env : Env) (bucket prefix : string) (isRecursive : bool)
    (max_keys : nat) (token : option string) (pages : list Page)
    : list (Request.t * FetchOutcome) :=
  match pages with
  | [] => []
  | (entries, next) :: rest =>
      (list_call env bucket prefix isRecursive token,
       Resolved (listing_response
                   (S3.render_page bucket prefix (if isRecursive then None else Some "/")
                      max_keys entries next)))
      :: page_script env bucket prefix isRecursive max_keys next rest
  end.

(** Every page but the last is truncated and names a token; the last one
    is not truncated. *)
Fixpoint chained (pages : list Page) : bool :=
  match pages with
  | [] => false
  | [(_, next)] => bool_decide (next = None)
  | (_, next) :: rest =>
      match next with
      | Some t => Js.truthy t && chained rest
      | None => false
      end
  end.

(** The keys and the tokens of the pages are plain text. *)
Definition plain_page (p : Page) : bool :=
  forallb Markup.plain (Markup.content_keys p.1)
  && match p.2 with
     | Some t => Markup.plain t
     | None => true
     end.

(** ** A bucket to run the handlers on *)

Module Example.

Definition env : Env := {|
  S3_ACCESS_KEY_ID := "id";
  S3_SECRET_ACCESS_KEY := "secret";
  S3_REGION := "auto";
  S3_BUCKET := "dav";
  S3_ENDPOINT := Some "https://s3.example.com";
  USERNAME := "user";
  PASSWORD := "password";
|}.

Definition bucket : string := "dav".

Definition rt : Runtime := S3.runtime 1793648880000.

Definition store : Request.t -> S3.Bucket -> FetchOutcome * S3.Bucket := S3.fetch env bucket.

(** An empty bucket whose listings have pages of two entries. *)
Definition empty : S3.Bucket := {|
  S3.objects := [];
  S3.clock := 1793648880000;
  S3.max_keys := 2;
  S3.fault := fun _ => false;
|}.

Definition request (method url : string) (headers : Headers) (body : string) : Request.t :=
  Request.mk url method headers (Some body).

(** The bucket after a handler has served a request. *)
Definition after (handler : Request.t -> Env -> string -> M S3.Bucket Response.t)
    (r : Request.t) (b : S3.Bucket) : S3.Bucket :=
  world (handler r env bucket (initial b)).2.

Definition put := @handle_put S3.Bucket store.
Definition mkcol := @handle_mkcol S3.Bucket store.
Definition delete := @handle_delete rt S3.Bucket store 8.
Definition propfind := @handle_propfind rt S3.Bucket store 8.
Definition copy := @handle_copy rt S3.Bucket store 8.
Definition move := @handle_move rt S3.Bucket store 8.

(** A collection [c] with a resource [c/a] and a collection [c/b] that has
    two members, and a resource [f] at the top, made by the gateway. *)
Definition tree : S3.Bucket :=
  after put (request "PUT" "http://dav.example.com/f" [("Content-Type", "text/plain")] "file")
    (after put (request "PUT" "http://dav.example.com/c/b/g2" [] "second")
       (after put (request "PUT" "http://dav.example.com/c/b/g1" [] "first")
          (after mkcol (request "MKCOL" "http://dav.example.com/c/b/" [] "")
             (after put (request "PUT" "http://dav.example.com/c/a" [] "hello")
                (after mkcol (request "MKCOL" "http://dav.example.com/c/" [] "") empty))))).


(** The same bucket on a store whose PUT calls fail. *)
Definition tree_no_put : S3.Bucket := {|
  S3.objects := S3.objects tree;
  S3.clock := S3.clock tree;
  S3.max_keys := S3.max_keys tree;
  S3.fault := fun call => String.eqb (Request.method call) "PUT";
|}.

Definition keys (b : S3.Bucket) : list string := (S3.objects b).*1.

(** The answer of the store to a call, in a given state. *)
Definition outcome (call : Request.t) (b : S3.Bucket) : FetchOutcome := (store call b).1.

Definition answer (call : Request.t) (b : S3.Bucket) : Response.t :=
  match outcome call b with
  | Resolved response => response
  | Rejected _ => new_Response None 0
  end.

(** The status of the response that a handler returns. *)
Definition status_of (run : Result Response.t * State S3.Bucket) : option Z :=
  match run.1 with
  | Value response => Some (Response.status response)
  | _ => None
  end.

(** The body of the response that a handler returns. *)
Definition body_of (run : Result Response.t * State S3.Bucket) : option string :=
  match run.1 with
  | Value response => Response.body response
  | _ => None
  end.

(** The pages of a listing of a bucket. *)
Definition pages_of (b : S3.Bucket) (prefix : string) (delimiter : option string)
    (tokens : list (option string)) : list Page :=
  (fun token =>
     S3.first_page (S3.max_keys b)
       (S3.entries_after token (S3.entries (S3.objects b) prefix delimiter))) <$> tokens.

(** The marker object of a collection, as MKCOL writes it. *)
Definition collection_object (modified : Z) : S3.Object := {|
  S3.data := "";
  S3.stored_headers := [("x-amz-meta-resourcetype", COLLECTION)];
  S3.modified := modified;
|}.

(** A bucket that holds a collection [c] with a resource [c/a] and a
    collection [c/b], and under [c/b] members of any names, in any number;
    a name may contain slashes, and so stand for a member further down. *)
Definition family (a_object : S3.Object) (modified_c modified_b : Z)
    (members : list (string * S3.Object)) : S3.Bucket := {|
  S3.objects :=
    ("c", collection_object modified_c)
    :: ("c/a", a_object)
    :: ("c/b", collection_object modified_b)
    :: ((fun member => ("c/b/" +:+ member.1, member.2)) <$> members);
  S3.clock := 1793648880000;
  S3.max_keys := 1000;
  S3.fault := fun _ => false;
|}.

(** The bucket [tree] with a key [x/y] whose parent is gone: [x] is put,
    [x/y] is made a collection under it, and [x] is deleted. *)
Definition tree_with_orphan : S3.Bucket :=
  after delete (request "DELETE" "http://dav.example.com/x" [] "")
    (after mkcol (request "MKCOL" "http://dav.example.com/x/y" [] "")
       (after put (request "PUT" "http://dav.example.com/x" [] "data") tree)).

End Example.

(** ** The rest of the gateway

    The handlers of GET, HEAD and PROPPATCH, the dispatch on the method
    and the entry point of the worker with its check of credentials. *)

(** *** Credentials *)

Module Web.

Definition base64_alphabet : string :=
  "ABCDEFGHIJKLMNOPQRSTUVWXYZabcdefghijklmnopqrstuvwxyz0123456789+/".

Definition base64_digit (i : N) : ascii :=
  match String.get (N.to_nat i) base64_alphabet with
  | Some c => c
  | None => "="%char
  end.

(** [btoa(s)]: every code unit of a string of the model is a byte, so the
    [InvalidCharacterError] of a code unit above 255 does not arise. *)
Fixpoint btoa (s : string) : string :=
  match s with
  | EmptyString => EmptyString
  | String a EmptyString =>
      let a := N_of_ascii a in
      String (base64_digit (a / 4)) (String (base64_digit (a mod 4 * 16)) "==")
  | String a (String b EmptyString) =>
      let a := N_of_ascii a in
      let b := N_of_ascii b in
      String (base64_digit (a / 4))
        (String (base64_digit (a mod 4 * 16 + b / 16))
           (String (base64_digit (b mod 16 * 4)) "="))
  | String a (String b (String c rest)) =>
      let a := N_of_ascii a in
      let b := N_of_ascii b in
      let c := N_of_ascii c in
      String (base64_digit (a / 4))
        (String (base64_digit (a mod 4 * 16 + b / 16))
           (String (base64_digit (b mod 16 * 4 + c / 64))
              (String (base64_digit (c mod 64)) (btoa rest))))
  end%N.

(** The UTF-8 bytes of a code unit, which is a code point below 256. *)
Definition utf8 (c : ascii) : list N :=
  let n := N_of_ascii c in
  if (n <? 128)%N then [n] else [192 + n / 64; 128 + n mod 64]%N.

(** [new TextEncoder().encode(s)]. *)
Fixpoint TextEncoder_encode (s : string) : list N :=
  match s with
  | EmptyString => []
  | String c s' => utf8 c ++ TextEncoder_encode s'
  end.

(** [crypto.subtle.timingSafeEqual(a, b)] on buffers of one length. *)
Definition timingSafeEqual (a b : list N) : bool := bool_decide (a = b).

End Web.

Definition is_authorized (authorization_header username password : string) : bool :=
  let header := Web.TextEncoder_encode authorization_header in
  let expected :=
    Web.TextEncoder_encode ("Basic " +:+ Web.btoa (username +:+ ":" +:+ password)) in
  (length header =? length expected)%nat && Web.timingSafeEqual header expected.

(** *** Headers of a response *)

(** [headers.set(name, value)]: the header replaces every header of that
    name. *)
Definition Headers_set (h : Headers) (name value : string) : Headers :=
  filter (fun kv => String.eqb (toLowerCase kv.1) (toLowerCase name) = false) h
  ++ [(name, value)].

Definition Response_set (r : Response.t) (name value : string) : Response.t :=
  Response.mk (Response.body r) (Response.status r) (Response.statusText r)
    (Headers_set (Response.headers r) name value).

(** The names that [headers.entries()] goes through: in lower case, each
    once, in order. *)
Fixpoint insert_name (name : string) (names : list string) : list string :=
  match names with
  | [] => [name]
  | n :: rest =>
      if String.eqb name n then names
      else if String.ltb name n then name :: names
      else n :: insert_name name rest
  end.

(** [headers.entries()]. *)
Definition Headers_entries (h : Headers) : list (string * string) :=
  omap (fun name => (fun value => (name, value)) <$> Headers_get h name)
       (foldr insert_name [] ((fun kv => toLowerCase kv.1) <$> h)).

(** *** Objects used as records of strings *)

(** [record[key] = value]: the value of a key that is there is replaced
    where it stands, and a new key comes last. *)
Fixpoint record_set (record : list (string * string)) (key value : string)
    : list (string * string) :=
  match record with
  | [] => [(key, value)]
  | (k, v) :: rest =>
      if String.eqb k key then (k, value) :: rest else (k, v) :: record_set rest key value
  end.

(** [delete record[key]]. *)
Definition record_delete (record : list (string * string)) (key : string)
    : list (string * string) :=
  filter (fun kv => String.eqb kv.1 key = false) record.

(** *** The page of an index *)

Definition pageSource (page : string) : string :=
  "<!DOCTYPE html><html lang=" +:+ Js.DQ +:+ "en" +:+ Js.DQ +:+ "><head><meta charset="
  +:+ Js.DQ +:+ "UTF-8" +:+ Js.DQ +:+ "><meta name=" +:+ Js.DQ +:+ "viewport" +:+ Js.DQ
  +:+ " content=" +:+ Js.DQ +:+ "width=device-width,initial-scale=1.0" +:+ Js.DQ
  +:+ "><title>S3Storage</title><style>*{box-sizing:border-box;}body{padding:"
  +:+ "10px;font-family:'Segoe UI','Circular','Roboto','Lato','Helvetica Neue"
  +:+ "','Arial Rounded MT Bold','sans-serif';}a{display:inline-block;width:1"
  +:+ "00%;color:#000;text-decoration:none;padding:5px 10px;cursor:pointer;bo"
  +:+ "rder-radius:5px;}a:hover{background-color:#60C590;color:white;}a[href=" +:+ Js.DQ
  +:+ "../" +:+ Js.DQ
  +:+ "]{background-color:#cbd5e1;}</style></head><body><h1>S3 Storage</h1><d" +:+ "iv>"
  +:+ page +:+ "</div></body></html>".

(** The link to the parent that opens the index of a collection. *)
Definition parent_link : string :=
  "<a href=" +:+ Js.DQ +:+ "../" +:+ Js.DQ +:+ ">..</a><br>".

(** The link of an object in the index of [prefix]. *)
Definition index_link (prefix : string) (object : S3Object) : string :=
  let href := "/" +:+ key object +:+ (if isCollectionObject object then "/" else "") in
  "<a href=" +:+ Js.DQ +:+ href +:+ Js.DQ +:+ ">"
  +:+ default (Js.drop (String.length prefix) (key object)) (contentDisposition object)
  +:+ "</a><br>".

(** *** PROPPATCH answers *)

Definition proppatch_open : string :=
  "<?xml version=" +:+ Js.DQ +:+ "1.0" +:+ Js.DQ +:+ " encoding=" +:+ Js.DQ +:+ "utf-8" +:+ Js.DQ
  +:+ "?>" +:+ Js.LF +:+ "<multistatus xmlns=" +:+ Js.DQ +:+ "DAV:" +:+ Js.DQ +:+ ">" +:+ Js.LF.

Definition proppatch_response (resource_path propName : string) : string :=
  Js.LF +:+ "    <response>"
  +:+ Js.LF +:+ "        <href>/" +:+ resource_path +:+ "</href>"
  +:+ Js.LF +:+ "        <propstat>"
  +:+ Js.LF +:+ "            <prop>"
  +:+ Js.LF +:+ "                <" +:+ propName +:+ " />"
  +:+ Js.LF +:+ "            </prop>"
  +:+ Js.LF +:+ "            <status>HTTP/1.1 200 OK</status>"
  +:+ Js.LF +:+ "        </propstat>"
  +:+ Js.LF +:+ "    </response>" +:+ Js.LF.

Definition DAV_CLASS : string := "1, 3".

Definition SUPPORT_METHODS : list string :=
  ["OPTIONS"; "PROPFIND"; "PROPPATCH"; "MKCOL"; "GET"; "HEAD"; "PUT"; "DELETE"; "COPY"; "MOVE"].

Section Gateway.

Context `{Runtime}.
Context {World : Type}.
Variable fetch : Request.t -> World -> FetchOutcome * World.
Variable fuel : nat.

(** What the pass of the runtime's [HTMLRewriter] over the body of a
    PROPPATCH request leaves in the two collections of the handler: the
    entries of [setProperties] in the order of [for ... in], and
    [removeProperties].  The rewriter belongs to the runtime and decides
    which callbacks of the handler run. *)
Variable propertyupdate : string -> list (string * string) * list string.

(** The headers that GET hands on from the answer of the store. *)
Definition get_headers (from : Headers) (contentLength : nat) : Headers :=
  [("Content-Type", default "application/octet-stream" (Headers_get from "Content-Type"));
   ("Content-Length", pretty (Z.of_nat contentLength))]
  ++ omap (fun names : string * string =>
             (fun v => (names.1, v)) <$> Js.or_undefined (Headers_get from names.2))
          [("Content-Range", "Content-Range");
           ("Content-Disposition", "Content-Disposition");
           ("Content-Encoding", "Content-Encoding");
           ("Content-Language", "Content-Language");
           ("Cache-Control", "Cache-Control");
           ("Cache-Expiry", "Expires")].

(** The loop body of the index: the object of the collection itself is
    passed over. *)
Definition append_index_link (resource_path prefix page : string) (object : S3Object)
    : M World string :=
  if bool_decide (key object = resource_path) then ret page
  else ret (page +:+ index_link prefix object).

Definition handle_get (request : Request.t) (env : Env) (bucket : string)
    : M World Response.t :=
  resource_path <- make_resource_path request ;;
  if Js.endsWith (Request.url request) "/" then
    let page := if bool_decide (resource_path ≠ "") then parent_link else "" in
    let prefix := if bool_decide (resource_path ≠ "") then resource_path +:+ "/" else resource_path in
    page <- listAll fetch fuel env bucket prefix false (append_index_link resource_path prefix) page ;;
    ret (new_Response_with (Some (pageSource page)) 200
           [("Content-Type", "text/html; charset=utf-8")])
  else
    try_catch
      (let url := getS3Url env bucket (Some (encodeURIComponent resource_path)) None in
       let headers := copy_headers ["Range"] (Request.headers request) in
       response <- aws_fetch fetch url "GET" headers None ;;
       if Response.status response =? 404 then ret (new_Response (Some "Not Found") 404)
       else if negb (Response.ok response) then throw (S3_API_error response)
       else
         let body := default "" (Response.body response) in
         let contentLength := String.length body in
         ret (new_Response_with (Some body)
                (if Response.status response =? 206 then 206 else 200)
                (get_headers (Response.headers response) contentLength)))
      catch_404.

Definition handle_head (request : Request.t) (env : Env) (bucket : string)
    : M World Response.t :=
  response <- handle_get request env bucket ;;
  ret (Response.mk None (Response.status response) (Response.statusText response)
         (Response.headers response)).

(** The headers of the object that PROPPATCH writes back. *)
Definition proppatch_headers (head : Headers) (setProperties : list (string * string))
    (removeProperties : list string) : list (string * string) :=
  let headers := copy_headers content_headers head in
  let headers :=
    foldl (fun headers kv =>
             if Js.startsWith kv.1 "x-amz-meta-" then record_set headers kv.1 kv.2 else headers)
          headers (Headers_entries head) in
  let headers :=
    foldl (fun headers kv => record_set headers ("x-amz-meta-" +:+ kv.1) kv.2)
          headers setProperties in
  foldl (fun headers propName => record_delete headers ("x-amz-meta-" +:+ propName))
        headers removeProperties.

Definition handle_proppatch (request : Request.t) (env : Env) (bucket : string)
    : M World Response.t :=
  resource_path <- make_resource_path request ;;
  try_catch
    (let headUrl := getS3Url env bucket (Some (encodeURIComponent resource_path)) None in
     headResponse <- aws_fetch fetch headUrl "HEAD" [] None ;;
     if Response.status headResponse =? 404 then ret (new_Response (Some "Not Found") 404)
     else
       let body := default "" (Request.body request) in
       let '(setProperties, removeProperties) := propertyupdate body in
       let getUrl := getS3Url env bucket (Some (encodeURIComponent resource_path)) None in
       getResponse <- aws_fetch fetch getUrl "GET" [] None ;;
       if negb (Response.ok getResponse) then ret (new_Response (Some "Not Found") 404)
       else
         let objectBody := default "" (Response.body getResponse) in
         let headers :=
           proppatch_headers (Response.headers headResponse) setProperties removeProperties in
         let putUrl := getS3Url env bucket (Some (encodeURIComponent resource_path)) None in
         putResponse <- aws_fetch fetch putUrl "PUT" headers (Some objectBody) ;;
         if negb (Response.ok putResponse) then throw (S3_API_error putResponse)
         else
           let responseXML :=
             proppatch_open
             +:+ String.concat "" (proppatch_response resource_path <$> setProperties.*1)
             +:+ String.concat "" (proppatch_response resource_path <$> removeProperties)
             +:+ "</multistatus>" in
           ret (new_Response_with (Some responseXML) 207
                  [("Content-Type",
                    "application/xml; charset=" +:+ Js.DQ +:+ "utf-8" +:+ Js.DQ)]))
    catch_404.

(** The answer to OPTIONS and to a method that is not supported. *)
Definition allow_headers : Headers :=
  [("Allow", Js.join ", " SUPPORT_METHODS); ("DAV", DAV_CLASS)].

Definition dispatch_handler (request : Request.t) (env : Env) (bucket : string)
    : M World Response.t :=
  let method := Request.method request in
  if String.eqb method "OPTIONS" then ret (new_Response_with None 204 allow_headers)
  else if String.eqb method "HEAD" then handle_head request env bucket
  else if String.eqb method "GET" then handle_get request env bucket
  else if String.eqb method "PUT" then handle_put fetch request env bucket
  else if String.eqb method "DELETE" then handle_delete fetch fuel request env bucket
  else if String.eqb method "MKCOL" then handle_mkcol fetch request env bucket
  else if String.eqb method "PROPFIND" then handle_propfind fetch fuel request env bucket
  else if String.eqb method "PROPPATCH" then handle_proppatch request env bucket
  else if String.eqb method "COPY" then handle_copy fetch fuel request env bucket
  else if String.eqb method "MOVE" then handle_move fetch fuel request env bucket
  else ret (new_Response_with (Some "Method Not Allowed") 405 allow_headers).

(** The headers that the entry point sets on every answer of a handler. *)
Definition cors_headers (request : Request.t) : list (string * string) :=
  [("Access-Control-Allow-Origin", default "*" (Headers_get (Request.headers request) "Origin"));
   ("Access-Control-Allow-Methods", Js.join ", " SUPPORT_METHODS);
   ("Access-Control-Allow-Headers",
    Js.join ", " ["authorization"; "content-type"; "depth"; "overwrite"; "destination"; "range"]);
   ("Access-Control-Expose-Headers",
    Js.join ", " ["content-type"; "content-length"; "dav"; "etag"; "last-modified"; "location";
                  "date"; "content-range"]);
   ("Access-Control-Allow-Credentials", "false");
   ("Access-Control-Max-Age", "86400")].

(** The [fetch] method of the worker: the entry point. *)
Definition worker_fetch (request : Request.t) (env : Env) : M World Response.t :=
  let bucket := S3_BUCKET env in
  if negb (String.eqb (Request.method request) "OPTIONS")
     && negb (is_authorized (default "" (Headers_get (Request.headers request) "Authorization"))
                (USERNAME env) (PASSWORD env))
  then
    ret (new_Response_with (Some "Unauthorized") 401
           [("WWW-Authenticate", "Basic realm=" +:+ Js.DQ +:+ "webdav" +:+ Js.DQ)])
  else
    response <- dispatch_handler request env bucket ;;
    ret (foldl (fun response kv => Response_set response kv.1 kv.2) response
           (cors_headers request)).

End Gateway.

(** ** Notions used in the further statements *)

Definition get_call (env : Env) (bucket k : string) (headers : Headers) : Request.t :=
  Request.mk (getS3Url env bucket (Some (encodeURIComponent k)) None) "GET" headers None.

(** The batch delete that names the keys. *)
Definition batch_call (env : Env) (bucket : string) (keys : list string) : Request.t :=
  Request.mk (getS3Url env bucket None (Some "delete")) "POST"
    [("Content-Type", "application/xml")] (Some (deleteXml keys)).

(** The write of the marker object of a collection. *)
Definition mkcol_call (env : Env) (bucket k : string) (headers : Headers) : Request.t :=
  Request.mk (getS3Url env bucket (Some (encodeURIComponent k)) None) "PUT"
    ([("x-amz-meta-resourcetype", COLLECTION)] ++ headers) (Some "").

Definition not_found : Response.t := new_Response (Some "Not Found") 404.

(** What a handler makes of an error that it catches: the answer 404 when
    the message mentions 404, and the error itself otherwise. *)
Definition caught (message : string) : Result Response.t :=
  if Js.includes message "404" then Value not_found else Throw message.

(** The answer of GET to the answer of the store for an object. *)
Definition served (response : Response.t) : Response.t :=
  let body := default "" (Response.body response) in
  new_Response_with (Some body) (if Response.status response =? 206 then 206 else 200)
    (get_headers (Response.headers response) (String.length body)).

(** The link of a listed key in the index of [prefix]. *)
Definition key_link (prefix k : string) : string :=
  "<a href=" +:+ Js.DQ +:+ "/" +:+ k +:+ Js.DQ +:+ ">"
  +:+ Js.drop (String.length prefix) k +:+ "</a><br>".

(** The index of a collection: the link to the parent unless the
    collection is the root, and the links of the keys. *)
Definition index_response (resource_path prefix : string) (keys : list string) : Response.t :=
  new_Response_with
    (Some (pageSource ((if bool_decide (resource_path ≠ "") then parent_link else "")
                       +:+ String.concat "" (key_link prefix <$> keys))))
    200 [("Content-Type", "text/html; charset=utf-8")].

(** The batch delete of the keys with its answer, and no call when there
    is no key. *)
Definition batch_script (env : Env) (bucket : string) (keys : list string)
    (outcome : FetchOutcome) : list (Request.t * FetchOutcome) :=
  if bool_decide (keys ≠ []) then [(batch_call env bucket keys, outcome)] else [].

(** The keys that the pages of a listing name. *)
Definition keys_of (pages : list Page) : list string :=
  concat ((fun p : Page => Markup.content_keys p.1) <$> pages).

(** The call of the copy of one descendant of a collection to its target,
    with its answer. *)
Definition copy_script (env : Env) (bucket destination prefix : string)
    (copied : S3Object -> Response.t) (o : S3Object) : list (Request.t * FetchOutcome) :=
  [(copy_call env bucket (target_of destination prefix (key o)) (key o), Resolved (copied o))].

(** The answer of PROPPATCH that names the properties set and removed. *)
Definition proppatch_answer (resource_path : string) (setProperties : list (string * string))
    (removeProperties : list string) : Response.t :=
  new_Response_with
    (Some (proppatch_open
           +:+ String.concat "" (proppatch_response resource_path <$> setProperties.*1)
           +:+ String.concat "" (proppatch_response resource_path <$> removeProperties)
           +:+ "</multistatus>"))
    207 [("Content-Type", "application/xml; charset=" +:+ Js.DQ +:+ "utf-8" +:+ Js.DQ)].

(** A page that is truncated and names a token with which to go on. *)
Definition continued (p : Page) : bool :=
  match p.2 with
  | Some t => Js.truthy t
  | None => false
  end.

(** The token with which the page after [pages] is asked for, when the
    first of them is asked for with [token]. *)
Definition token_after (token : option string) (pages : list Page) : option string :=
  foldl (fun _ p => p.2) token pages.

(** The names of headers under which [Headers_get] finds the header
    [name]. *)
Definition named (name k : string) : Prop :=
  String.eqb (toLowerCase k) (toLowerCase name) = true.

Definition named_dec (name k : string) : Decision (named name k) :=
  decide_rel eq (String.eqb (toLowerCase k) (toLowerCase name)) true.

(** ** The rest of the gateway on the bucket *)

Module Site.

(** A pass of the rewriter that leaves the property [author] to set, with
    the body of the request as its value, and the property [draft] to
    remove. *)
Definition update (body : string) : list (string * string) * list string :=
  ([("author", body)], ["draft"]).

Definition get := @handle_get Example.rt S3.Bucket Example.store 8.
Definition head := @handle_head Example.rt S3.Bucket Example.store 8.
Definition proppatch := @handle_proppatch S3.Bucket Example.store update.
Definition worker := @worker_fetch Example.rt S3.Bucket Example.store 8 update.

(** The credentials of [Example.env]. *)
Definition authorization : string := "Basic " +:+ Web.btoa "user:password".

(** A store that answers the first page of a listing and refuses the
    pages after it. *)
Definition one_page : S3.Bucket := {|
  S3.objects := S3.objects Example.tree;
  S3.clock := S3.clock Example.tree;
  S3.max_keys := S3.max_keys Example.tree;
  S3.fault := fun call => Js.includes (Request.url call) "continuation-token";
|}.

End Site.

(** * Properties *)

Import Markup.

(** ** Strings *)

Local Arguments Ascii.eqb : simpl never.
Local Arguments String.eqb : simpl nomatch.

Lemma str_app_cons (c : ascii) (s t : string) : String c s +:+ t = String c (s +:+ t).
Proof. reflexivity. Qed.

Lemma str_app_nil_l (s : string) : "" +:+ s = s.
Proof. reflexivity. Qed.

Lemma str_app_nil_r (s : string) : s +:+ "" = s.
Proof. induction s as [|c s IH]; [reflexivity|]. by rewrite str_app_cons, IH. Qed.

Lemma str_app_assoc (s t u : string) : (s +:+ t) +:+ u = s +:+ t +:+ u.
Proof. induction s as [|c s IH]; [reflexivity|]. by rewrite !str_app_cons, IH. Qed.

Lemma str_length_app (s t : string) :
  String.length (s +:+ t) = (String.length s + String.length t)%nat.
Proof. induction s as [|c s IH]; [reflexivity|]. rewrite str_app_cons. simpl. by rewrite IH. Qed.

Lemma startsWith_app (p s : string) : Js.startsWith (p +:+ s) p = true.
Proof.
  induction p as [|c p IH]; [reflexivity|].
  rewrite str_app_cons. simpl. by rewrite Ascii.eqb_refl, IH.
Qed.

Lemma drop_app (p s : string) : Js.drop (String.length p) (p +:+ s) = s.
Proof. induction p as [|c p IH]; [by destruct s|]. by rewrite str_app_cons. Qed.

Lemma drop_length (n : nat) (s : string) : (String.length (Js.drop n s) <= String.length s)%nat.
Proof.
  revert s. induction n as [|n IH]; intros [|c s]; simpl; try lia.
  specialize (IH s). lia.
Qed.

Lemma charIn_app (c : ascii) (s t : string) : charIn c (s +:+ t) = charIn c s || charIn c t.
Proof.
  induction s as [|d s IH]; [reflexivity|].
  rewrite str_app_cons. simpl. by rewrite IH, orb_assoc.
Qed.

(** A needle that starts with a character is not found at the head of a
    text that starts with another one. *)
Lemma startsWith_head (c d : ascii) (s p : string) :
  c ≠ d → Js.startsWith (String c s) (String d p) = false.
Proof.
  intros Hne. simpl. destruct (Ascii.eqb_spec d c) as [->|]; [done|reflexivity].
Qed.

(** ** Searching in markup *)

Lemma startsWith_spec (s p : string) :
  Js.startsWith s p = true → s = p +:+ Js.drop (String.length p) s.
Proof.
  revert s. induction p as [|c p IH]; intros s Hs; [by destruct s|].
  destruct s as [|d s]; [done|]. simpl in Hs.
  apply andb_prop in Hs as [Hc Hs]. apply Ascii.eqb_eq in Hc as ->.
  rewrite str_app_cons. simpl. by rewrite <-(IH s Hs).
Qed.

Lemma cut_spec (needle s before after : string) :
  Js.cut needle s = Some (before, after) → s = before +:+ needle +:+ after.
Proof.
  revert before. induction s as [|c s IH]; intros before; simpl.
  - destruct (Js.startsWith "" needle) eqn:Hs; [|done].
    intros [= <- <-]. by apply startsWith_spec in Hs.
  - destruct (Js.startsWith (String c s) needle) eqn:Hs.
    + intros [= <- <-]. by apply startsWith_spec in Hs.
    + destruct (Js.cut needle s) as [[b a]|] eqn:Hc; [|done].
      intros [= <- <-]. rewrite str_app_cons. by rewrite <-(IH b eq_refl).
Qed.

Lemma cut_cons (needle : string) (c : ascii) (s : string) :
  Js.cut needle (String c s)
  = if Js.startsWith (String c s) needle
    then Some ("", Js.drop (String.length needle) (String c s))
    else (λ r, (String c r.1, r.2)) <$> Js.cut needle s.
Proof. simpl. destruct (Js.startsWith _ _); [done|]. by destruct (Js.cut needle s) as [[??]|]. Qed.

Lemma exec_cons (d : bool) (open close : string) (c : ascii) (s : string) :
  Js.exec d open close (String c s)
  = match Js.match_at d open close (String c s) with
    | Some r => Some r
    | None => Js.exec d open close s
    end.
Proof. reflexivity. Qed.

Lemma cut_text (needle text s : string) (c : ascii) :
  charIn c text = false →
  Js.cut (String c needle) (text +:+ s)
  = (λ r, (text +:+ r.1, r.2)) <$> Js.cut (String c needle) s.
Proof.
  induction text as [|d text IH]; intros Hno.
  - rewrite str_app_nil_l. by destruct (Js.cut _ s) as [[??]|].
  - simpl in Hno. apply orb_false_elim in Hno as [Hd Hno].
    rewrite str_app_cons, cut_cons, (startsWith_head d c) by (by intros ->; rewrite Ascii.eqb_refl in Hd).
    rewrite (IH Hno). by destruct (Js.cut _ s) as [[??]|].
Qed.

Lemma tag_unfold (name : string) : tag name = String "<" (name +:+ ">").
Proof. reflexivity. Qed.

Lemma startsWith_name (m n s : string) :
  charIn ">" m = false → charIn ">" n = false →
  Js.startsWith (m +:+ ">" +:+ s) (n +:+ ">") = String.eqb m n.
Proof.
  revert m. induction n as [|d n IH]; intros [|c m] Hm Hn; simpl in *.
  - reflexivity.
  - apply orb_false_elim in Hm as [Hc _]. rewrite Hc. reflexivity.
  - apply orb_false_elim in Hn as [Hd _].
    rewrite Ascii.eqb_sym, Hd. reflexivity.
  - apply orb_false_elim in Hm as [_ Hm]. apply orb_false_elim in Hn as [_ Hn].
    rewrite (IH m Hm Hn), (Ascii.eqb_sym d c). reflexivity.
Qed.

Lemma name_ok_split (name : string) :
  token_ok (S3.Tag name) = true → charIn "<" name = false ∧ charIn ">" name = false.
Proof.
  simpl. intros H. apply andb_prop in H as [H1 H2].
  by apply negb_true_iff in H1, H2.
Qed.

Lemma startsWith_tag (m n s : string) :
  token_ok (S3.Tag m) = true → token_ok (S3.Tag n) = true →
  Js.startsWith (tag m +:+ s) (tag n) = String.eqb m n.
Proof.
  intros [_ Hm]%name_ok_split [_ Hn]%name_ok_split.
  rewrite !tag_unfold, str_app_cons, str_app_assoc. simpl.
  by apply startsWith_name.
Qed.

Lemma cut_tag (m n s : string) :
  token_ok (S3.Tag m) = true → token_ok (S3.Tag n) = true →
  Js.cut (tag n) (tag m +:+ s)
  = if String.eqb m n then Some ("", s)
    else (λ r, (tag m +:+ r.1, r.2)) <$> Js.cut (tag n) s.
Proof.
  intros Hm Hn. pose proof (startsWith_tag m n s Hm Hn) as Hs.
  destruct (name_ok_split m Hm) as [Hlt _].
  rewrite (tag_unfold m), str_app_cons in Hs |- *.
  rewrite cut_cons, Hs.
  destruct (String.eqb m n) eqn:Hmn.
  - apply String.eqb_eq in Hmn as ->. f_equal. f_equal.
    rewrite <-str_app_cons, <-tag_unfold. apply drop_app.
  - rewrite (tag_unfold n).
    rewrite (cut_text (n +:+ ">") (m +:+ ">") s "<").
    + by destruct (Js.cut _ s) as [[??]|].
    + rewrite charIn_app, Hlt. reflexivity.
Qed.

Lemma cut_tokens (n : string) (ts : list S3.Token) :
  token_ok (S3.Tag n) = true → forallb token_ok ts = true →
  Js.cut (tag n) (S3.flatten ts)
  = (λ r, (S3.flatten r.1, S3.flatten r.2)) <$> split_at_tag n ts.
Proof.
  intros Hn. induction ts as [|t ts IH]; intros Hts; [reflexivity|].
  simpl in Hts. apply andb_prop in Hts as [Ht Hts]. specialize (IH Hts).
  destruct t as [m|text]; simpl S3.flatten; simpl split_at_tag.
  - change (S3.token_text (S3.Tag m)) with (tag m). rewrite (cut_tag m n _ Ht Hn), IH.
    destruct (String.eqb m n); [reflexivity|].
    by destruct (split_at_tag n ts) as [[??]|].
  - simpl in Ht. apply negb_true_iff in Ht.
    rewrite (tag_unfold n), (cut_text _ _ _ _ Ht), <-(tag_unfold n), IH.
    by destruct (split_at_tag n ts) as [[??]|].
Qed.

Lemma match_at_text (d : bool) (c : ascii) (open close text s : string) :
  text ≠ "" → charIn c text = false →
  Js.match_at d (String c open) close (text +:+ s) = None.
Proof.
  destruct text as [|e text]; [done|]. intros _ Hno. simpl in Hno.
  apply orb_false_elim in Hno as [He _].
  unfold Js.match_at. rewrite str_app_cons, (startsWith_head e c); [done|].
  intros ->. by rewrite Ascii.eqb_refl in He.
Qed.

Lemma exec_text (d : bool) (c : ascii) (open close text s : string) :
  charIn c text = false →
  Js.exec d (String c open) close (text +:+ s) = Js.exec d (String c open) close s.
Proof.
  induction text as [|e text IH]; intros Hno; [reflexivity|].
  rewrite str_app_cons, exec_cons, <-str_app_cons.
  rewrite (match_at_text d c open close (String e text) s); [|done|done].
  simpl in Hno. apply orb_false_elim in Hno as [_ Hno]. by apply IH.
Qed.

Lemma exec_tag_other (d : bool) (m n close s : string) :
  token_ok (S3.Tag m) = true → token_ok (S3.Tag n) = true → String.eqb m n = false →
  Js.exec d (tag n) close (tag m +:+ s) = Js.exec d (tag n) close s.
Proof.
  intros Hm Hn Hne. pose proof (startsWith_tag m n s Hm Hn) as Hs.
  destruct (name_ok_split m Hm) as [Hlt _].
  rewrite (tag_unfold m), str_app_cons in Hs |- *.
  rewrite exec_cons. unfold Js.match_at at 1. rewrite Hs, Hne.
  rewrite (tag_unfold n). apply exec_text.
  rewrite charIn_app, Hlt. reflexivity.
Qed.

Lemma exec_tag_here (d : bool) (n close s group rest : string) :
  Js.cut close s = Some (group, rest) →
  d || negb (Js.hasLineTerminator group) = true →
  Js.exec d (tag n) close (tag n +:+ s) = Some (group, rest).
Proof.
  intros Hcut Hd.
  assert (Js.match_at d (tag n) close (tag n +:+ s) = Some (group, rest)) as Hm.
  { unfold Js.match_at. by rewrite startsWith_app, drop_app, Hcut, Hd. }
  rewrite (tag_unfold n), str_app_cons in Hm |- *. by rewrite exec_cons, Hm.
Qed.

Lemma exec_tokens_none (d : bool) (n close : string) (ts : list S3.Token) :
  token_ok (S3.Tag n) = true → forallb token_ok ts = true →
  split_at_tag n ts = None →
  Js.exec d (tag n) close (S3.flatten ts) = None.
Proof.
  intros Hn. induction ts as [|t ts IH]; intros Hts Hsplit; [reflexivity|].
  simpl in Hts. apply andb_prop in Hts as [Ht Hts].
  simpl in Hsplit. destruct t as [m|text]; simpl S3.flatten.
  - destruct (String.eqb m n) eqn:Hmn; [done|].
    change (S3.token_text (S3.Tag m)) with (tag m).
    rewrite (exec_tag_other d m n close _ Ht Hn Hmn). apply IH; [done|].
    by destruct (split_at_tag n ts) as [[??]|].
  - simpl in Ht. apply negb_true_iff in Ht.
    rewrite (tag_unfold n), (exec_text _ _ _ _ _ _ Ht), <-(tag_unfold n). apply IH; [done|].
    by destruct (split_at_tag n ts) as [[??]|].
Qed.

Lemma split_at_tag_ok (n : string) (ts before after : list S3.Token) :
  forallb token_ok ts = true → split_at_tag n ts = Some (before, after) →
  forallb token_ok before = true ∧ forallb token_ok after = true.
Proof.
  revert before. induction ts as [|t ts IH]; intros before Hts; [done|].
  simpl in Hts. apply andb_prop in Hts as [Ht Hts]. simpl.
  destruct (match t with S3.Tag n0 => String.eqb n0 n | S3.Text _ => false end).
  - intros [= <- <-]. done.
  - destruct (split_at_tag n ts) as [[b a]|]; [|done]. intros [= <- <-].
    destruct (IH b Hts eq_refl) as [Hb Ha]. simpl. by rewrite Ht, Hb.
Qed.

(** The expression [<n>(.*?)<c>] on a sequence of tokens: the group is the
    text between the first tag [n] and the first tag [c] after it. *)
Lemma exec_tokens (d : bool) (n c : string) (ts before inner group after : list S3.Token) :
  token_ok (S3.Tag n) = true → token_ok (S3.Tag c) = true → forallb token_ok ts = true →
  split_at_tag n ts = Some (before, inner) →
  split_at_tag c inner = Some (group, after) →
  d || negb (Js.hasLineTerminator (S3.flatten group)) = true →
  Js.exec d (tag n) (tag c) (S3.flatten ts) = Some (S3.flatten group, S3.flatten after).
Proof.
  intros Hn Hc. revert before. induction ts as [|t ts IH]; intros before Hts Hopen Hclose Hd; [done|].
  simpl in Hts. apply andb_prop in Hts as [Ht Hts].
  simpl in Hopen. destruct t as [m|text]; simpl S3.flatten.
  - change (S3.token_text (S3.Tag m)) with (tag m).
    destruct (String.eqb m n) eqn:Hmn.
    + apply String.eqb_eq in Hmn as ->. injection Hopen as <- <-.
      apply exec_tag_here; [|done].
      by rewrite (cut_tokens c ts Hc Hts), Hclose.
    + rewrite (exec_tag_other d m n _ _ Ht Hn Hmn).
      destruct (split_at_tag n ts) as [[b a]|] eqn:Hs; [|done].
      injection Hopen as <- <-. by apply (IH b).
  - simpl in Ht. apply negb_true_iff in Ht.
    rewrite (tag_unfold n), (exec_text _ _ _ _ _ _ Ht), <-(tag_unfold n).
    destruct (split_at_tag n ts) as [[b a]|] eqn:Hs; [|done].
    injection Hopen as <- <-. by apply (IH b).
Qed.

(** ** Text of the reference pages *)

Lemma plain_app (s t : string) : plain (s +:+ t) = plain s && plain t.
Proof.
  induction s as [|c s IH]; [reflexivity|].
  rewrite str_app_cons. simpl. rewrite IH. by rewrite !andb_assoc.
Qed.

Lemma plain_no_lt (s : string) : plain s = true → charIn "<" s = false.
Proof.
  induction s as [|c s IH]; [done|]. simpl.
  intros [[Hc _]%andb_prop Hs]%andb_prop. rewrite (IH Hs), orb_false_r.
  apply negb_true_iff in Hc. simpl in Hc.
  apply orb_false_elim in Hc as [_ Hc]. apply orb_false_elim in Hc as [Hc _].
  by rewrite Ascii.eqb_sym.
Qed.

Lemma plain_one_line (s : string) : plain s = true → Js.hasLineTerminator s = false.
Proof.
  induction s as [|c s IH]; [done|]. simpl.
  intros [[_ Hc]%andb_prop Hs]%andb_prop. rewrite (IH Hs), orb_false_r.
  by apply negb_true_iff in Hc.
Qed.

Lemma plain_escape (s : string) : plain s = true → S3.xml_escape s = s.
Proof.
  induction s as [|c s IH]; [done|]. simpl.
  intros [[Hc _]%andb_prop Hs]%andb_prop. rewrite (IH Hs).
  apply negb_true_iff in Hc. simpl in Hc.
  apply orb_false_elim in Hc as [H1 Hc]. apply orb_false_elim in Hc as [H2 Hc].
  apply orb_false_elim in Hc as [H3 Hc]. apply orb_false_elim in Hc as [H4 _].
  by rewrite H1, H2, H3, H4.
Qed.

Lemma escape_no_lt (s : string) : charIn "<" (S3.xml_escape s) = false.
Proof.
  induction s as [|c s IH]; [done|]. simpl. rewrite charIn_app, IH, orb_false_r.
  destruct (Ascii.eqb c "&"); [done|]. destruct (Ascii.eqb_spec c "<") as [->|Hne]; [done|].
  destruct (Ascii.eqb c ">"); [done|]. destruct (Ascii.eqb c (ascii_of_nat 34)); [done|].
  simpl. rewrite orb_false_r. by apply Ascii.eqb_neq.
Qed.

Lemma escape_one_line (s : string) :
  Js.hasLineTerminator (S3.xml_escape s) = Js.hasLineTerminator s.
Proof.
  assert (∀ a b, Js.hasLineTerminator (a +:+ b) = Js.hasLineTerminator a || Js.hasLineTerminator b)
    as Happ.
  { intros a b. induction a as [|c a IH]; [done|]. rewrite str_app_cons. simpl.
    by rewrite IH, orb_assoc. }
  induction s as [|c s IH]; [done|]. simpl. rewrite Happ, IH. f_equal.
  destruct (Ascii.eqb_spec c "&") as [->|]; [done|].
  destruct (Ascii.eqb_spec c "<") as [->|]; [done|].
  destruct (Ascii.eqb_spec c ">") as [->|]; [done|].
  destruct (Ascii.eqb_spec c (ascii_of_nat 34)) as [->|]; [done|].
  simpl. by rewrite orb_false_r.
Qed.

Lemma plain_pretty_N_go (x : N) (s : string) :
  plain s = true → plain (pretty_N_go x s) = true.
Proof.
  revert s. induction (N.lt_wf_0 x) as [x _ IH]; intros s Hs.
  destruct (decide (x = 0)%N) as [->|Hx]; [by rewrite pretty_N_go_0|].
  rewrite pretty_N_go_step by lia. apply IH.
  - apply N.div_lt; lia.
  - simpl. rewrite Hs, andb_true_r. unfold pretty_N_char. by repeat case_match.
Qed.

Lemma plain_pretty_N (x : N) : plain (pretty x) = true.
Proof.
  unfold pretty, pretty_N. case_decide; [done|]. by apply plain_pretty_N_go.
Qed.

Lemma plain_pretty_Z (z : Z) : plain (pretty z) = true.
Proof.
  destruct z as [|p|p]; [done|apply plain_pretty_N|].
  unfold pretty, pretty_Z. rewrite plain_app. simpl.
  apply (plain_pretty_N (Npos p)).
Qed.

Lemma plain_pad (width : nat) (n : Z) : plain (S3.pad width n) = true.
Proof.
  unfold S3.pad. rewrite plain_app, plain_pretty_Z, andb_true_r.
  induction (width - _)%nat as [|k IH]; [done|].
  simpl. destruct (replicate k "0") eqn:Hr; [done|].
  rewrite plain_app. simpl in *. by rewrite plain_app, IH.
Qed.

Lemma plain_iso_date (ms : Z) : plain (S3.iso_date ms) = true.
Proof.
  unfold S3.iso_date. destruct (S3.civil_from_days _) as [[y m] d].
  by rewrite !plain_app, !plain_pad.
Qed.

(** ** The parser of listing pages *)

Lemma match_at_spec (d : bool) (open close s group rest : string) :
  Js.match_at d open close s = Some (group, rest) →
  s = open +:+ group +:+ close +:+ rest.
Proof.
  unfold Js.match_at. destruct (Js.startsWith s open) eqn:Hs; [|done].
  destruct (Js.cut close _) as [[g r]|] eqn:Hc; [|done].
  destruct (d || _); [|done]. intros [= <- <-].
  apply startsWith_spec in Hs. apply cut_spec in Hc. rewrite Hs at 1. by rewrite Hc.
Qed.

Lemma exec_spec (d : bool) (open close s group rest : string) :
  Js.exec d open close s = Some (group, rest) →
  ∃ before, s = before +:+ open +:+ group +:+ close +:+ rest.
Proof.
  induction s as [|c s IH].
  - simpl. destruct (Js.match_at d open close "") as [[g r]|] eqn:Hm; [|done].
    intros [= <- <-]. exists "". by apply match_at_spec in Hm.
  - rewrite exec_cons. destruct (Js.match_at d open close (String c s)) as [[g r]|] eqn:Hm.
    + intros [= <- <-]. exists "". by apply match_at_spec in Hm.
    + intros [before ->]%IH. by exists (String c before).
Qed.

Lemma exec_shorter (d : bool) (open close s group rest : string) :
  open ≠ "" → Js.exec d open close s = Some (group, rest) →
  (String.length rest < String.length s)%nat.
Proof.
  intros Hopen [before ->]%exec_spec. rewrite !str_length_app.
  destruct open; [done|]. simpl. lia.
Qed.

Section Parser.

Context `{Runtime}.

Lemma parseContents_fuel (n m : nat) (xmlText : string) :
  (String.length xmlText <= n)%nat → (String.length xmlText <= m)%nat →
  parseContents n xmlText = parseContents m xmlText.
Proof.
  revert m xmlText. induction n as [|n IH]; intros m s Hn Hm.
  - destruct s; [|simpl in Hn; lia]. by destruct m.
  - simpl. destruct (Js.exec true "<Contents>" "</Contents>" s) as [[c rest]|] eqn:He.
    + assert (String.length rest < String.length s)%nat as Hlt
        by (by apply (exec_shorter true "<Contents>" "</Contents>" s c rest)).
      destruct m as [|m]; [lia|]. simpl. rewrite He. f_equal. apply IH; lia.
    + destruct m as [|m]; [done|]. simpl. by rewrite He.
Qed.

Lemma parseXmlToObjects_unfold (xmlText : string) :
  parseXmlToObjects xmlText
  = match Js.exec true "<Contents>" "</Contents>" xmlText with
    | None => []
    | Some (contentXml, rest) => object_of_contents contentXml ++ parseXmlToObjects rest
    end.
Proof.
  unfold parseXmlToObjects. destruct (String.length xmlText) as [|n] eqn:Hn.
  - destruct xmlText; [done|discriminate].
  - simpl. destruct (Js.exec true "<Contents>" "</Contents>" xmlText) as [[c rest]|] eqn:He; [|done].
    assert (String.length rest < String.length xmlText)%nat as Hlt
      by (by apply (exec_shorter true "<Contents>" "</Contents>" xmlText c rest)).
    f_equal. apply parseContents_fuel; lia.
Qed.

Lemma split_at_tag_app (n : string) (a b : list S3.Token) :
  split_at_tag n (a ++ b)
  = match split_at_tag n a with
    | Some (before, after) => Some (before, after ++ b)
    | None => (λ r, (a ++ r.1, r.2)) <$> split_at_tag n b
    end.
Proof.
  induction a as [|t a IH]; simpl.
  - by destruct (split_at_tag n b) as [[??]|].
  - destruct (match t with S3.Tag n0 => String.eqb n0 n | S3.Text _ => false end); [done|].
    rewrite IH. destruct (split_at_tag n a) as [[??]|]; [done|].
    by destruct (split_at_tag n b) as [[??]|].
Qed.

Lemma forallb_token_ok_app (a b : list S3.Token) :
  forallb token_ok (a ++ b) = forallb token_ok a && forallb token_ok b.
Proof. apply forallb_app. Qed.

Lemma element_ok (name text : string) :
  charIn "<" name = false → charIn ">" name = false → charIn "<" text = false →
  forallb token_ok (S3.element name text) = true.
Proof.
  intros H1 H2 H3. unfold S3.element. cbn [forallb token_ok].
  rewrite !charIn_app, H1, H2, H3. reflexivity.
Qed.

Lemma entry_tokens_ok (e : S3.Entry) : forallb token_ok (S3.entry_tokens e) = true.
Proof.
  destruct e as [k o|p]; unfold S3.entry_tokens.
  - rewrite !forallb_token_ok_app, !element_ok; try done.
    + apply plain_no_lt, plain_pretty_Z.
    + apply escape_no_lt.
    + apply plain_no_lt, plain_iso_date.
    + apply escape_no_lt.
  - rewrite !forallb_token_ok_app, !element_ok; try done. apply escape_no_lt.
Qed.

Lemma entries_tokens_ok (page : list S3.Entry) :
  forallb token_ok (concat (S3.entry_tokens <$> page)) = true.
Proof.
  induction page as [|e page IH]; [done|].
  rewrite fmap_cons. simpl. by rewrite forallb_token_ok_app, entry_tokens_ok, IH.
Qed.

Lemma page_tokens_ok (bucket prefix : string) (delimiter : option string) (max_keys : nat)
    (page : list S3.Entry) (next : option string) :
  forallb token_ok (S3.page_tokens bucket prefix delimiter max_keys page next) = true.
Proof.
  unfold S3.page_tokens.
  destruct delimiter as [d|], next as [t|];
    rewrite !forallb_token_ok_app, entries_tokens_ok, !element_ok;
    try done; try apply escape_no_lt; apply plain_no_lt, plain_pretty_Z.
Qed.

End Parser.

Section Pages.

Context `{Runtime}.

Lemma hasLineTerminator_app (a b : string) :
  Js.hasLineTerminator (a +:+ b) = Js.hasLineTerminator a || Js.hasLineTerminator b.
Proof.
  induction a as [|c a IH]; [done|]. rewrite str_app_cons. simpl. by rewrite IH, orb_assoc.
Qed.

Lemma or_else_empty (v : string) : Js.or_else (Some v) "" = v.
Proof. unfold Js.or_else, Js.truthy. by destruct (String.eqb_spec v "") as [->|]. Qed.

Lemma or_else_truthy (v d : string) : v ≠ "" → Js.or_else (Some v) d = v.
Proof. intros Hv. unfold Js.or_else, Js.truthy. by destruct (String.eqb_spec v "") as [->|]. Qed.

Lemma pretty_N_go_nonempty (x : N) (s : string) : s ≠ "" → pretty_N_go x s ≠ "".
Proof.
  revert s. induction (N.lt_wf_0 x) as [x _ IH]; intros s Hs.
  destruct (decide (x = 0)%N) as [->|Hx]; [by rewrite pretty_N_go_0|].
  rewrite pretty_N_go_step by lia. apply IH; [apply N.div_lt; lia|done].
Qed.

Lemma pretty_Z_nonempty (z : Z) : pretty z ≠ "".
Proof.
  assert (∀ p, pretty (Npos p) ≠ "") as Hpos.
  { intros p. unfold pretty, pretty_N. case_decide; [done|].
    rewrite pretty_N_go_step by lia. by apply pretty_N_go_nonempty. }
  destruct z as [|p|p]; [done|apply Hpos|]. unfold pretty, pretty_Z.
  change ("-" +:+ pretty p) with (String "-" (pretty p)). done.
Qed.

Lemma flatten_app (a b : list S3.Token) : S3.flatten (a ++ b) = S3.flatten a +:+ S3.flatten b.
Proof. induction a as [|t a IH]; [done|]. simpl. by rewrite IH, str_app_assoc. Qed.

Lemma exec_skip_tokens (d : bool) (n close : string) (a b : list S3.Token) :
  token_ok (S3.Tag n) = true → forallb token_ok a = true → split_at_tag n a = None →
  Js.exec d (tag n) close (S3.flatten (a ++ b)) = Js.exec d (tag n) close (S3.flatten b).
Proof.
  intros Hn. induction a as [|t a IH]; intros Ha Hsplit; [done|].
  simpl in Ha. apply andb_prop in Ha as [Ht Ha].
  simpl in Hsplit. destruct t as [m|text]; simpl S3.flatten.
  - destruct (String.eqb m n) eqn:Hmn; [done|].
    change (S3.token_text (S3.Tag m)) with (tag m).
    rewrite (exec_tag_other d m n close _ Ht Hn Hmn). apply IH; [done|].
    by destruct (split_at_tag n a) as [[??]|].
  - simpl in Ht. apply negb_true_iff in Ht.
    rewrite (tag_unfold n), (exec_text _ _ _ _ _ _ Ht), <-(tag_unfold n). apply IH; [done|].
    by destruct (split_at_tag n a) as [[??]|].
Qed.

Lemma parse_skip_tokens (a b : list S3.Token) :
  forallb token_ok a = true → split_at_tag "Contents" a = None →
  parseXmlToObjects (S3.flatten (a ++ b)) = parseXmlToObjects (S3.flatten b).
Proof.
  intros Ha Hsplit.
  rewrite (parseXmlToObjects_unfold (S3.flatten (a ++ b))), (parseXmlToObjects_unfold (S3.flatten b)).
  change "<Contents>" with (tag "Contents").
  by rewrite (exec_skip_tokens true "Contents" "</Contents>" a b).
Qed.

Lemma parse_no_contents (a : list S3.Token) :
  forallb token_ok a = true → split_at_tag "Contents" a = None →
  parseXmlToObjects (S3.flatten a) = [].
Proof.
  intros Ha Hsplit. rewrite parseXmlToObjects_unfold.
  change "<Contents>" with (tag "Contents").
  by rewrite (exec_tokens_none true "Contents" "</Contents>" a).
Qed.

Lemma content_fields_ok (k : string) (o : S3.Object) :
  forallb token_ok (content_fields k o) = true.
Proof.
  unfold content_fields. rewrite !forallb_token_ok_app, !element_ok; try done.
  - apply plain_no_lt, plain_pretty_Z.
  - apply escape_no_lt.
  - apply plain_no_lt, plain_iso_date.
  - apply escape_no_lt.
Qed.

Lemma etag_one_line (o : S3.Object) :
  Js.hasLineTerminator (S3.xml_escape (S3.etag_of o)) = false.
Proof.
  rewrite escape_one_line. unfold S3.etag_of.
  rewrite !hasLineTerminator_app, (plain_one_line _ (plain_pretty_Z _)). done.
Qed.

Lemma object_of_contents_fields (k : string) (o : S3.Object) :
  Js.hasLineTerminator k = false →
  object_of_contents (S3.flatten (content_fields k o)) = [listed_object k o].
Proof.
  intros Hk. pose proof (content_fields_ok k o) as Hok.
  unfold object_of_contents.
  change "<Key>" with (tag "Key"). change "</Key>" with (tag "/Key").
  change "<Size>" with (tag "Size"). change "</Size>" with (tag "/Size").
  change "<LastModified>" with (tag "LastModified").
  change "</LastModified>" with (tag "/LastModified").
  change "<ETag>" with (tag "ETag"). change "</ETag>" with (tag "/ETag").
  rewrite (exec_tokens false "Key" "/Key" (content_fields k o) []
             (List.tl (content_fields k o)) [S3.Text (S3.xml_escape k)]
             (List.skipn 3 (content_fields k o))); try done;
    [|cbn [S3.flatten S3.token_text]; by rewrite str_app_nil_r, escape_one_line, Hk].
  rewrite (exec_tokens false "Size" "/Size" (content_fields k o)
             (List.firstn 9 (content_fields k o)) (List.skipn 10 (content_fields k o))
             [S3.Text (pretty (Z.of_nat (String.length (S3.data o))))]
             (List.skipn 12 (content_fields k o))); try done;
    [|cbn [S3.flatten S3.token_text]; by rewrite str_app_nil_r, (plain_one_line _ (plain_pretty_Z _))].
  rewrite (exec_tokens false "LastModified" "/LastModified" (content_fields k o)
             (List.firstn 3 (content_fields k o)) (List.skipn 4 (content_fields k o))
             [S3.Text (S3.iso_date (S3.modified o))]
             (List.skipn 6 (content_fields k o))); try done;
    [|cbn [S3.flatten S3.token_text]; by rewrite str_app_nil_r, (plain_one_line _ (plain_iso_date _))].
  rewrite (exec_tokens false "ETag" "/ETag" (content_fields k o)
             (List.firstn 6 (content_fields k o)) (List.skipn 7 (content_fields k o))
             [S3.Text (S3.xml_escape (S3.etag_of o))]
             (List.skipn 9 (content_fields k o))); try done;
    [|cbn [S3.flatten S3.token_text]; by rewrite str_app_nil_r, etag_one_line].
  cbn [Js.group1 fmap option_fmap option_map fst S3.flatten S3.token_text]. rewrite !str_app_nil_r.
  rewrite or_else_empty, (or_else_truthy _ "0" (pretty_Z_nonempty _)).
  by rewrite or_else_empty.
Qed.

Lemma parse_entries (page : list S3.Entry) (ts : list S3.Token) :
  forallb (λ k, negb (Js.hasLineTerminator k)) (content_keys page) = true →
  forallb token_ok ts = true →
  parseXmlToObjects (S3.flatten (concat (S3.entry_tokens <$> page) ++ ts))
  = listed_objects page ++ parseXmlToObjects (S3.flatten ts).
Proof.
  intros Hkeys Hts. induction page as [|e page IH]; [done|].
  rewrite fmap_cons. simpl concat. rewrite <-(assoc_L (++)).
  assert (forallb token_ok (concat (S3.entry_tokens <$> page) ++ ts) = true) as Hrest
    by (by rewrite forallb_token_ok_app, entries_tokens_ok).
  destruct e as [k o|p].
  - simpl in Hkeys. apply andb_prop in Hkeys as [Hk Hkeys]. apply negb_true_iff in Hk.
    rewrite parseXmlToObjects_unfold.
    change (S3.entry_tokens (S3.Content k o))
      with ([S3.Tag "Contents"] ++ content_fields k o ++ [S3.Tag "/Contents"]).
    rewrite <-!(assoc_L (++)).
    change "<Contents>" with (tag "Contents"). change "</Contents>" with (tag "/Contents").
    rewrite (exec_tokens true "Contents" "/Contents" _ []
               (content_fields k o ++ [S3.Tag "/Contents"] ++ concat (S3.entry_tokens <$> page) ++ ts)
               (content_fields k o) (concat (S3.entry_tokens <$> page) ++ ts)); try done.
    + rewrite (object_of_contents_fields k o Hk), (IH Hkeys). done.
    + rewrite !forallb_token_ok_app, content_fields_ok.
      rewrite forallb_token_ok_app in Hrest. by rewrite Hrest.
  - rewrite (parse_skip_tokens (S3.entry_tokens (S3.CommonPrefix p))); [|apply entry_tokens_ok|done].
    by apply IH.
Qed.

End Pages.

Section RenderedPages.

Context `{Runtime}.

Lemma split_entries_none (n : string) (page : list S3.Entry) :
  n ≠ "Contents" → n ≠ "/Contents" → n ≠ "CommonPrefixes" → n ≠ "/CommonPrefixes" →
  n ≠ "Key" → n ≠ "/Key" → n ≠ "LastModified" → n ≠ "/LastModified" →
  n ≠ "ETag" → n ≠ "/ETag" → n ≠ "Size" → n ≠ "/Size" →
  n ≠ "StorageClass" → n ≠ "/StorageClass" → n ≠ "Prefix" → n ≠ "/Prefix" →
  split_at_tag n (concat (S3.entry_tokens <$> page)) = None.
Proof.
  intros. induction page as [|e page IH]; [done|].
  rewrite fmap_cons. simpl concat. rewrite split_at_tag_app, IH.
  destruct e as [k o|p]; simpl;
    repeat (match goal with
            | |- context [String.eqb ?a n] =>
                destruct (String.eqb_spec a n) as [<-|_]; [done|]
            end); done.
Qed.

Ltac tokens_ok :=
  first [ apply element_ok; [done|done|first [apply escape_no_lt|apply plain_no_lt, plain_pretty_Z|done]]
        | apply entries_tokens_ok
        | vm_compute; reflexivity ].

Ltac skip_piece := rewrite parse_skip_tokens; [|tokens_ok|done].

Lemma parse_page (bucket prefix : string) (delimiter : option string) (max_keys : nat)
    (page : list S3.Entry) (next : option string) :
  forallb (λ k, negb (Js.hasLineTerminator k)) (content_keys page) = true →
  parseXmlToObjects (S3.render_page bucket prefix delimiter max_keys page next)
  = listed_objects page.
Proof.
  intros Hkeys. unfold S3.render_page, S3.page_tokens.
  do 5 skip_piece.
  assert (∀ ts, forallb token_ok ts = true → split_at_tag "Contents" ts = None →
            parseXmlToObjects
              (S3.flatten (S3.element "IsTruncated" match next with Some _ => "true" | None => "false" end
                           ++ concat (S3.entry_tokens <$> page) ++ ts))
            = listed_objects page) as Hrest.
  { intros ts Hok Hnone. destruct next; skip_piece;
      rewrite (parse_entries page ts Hkeys Hok), (parse_no_contents ts Hok Hnone);
      apply List.app_nil_r. }
  destruct delimiter as [d|].
  - skip_piece. apply Hrest; destruct next as [t|]; try done.
    rewrite forallb_token_ok_app, element_ok; try done. apply escape_no_lt.
  - rewrite List.app_nil_l. apply Hrest; destruct next as [t|]; try done.
    rewrite forallb_token_ok_app, element_ok; try done. apply escape_no_lt.
Qed.

Lemma page_truncated (bucket prefix : string) (delimiter : option string) (max_keys : nat)
    (page : list S3.Entry) (next : option string) :
  Js.group1 (Js.exec false "<IsTruncated>" "</IsTruncated>"
               (S3.render_page bucket prefix delimiter max_keys page next))
  = Some (match next with Some _ => "true" | None => "false" end).
Proof.
  pose proof (page_tokens_ok bucket prefix delimiter max_keys page next) as Hok.
  unfold S3.render_page.
  change "<IsTruncated>" with (tag "IsTruncated").
  change "</IsTruncated>" with (tag "/IsTruncated").
  set (ts := S3.page_tokens bucket prefix delimiter max_keys page next) in *.
  set (text := match next with Some _ => "true" | None => "false" end).
  assert (Js.hasLineTerminator text = false) as Hline by (by destruct next).
  destruct delimiter as [d|].
  - rewrite (exec_tokens false "IsTruncated" "/IsTruncated" ts
               (List.firstn 18 ts) (List.skipn 19 ts) [S3.Text text] (List.skipn 21 ts));
      try done.
    + cbn [Js.group1 fmap option_fmap option_map fst S3.flatten S3.token_text].
      by rewrite str_app_nil_r.
    + cbn [S3.flatten S3.token_text]. by rewrite str_app_nil_r, Hline.
  - rewrite (exec_tokens false "IsTruncated" "/IsTruncated" ts
               (List.firstn 15 ts) (List.skipn 16 ts) [S3.Text text] (List.skipn 18 ts));
      try done.
    + cbn [Js.group1 fmap option_fmap option_map fst S3.flatten S3.token_text].
      by rewrite str_app_nil_r.
    + cbn [S3.flatten S3.token_text]. by rewrite str_app_nil_r, Hline.
Qed.

Ltac skip_tag_piece n := rewrite (exec_skip_tokens false n); [|done|tokens_ok|done].

Lemma page_token (bucket prefix : string) (delimiter : option string) (max_keys : nat)
    (page : list S3.Entry) (token : string) :
  Js.hasLineTerminator token = false →
  Js.group1 (Js.exec false "<NextContinuationToken>" "</NextContinuationToken>"
               (S3.render_page bucket prefix delimiter max_keys page (Some token)))
  = Some (S3.xml_escape token).
Proof.
  intros Hline. unfold S3.render_page, S3.page_tokens.
  change "<NextContinuationToken>" with (tag "NextContinuationToken").
  change "</NextContinuationToken>" with (tag "/NextContinuationToken").
  do 5 skip_tag_piece "NextContinuationToken".
  assert (Js.exec false (tag "NextContinuationToken") (tag "/NextContinuationToken")
            (S3.flatten (S3.element "IsTruncated" "true" ++ concat (S3.entry_tokens <$> page)
                         ++ S3.element "NextContinuationToken" (S3.xml_escape token)
                         ++ [S3.Tag "/ListBucketResult"]))
          = Some (S3.xml_escape token, S3.flatten [S3.Tag "/ListBucketResult"])) as Hrest.
  { skip_tag_piece "NextContinuationToken".
    rewrite (exec_skip_tokens false "NextContinuationToken"); [|done|apply entries_tokens_ok|].
    - rewrite (exec_tokens false "NextContinuationToken" "/NextContinuationToken" _ []
                 [S3.Text (S3.xml_escape token); S3.Tag "/NextContinuationToken"; S3.Tag "/ListBucketResult"]
                 [S3.Text (S3.xml_escape token)] [S3.Tag "/ListBucketResult"]); try done.
      + cbn [S3.flatten S3.token_text]. by rewrite str_app_nil_r.
      + rewrite forallb_token_ok_app, element_ok; try done. apply escape_no_lt.
      + cbn [S3.flatten S3.token_text]. by rewrite str_app_nil_r, escape_one_line, Hline.
    - by apply split_entries_none. }
  destruct delimiter as [d|].
  - skip_tag_piece "NextContinuationToken". by rewrite Hrest.
  - rewrite List.app_nil_l. by rewrite Hrest.
Qed.

End RenderedPages.

(** ** Running a handler *)

Section Running.

Context `{Runtime}.
Context {World : Type}.
Variable fetch : Request.t -> World -> FetchOutcome * World.

Lemma answers_app (a b : list (Request.t * FetchOutcome)) (w w_end : World) :
  answers fetch (a ++ b) w w_end ↔ ∃ w', answers fetch a w w' ∧ answers fetch b w' w_end.
Proof.
  revert w. induction a as [|[call out] a IH]; intros w; simpl.
  - split; [intros Hb; by exists w|by intros (w' & -> & Hb)].
  - split.
    + intros (w1 & Hf & Hrest). apply IH in Hrest as (w' & Ha & Hb). exists w'. split; [|done].
      by exists w1.
    + intros (w' & (w1 & Hf & Ha) & Hb). exists w1. split; [done|]. apply IH. by exists w'.
Qed.

Lemma runs_ret {A} (a : A) : runs fetch (ret a) [] (Value a).
Proof. intros w tr w_end ->. unfold ret. by rewrite List.app_nil_r. Qed.

Lemma runs_throw {A} (message : string) : runs fetch (throw (A:=A) message) [] (Throw message).
Proof. intros w tr w_end ->. unfold throw. by rewrite List.app_nil_r. Qed.

Lemma runs_fetch (url method : string) (headers : Headers) (body : option string)
    (outcome : FetchOutcome) :
  runs fetch (aws_fetch fetch url method headers body)
    [(Request.mk url method headers body, outcome)] (awaited outcome).
Proof.
  intros w tr w_end (w' & Hf & ->). unfold aws_fetch. cbn [world trace]. rewrite Hf.
  by destruct outcome.
Qed.

Lemma runs_fetch_resolved (url method : string) (headers : Headers) (body : option string)
    (response : Response.t) :
  runs fetch (aws_fetch fetch url method headers body)
    [(Request.mk url method headers body, Resolved response)] (Value response).
Proof. apply (runs_fetch _ _ _ _ (Resolved response)). Qed.

Lemma runs_fetch_rejected (url method : string) (headers : Headers) (body : option string)
    (message : string) :
  runs fetch (aws_fetch fetch url method headers body)
    [(Request.mk url method headers body, Rejected message)] (Throw message).
Proof. apply (runs_fetch _ _ _ _ (Rejected message)). Qed.

Lemma runs_bind {A B} (m : M World A) (k : A → M World B)
    (s1 s2 : list (Request.t * FetchOutcome)) (a : A) (result : Result B) :
  runs fetch m s1 (Value a) → runs fetch (k a) s2 result →
  runs fetch (bind m k) (s1 ++ s2) result.
Proof.
  intros Hm Hk w tr w_end (w1 & H1 & H2)%answers_app.
  unfold bind. rewrite (Hm w tr w1 H1), (Hk w1 _ w_end H2).
  by rewrite fmap_app, (assoc_L (++)).
Qed.

Lemma runs_bind_throw {A B} (m : M World A) (k : A → M World B)
    (s : list (Request.t * FetchOutcome)) (message : string) :
  runs fetch m s (Throw message) → runs fetch (bind m k) s (Throw message).
Proof. intros Hm w tr w_end Hs. unfold bind. by rewrite (Hm w tr w_end Hs). Qed.

Lemma runs_bind_diverge {A B} (m : M World A) (k : A → M World B)
    (s : list (Request.t * FetchOutcome)) :
  runs fetch m s Diverge → runs fetch (bind m k) s Diverge.
Proof. intros Hm w tr w_end Hs. unfold bind. by rewrite (Hm w tr w_end Hs). Qed.

Lemma runs_try_value {A} (m : M World A) (handler : string → M World A)
    (s : list (Request.t * FetchOutcome)) (a : A) :
  runs fetch m s (Value a) → runs fetch (try_catch m handler) s (Value a).
Proof. intros Hm w tr w_end Hs. unfold try_catch. by rewrite (Hm w tr w_end Hs). Qed.

Lemma runs_try_throw {A} (m : M World A) (handler : string → M World A)
    (s1 s2 : list (Request.t * FetchOutcome)) (message : string) (result : Result A) :
  runs fetch m s1 (Throw message) → runs fetch (handler message) s2 result →
  runs fetch (try_catch m handler) (s1 ++ s2) result.
Proof.
  intros Hm Hh w tr w_end (w1 & H1 & H2)%answers_app.
  unfold try_catch. rewrite (Hm w tr w1 H1), (Hh w1 _ w_end H2).
  by rewrite fmap_app, (assoc_L (++)).
Qed.

Lemma runs_try_bind {A B} (m : M World A) (k : A → M World B) (handler : string → M World B)
    (s1 s2 : list (Request.t * FetchOutcome)) (a : A) (result : Result B) :
  runs fetch m s1 (Value a) → runs fetch (try_catch (k a) handler) s2 result →
  runs fetch (try_catch (bind m k) handler) (s1 ++ s2) result.
Proof.
  intros Hm Hk w tr w_end (w1 & H1 & H2)%answers_app.
  specialize (Hk w1 (tr ++ s1.*1) w_end H2).
  unfold try_catch, bind in *. rewrite (Hm w tr w1 H1), Hk.
  by rewrite fmap_app, (assoc_L (++)).
Qed.

Lemma runs_start_value {A} (m : M World A) (s : list (Request.t * FetchOutcome)) (a : A) :
  runs fetch m s (Value a) → runs fetch (start m) s (Value None).
Proof. intros Hm w tr w_end Hs. unfold start. by rewrite (Hm w tr w_end Hs). Qed.

Lemma runs_start_throw {A} (m : M World A) (s : list (Request.t * FetchOutcome))
    (message : string) :
  runs fetch m s (Throw message) → runs fetch (start m) s (Value (Some message)).
Proof. intros Hm w tr w_end Hs. unfold start. by rewrite (Hm w tr w_end Hs). Qed.

Lemma runs_script_eq {A} (m : M World A) (s s' : list (Request.t * FetchOutcome))
    (result : Result A) :
  s = s' → runs fetch m s result → runs fetch m s' result.
Proof. by intros ->. Qed.

Lemma listed_keys (page : list S3.Entry) :
  forallb plain (content_keys page) = true →
  key <$> listed_objects page = content_keys page.
Proof.
  induction page as [|[k o|p] page IH]; simpl; [done| |done].
  intros [Hk Hp]%andb_prop. f_equal; [by apply plain_escape|by apply IH].
Qed.

Lemma plain_keys_one_line (ks : list string) :
  forallb plain ks = true → forallb (λ k, negb (Js.hasLineTerminator k)) ks = true.
Proof.
  induction ks as [|k ks IH]; [done|]. simpl. intros [Hk Hks]%andb_prop.
  by rewrite (plain_one_line k Hk), IH.
Qed.

Lemma for_of_runs {Acc} (body : Acc → S3Object → M World Acc) (f : Acc → S3Object → Acc)
    (per_object : S3Object → list (Request.t * FetchOutcome)) :
  (∀ acc o, runs fetch (body acc o) (per_object o) (Value (f acc o))) →
  ∀ (objs : list S3Object) (acc : Acc),
    runs fetch (for_of objs body acc) (concat (per_object <$> objs)) (Value (foldl f acc objs)).
Proof.
  intros Hbody. induction objs as [|o objs IH]; intros acc; [apply runs_ret|].
  rewrite fmap_cons. cbn [concat for_of foldl].
  by apply (runs_bind _ _ _ _ (f acc o)).
Qed.

(** The listing loop on a store that answers with the pages: the body sees
    the objects of all pages in order, and each page is asked for with the
    token of the page before. *)
Lemma listAll_from_runs {Acc} (body : Acc → S3Object → M World Acc)
    (f : Acc → S3Object → Acc) (per_object : S3Object → list (Request.t * FetchOutcome))
    (env : Env) (bucket prefix : string) (isRecursive : bool) (max_keys : nat) :
  (∀ acc o, runs fetch (body acc o) (per_object o) (Value (f acc o))) →
  ∀ (pages : list Page) (n : nat) (token : option string) (acc : Acc),
    forallb plain_page pages = true →
    chained pages = true →
    (length pages <= n)%nat →
    runs fetch (listAll_from fetch n env bucket prefix isRecursive token body acc)
      (listing_script env bucket prefix isRecursive max_keys per_object token pages)
      (Value (foldl f acc (concat ((λ p : Page, listed_objects p.1) <$> pages)))).
Proof.
  intros Hbody.
  induction pages as [|[entries next] rest IH]; intros n token acc Hplain Hchain Hn; [done|].
  destruct n as [|n]; [simpl in Hn; lia|].
  simpl in Hplain. apply andb_prop in Hplain as [Hpage Hrest].
  unfold plain_page in Hpage. simpl in Hpage. apply andb_prop in Hpage as [Hkeys Htoken].
  cbn [listing_script listAll_from].
  eapply (runs_bind _ _ [_] _); [apply runs_fetch_resolved|].
  change (Response.ok (listing_response ?x)) with true.
  change (Response.body (listing_response ?x)) with (Some x).
  cbn [negb default from_option id].
  rewrite (parse_page _ _ _ _ _ _ (plain_keys_one_line _ Hkeys)).
  eapply runs_bind; [by apply for_of_runs|].
  rewrite page_truncated. rewrite !fmap_cons. cbn [concat fst]. rewrite foldl_app.
  destruct next as [t|].
  - rewrite bool_decide_eq_true_2 by done.
    rewrite (page_token _ _ _ _ _ _ (plain_one_line t Htoken)), (plain_escape t Htoken).
    destruct rest as [|page rest]; [done|].
    cbn [chained] in Hchain. apply andb_prop in Hchain as [Ht Hchain].
    assert (Js.or_undefined (Some t) = Some t) as -> by (unfold Js.or_undefined; by rewrite Ht).
    apply IH; [done|done|simpl in Hn; simpl; lia].
  - rewrite bool_decide_eq_false_2 by done. cbn [Js.or_undefined].
    destruct rest as [|page rest]; [|done]. apply runs_ret.
Qed.

End Running.

(** ** The listing engine *)

Section Listing.

Context `{Runtime}.
Context {World : Type}.
Variable fetch : Request.t -> World -> FetchOutcome * World.

Lemma listing_script_pure (env : Env) (bucket prefix : string) (isRecursive : bool)
    (max_keys : nat) (token : option string) (pages : list Page) :
  listing_script env bucket prefix isRecursive max_keys (λ _, []) token pages
  = page_script env bucket prefix isRecursive max_keys token pages.
Proof.
  revert token. induction pages as [|[entries next] rest IH]; intros token; [done|].
  cbn [listing_script page_script]. rewrite IH. f_equal.
  induction (listed_objects entries) as [|o objs IHo]; [done|]. by rewrite fmap_cons.
Qed.

(** A listing whose consumer only updates its accumulator. *)
Lemma listAll_pure {Acc} (f : Acc → S3Object → Acc) (fuel : nat) (env : Env)
    (bucket prefix : string) (isRecursive : bool) (max_keys : nat) (pages : list Page)
    (acc : Acc) :
  forallb plain_page pages = true → chained pages = true → (length pages <= fuel)%nat →
  runs fetch (listAll fetch fuel env bucket prefix isRecursive (λ acc o, ret (f acc o)) acc)
    (page_script env bucket prefix isRecursive max_keys None pages)
    (Value (foldl f acc (concat ((λ p : Page, listed_objects p.1) <$> pages)))).
Proof.
  intros Hplain Hchain Hfuel. rewrite <-listing_script_pure. unfold listAll.
  apply (listAll_from_runs fetch _ f (λ _, [])); try done.
  intros acc' o. apply runs_ret.
Qed.

Lemma collect_keys (objs : list S3Object) (keys : list string) :
  foldl (λ keys object, keys ++ [key object]) keys objs = keys ++ (key <$> objs).
Proof.
  revert keys. induction objs as [|o objs IH]; intros keys; simpl.
  - by rewrite List.app_nil_r.
  - by rewrite IH, <-(assoc_L (++)).
Qed.

Lemma listed_keys_pages (pages : list Page) :
  forallb plain_page pages = true →
  key <$> concat ((λ p : Page, listed_objects p.1) <$> pages)
  = concat ((λ p : Page, content_keys p.1) <$> pages).
Proof.
  induction pages as [|[entries next] rest IH]; [done|].
  intros Hp. cbn [forallb] in Hp. apply andb_prop in Hp as [[Hkeys _]%andb_prop Hrest].
  rewrite !fmap_cons. cbn [concat fst].
  by rewrite fmap_app, (listed_keys entries Hkeys), (IH Hrest).
Qed.


End Listing.

(** ** COPY and MOVE: the checks before the source *)

Section Preconditions.

Context `{Runtime}.
Context {World : Type}.
Variable fetch : Request.t -> World -> FetchOutcome * World.
Variable fuel : nat.

Lemma runs_make_resource_path (request : Request.t) (resource_path : string) :
  resource_path_of (Request.url request) = Some resource_path →
  runs fetch (make_resource_path request) [] (Value resource_path).
Proof. intros Hp. unfold make_resource_path. rewrite Hp. apply runs_ret. Qed.

Lemma runs_destination_of (destination_header destination : string) :
  resource_path_of destination_header = Some destination →
  runs fetch (destination_of destination_header) [] (Value destination).
Proof. intros Hp. unfold destination_of. rewrite Hp. apply runs_ret. Qed.

Lemma destination_key_inv (request : Request.t) (destination : string) :
  destination_key request = Some destination →
  ∃ destination_header,
    Headers_get (Request.headers request) "Destination" = Some destination_header
    ∧ resource_path_of destination_header = Some destination.
Proof.
  unfold destination_key. destruct (Headers_get _ "Destination") as [dh|]; [|done].
  intros Hd. by exists dh.
Qed.

Lemma runs_check_parent_conflict (env : Env) (bucket parent : string) (outcome : FetchOutcome) :
  parent ≠ "" → missing outcome = true →
  runs fetch (check_destination_parent fetch env bucket parent)
    [(head_call env bucket parent, outcome)]
    (Value (Some (new_Response (Some "Conflict") 409))).
Proof.
  intros Hp Hmissing. unfold check_destination_parent. rewrite bool_decide_eq_true_2 by done.
  destruct outcome as [response|message].
  - apply runs_try_value. eapply (runs_bind _ _ _ [_] []); [apply runs_fetch_resolved|].
    simpl in Hmissing. rewrite Hmissing. apply runs_ret.
  - eapply (runs_try_throw _ _ _ [_] []); [|apply runs_ret].
    apply runs_bind_throw, runs_fetch_rejected.
Qed.

Lemma runs_check_parent_pass (env : Env) (bucket destination : string) (outcome : FetchOutcome) :
  (destination_parent_of destination ≠ "" → missing outcome = false) →
  runs fetch (check_destination_parent fetch env bucket (destination_parent_of destination))
    (parent_script env bucket destination outcome) (Value None).
Proof.
  intros Hpass. unfold check_destination_parent, parent_script.
  case_bool_decide as Hp; [|apply runs_ret]. specialize (Hpass Hp).
  destruct outcome as [response|message]; [|done].
  apply runs_try_value. eapply (runs_bind _ _ _ [_] []); [apply runs_fetch_resolved|].
  simpl in Hpass. rewrite Hpass. apply runs_ret.
Qed.

Lemma runs_check_destination (env : Env) (bucket destination : string) (forbidden : bool)
    (outcome : FetchOutcome) :
  runs fetch (check_destination fetch env bucket destination forbidden)
    [(head_call env bucket destination, outcome)]
    (Value (present outcome,
            if present outcome && forbidden
            then Some (new_Response (Some "Precondition Failed") 412) else None)).
Proof.
  unfold check_destination. destruct outcome as [response|message].
  - apply runs_try_value. eapply (runs_bind _ _ _ [_] []); [apply runs_fetch_resolved|].
    simpl. destruct (Response.ok response); [|apply runs_ret].
    destruct forbidden; apply runs_ret.
  - eapply (runs_try_throw _ _ _ [_] []); [|apply runs_ret].
    apply runs_bind_throw, runs_fetch_rejected.
Qed.

(** COPY answers 409 on the check of the parent of the destination. *)
Lemma copy_conflict (request : Request.t) (env : Env) (bucket resource_path destination : string)
    (parent_outcome : FetchOutcome) :
  resource_path_of (Request.url request) = Some resource_path →
  destination_key request = Some destination →
  destination_parent_of destination ≠ "" →
  missing parent_outcome = true →
  runs fetch (handle_copy fetch fuel request env bucket)
    [(head_call env bucket (destination_parent_of destination), parent_outcome)]
    (Value (new_Response (Some "Conflict") 409)).
Proof.
  intros Hpath (dh & Hheader & Hdest)%destination_key_inv Hparent Hmissing.
  unfold handle_copy.
  eapply (runs_bind _ _ _ [] _); [by apply runs_make_resource_path|]. rewrite Hheader.
  eapply (runs_bind _ _ _ [] _); [by apply runs_destination_of|].
  eapply (runs_bind _ _ _ [_] []); [by apply runs_check_parent_conflict|]. apply runs_ret.
Qed.

(** COPY answers 412 on the check of the destination. *)
Lemma copy_precondition_failed (request : Request.t) (env : Env)
    (bucket resource_path destination : string) (parent_outcome destination_outcome : FetchOutcome) :
  resource_path_of (Request.url request) = Some resource_path →
  destination_key request = Some destination →
  (destination_parent_of destination ≠ "" → missing parent_outcome = false) →
  present destination_outcome = true →
  Headers_get (Request.headers request) "Overwrite" = Some "F" →
  runs fetch (handle_copy fetch fuel request env bucket)
    (parent_script env bucket destination parent_outcome
     ++ [(head_call env bucket destination, destination_outcome)])
    (Value (new_Response (Some "Precondition Failed") 412)).
Proof.
  intros Hpath (dh & Hheader & Hdest)%destination_key_inv Hparent Hpresent Hoverwrite.
  unfold handle_copy.
  eapply (runs_bind _ _ _ [] _); [by apply runs_make_resource_path|]. rewrite Hheader.
  eapply (runs_bind _ _ _ [] _); [by apply runs_destination_of|].
  eapply runs_bind; [by apply runs_check_parent_pass|].
  eapply (runs_bind _ _ _ [_] []); [apply runs_check_destination|].
  rewrite Hpresent, Hoverwrite. rewrite bool_decide_eq_true_2 by done. apply runs_ret.
Qed.

(** MOVE answers 409 on the check of the parent of the destination. *)
Lemma move_conflict (request : Request.t) (env : Env) (bucket resource_path destination : string)
    (parent_outcome : FetchOutcome) :
  resource_path_of (Request.url request) = Some resource_path →
  destination_key request = Some destination →
  destination_parent_of destination ≠ "" →
  missing parent_outcome = true →
  runs fetch (handle_move fetch fuel request env bucket)
    [(head_call env bucket (destination_parent_of destination), parent_outcome)]
    (Value (new_Response (Some "Conflict") 409)).
Proof.
  intros Hpath (dh & Hheader & Hdest)%destination_key_inv Hparent Hmissing.
  unfold handle_move.
  eapply (runs_bind _ _ _ [] _); [by apply runs_make_resource_path|]. rewrite Hheader.
  eapply (runs_bind _ _ _ [] _); [by apply runs_destination_of|].
  eapply (runs_bind _ _ _ [_] []); [by apply runs_check_parent_conflict|]. apply runs_ret.
Qed.

(** MOVE answers 412 on the check of the destination. *)
Lemma move_precondition_failed (request : Request.t) (env : Env)
    (bucket resource_path destination : string) (parent_outcome destination_outcome : FetchOutcome) :
  resource_path_of (Request.url request) = Some resource_path →
  destination_key request = Some destination →
  (destination_parent_of destination ≠ "" → missing parent_outcome = false) →
  present destination_outcome = true →
  Headers_get (Request.headers request) "Overwrite" ≠ Some "T" →
  runs fetch (handle_move fetch fuel request env bucket)
    (parent_script env bucket destination parent_outcome
     ++ [(head_call env bucket destination, destination_outcome)])
    (Value (new_Response (Some "Precondition Failed") 412)).
Proof.
  intros Hpath (dh & Hheader & Hdest)%destination_key_inv Hparent Hpresent Hoverwrite.
  unfold handle_move.
  eapply (runs_bind _ _ _ [] _); [by apply runs_make_resource_path|]. rewrite Hheader.
  eapply (runs_bind _ _ _ [] _); [by apply runs_destination_of|].
  eapply runs_bind; [by apply runs_check_parent_pass|].
  eapply (runs_bind _ _ _ [_] []); [apply runs_check_destination|].
  rewrite Hpresent. rewrite bool_decide_eq_false_2 by done. apply runs_ret.
Qed.

(** Calls that ask for heads leave a store unchanged when heads are pure. *)
Lemma answers_heads (script : list (Request.t * FetchOutcome)) (w w_end : World) :
  head_is_pure fetch →
  Forall (λ call, Request.method call = "HEAD") script.*1 →
  answers fetch script w w_end → w_end = w.
Proof.
  intros Hpure. revert w. induction script as [|[call outcome] script IH]; intros w Hheads; [done|].
  rewrite fmap_cons in Hheads. apply Forall_cons in Hheads as [Hcall Hheads].
  intros (w' & Hfetch & Hrest). pose proof (Hpure call w Hcall) as Hw.
  rewrite Hfetch in Hw. simpl in Hw. subst w'. by apply IH.
Qed.

Lemma parent_script_heads (env : Env) (bucket destination : string) (outcome : FetchOutcome) :
  Forall (λ call, Request.method call = "HEAD") (parent_script env bucket destination outcome).*1.
Proof. unfold parent_script. case_bool_decide; by repeat constructor. Qed.

(** C8. In COPY and in MOVE the parent of the destination is checked first
    and the destination second, and each check answers on its own: 409 when
    the parent is missing, 412 when the destination is present and may not
    be replaced.  The source is not asked for in either case, so the answer
    is the same whether the source exists or not. *)
Theorem destination_checks_precede_source (request : Request.t) (env : Env)
    (bucket resource_path destination : string) (parent_outcome destination_outcome : FetchOutcome) :
  resource_path_of (Request.url request) = Some resource_path →
  destination_key request = Some destination →
  (destination_parent_of destination ≠ "" → missing parent_outcome = true →
   runs fetch (handle_copy fetch fuel request env bucket)
     [(head_call env bucket (destination_parent_of destination), parent_outcome)]
     (Value (new_Response (Some "Conflict") 409))
   ∧ runs fetch (handle_move fetch fuel request env bucket)
       [(head_call env bucket (destination_parent_of destination), parent_outcome)]
       (Value (new_Response (Some "Conflict") 409)))
  ∧ ((destination_parent_of destination ≠ "" → missing parent_outcome = false) →
     present destination_outcome = true →
     (Headers_get (Request.headers request) "Overwrite" = Some "F" →
      runs fetch (handle_copy fetch fuel request env bucket)
        (parent_script env bucket destination parent_outcome
         ++ [(head_call env bucket destination, destination_outcome)])
        (Value (new_Response (Some "Precondition Failed") 412)))
     ∧ (Headers_get (Request.headers request) "Overwrite" ≠ Some "T" →
        runs fetch (handle_move fetch fuel request env bucket)
          (parent_script env bucket destination parent_outcome
           ++ [(head_call env bucket destination, destination_outcome)])
          (Value (new_Response (Some "Precondition Failed") 412)))).
Proof.
  intros Hpath Hdest. split.
  - intros Hparent Hmissing. split.
    + by apply (copy_conflict request env bucket resource_path destination).
    + by apply (move_conflict request env bucket resource_path destination).
  - intros Hparent Hpresent. split; intros Hoverwrite.
    + by apply (copy_precondition_failed request env bucket resource_path destination).
    + by apply (move_precondition_failed request env bucket resource_path destination).
Qed.

(** C4, amended.  A COPY with Overwrite: F whose destination is present,
    and whose destination has a parent that is present when it has a parent
    at all, is answered 412 after asking for the two heads and nothing
    else; on a store where asking for a head changes nothing, every key is
    left as it was. *)
Theorem copy_refuses_to_overwrite (request : Request.t) (env : Env)
    (bucket resource_path destination : string) (parent_outcome destination_outcome : FetchOutcome) :
  resource_path_of (Request.url request) = Some resource_path →
  destination_key request = Some destination →
  Headers_get (Request.headers request) "Overwrite" = Some "F" →
  (destination_parent_of destination ≠ "" → missing parent_outcome = false) →
  present destination_outcome = true →
  let script :=
    parent_script env bucket destination parent_outcome
    ++ [(head_call env bucket destination, destination_outcome)] in
  runs fetch (handle_copy fetch fuel request env bucket) script
    (Value (new_Response (Some "Precondition Failed") 412))
  ∧ Forall (λ call, Request.method call = "HEAD") script.*1
  ∧ (head_is_pure fetch → ∀ w w_end, answers fetch script w w_end → w_end = w).
Proof.
  intros Hpath Hdest Hoverwrite Hparent Hpresent script.
  assert (Forall (λ call, Request.method call = "HEAD") script.*1) as Hheads.
  { unfold script. rewrite fmap_app. apply Forall_app. split; [apply parent_script_heads|].
    by repeat constructor. }
  split; [by apply (copy_precondition_failed request env bucket resource_path destination)|].
  split; [done|]. intros Hpure w w_end. by apply answers_heads.
Qed.


End Preconditions.

(** ** PUT *)

Section Put.

Context {World : Type}.
Variable fetch : Request.t -> World -> FetchOutcome * World.

Lemma copy_headers_get (headers : Headers) (name : string) :
  name ∈ content_headers →
  Headers_get (copy_headers content_headers headers) name
  = Js.or_undefined (Headers_get headers name).
Proof.
  intros Hname. unfold copy_headers, content_headers in *. cbn [omap list_omap].
  destruct (Js.or_undefined (Headers_get headers "Content-Type")) as [v1|] eqn:H1;
  destruct (Js.or_undefined (Headers_get headers "Content-Disposition")) as [v2|] eqn:H2;
  destruct (Js.or_undefined (Headers_get headers "Content-Language")) as [v3|] eqn:H3;
  destruct (Js.or_undefined (Headers_get headers "Content-Encoding")) as [v4|] eqn:H4;
  destruct (Js.or_undefined (Headers_get headers "Cache-Control")) as [v5|] eqn:H5;
  cbn [fmap option_fmap option_map];
  repeat (apply elem_of_cons in Hname as [->|Hname]; [by rewrite ?H1, ?H2, ?H3, ?H4, ?H5|]);
  by apply elem_of_nil in Hname.
Qed.

Lemma put_parent_conflict (env : Env) (bucket dirpath : string) (outcome : FetchOutcome) :
  found outcome && marked_collection outcome = false →
  runs fetch
    (try_catch
       (response <- aws_fetch fetch (getS3Url env bucket (Some (encodeURIComponent dirpath)) None)
                      "HEAD" [] None ;;
        if Response.status response =? 404 then
          ret (Some (new_Response (Some "Conflict") 409))
        else
          if bool_decide (Headers_get (Response.headers response) "x-amz-meta-resourcetype"
                          ≠ Some COLLECTION)
          then ret (Some (new_Response (Some "Conflict") 409))
          else ret None)
       (λ _, ret (Some (new_Response (Some "Conflict") 409))))
    [(head_call env bucket dirpath, outcome)]
    (Value (Some (new_Response (Some "Conflict") 409))).
Proof.
  intros Hno. destruct outcome as [response|message].
  - apply runs_try_value. eapply (runs_bind _ _ _ [_] []); [apply runs_fetch_resolved|].
    simpl in Hno. destruct (Response.status response =? 404); [apply runs_ret|].
    simpl in Hno. apply bool_decide_eq_false in Hno.
    rewrite bool_decide_eq_true_2 by done. apply runs_ret.
  - eapply (runs_try_throw _ _ _ [_] []); [|apply runs_ret].
    apply runs_bind_throw, runs_fetch_rejected.
Qed.

Lemma put_parent_pass (env : Env) (bucket dirpath : string) (outcome : FetchOutcome) :
  found outcome && marked_collection outcome = true →
  runs fetch
    (try_catch
       (response <- aws_fetch fetch (getS3Url env bucket (Some (encodeURIComponent dirpath)) None)
                      "HEAD" [] None ;;
        if Response.status response =? 404 then
          ret (Some (new_Response (Some "Conflict") 409))
        else
          if bool_decide (Headers_get (Response.headers response) "x-amz-meta-resourcetype"
                          ≠ Some COLLECTION)
          then ret (Some (new_Response (Some "Conflict") 409))
          else ret None)
       (λ _, ret (Some (new_Response (Some "Conflict") 409))))
    [(head_call env bucket dirpath, outcome)]
    (Value None).
Proof.
  intros [Hfound Hmarked]%andb_prop. destruct outcome as [response|message]; [|done].
  apply runs_try_value. eapply (runs_bind _ _ _ [_] []); [apply runs_fetch_resolved|].
  simpl in Hfound, Hmarked. apply negb_true_iff in Hfound. rewrite Hfound.
  apply bool_decide_eq_true in Hmarked. rewrite bool_decide_eq_false_2 by (by intros ?).
  apply runs_ret.
Qed.

(** What PUT does, by the text of the request URL: 405 without asking the
    store when that text ends in a slash; otherwise 409 after the head of
    the parent alone when the parent fails, is 404 or does not name a
    collection; otherwise one write of the key, answered 201 when the store
    accepts it and thrown on when it does not. *)
Lemma handle_put_runs (request : Request.t) (env : Env) (bucket resource_path : string)
    (parent_outcome put_outcome : FetchOutcome) :
  (Js.endsWith (Request.url request) "/" = true →
   runs fetch (handle_put fetch request env bucket) []
     (Value (new_Response (Some "Method Not Allowed") 405)))
  ∧ (Js.endsWith (Request.url request) "/" = false →
     resource_path_of (Request.url request) = Some resource_path →
     (dirname_of resource_path ≠ "" →
      found parent_outcome && marked_collection parent_outcome = false →
      runs fetch (handle_put fetch request env bucket)
        [(head_call env bucket (dirname_of resource_path), parent_outcome)]
        (Value (new_Response (Some "Conflict") 409)))
     ∧ ((dirname_of resource_path ≠ "" →
         found parent_outcome && marked_collection parent_outcome = true) →
        runs fetch (handle_put fetch request env bucket)
          (dirname_script env bucket resource_path parent_outcome
           ++ [(put_call env bucket resource_path
                  (copy_headers content_headers (Request.headers request))
                  (default "" (Request.body request)),
                put_outcome)])
          match put_outcome with
          | Resolved response =>
              if Response.ok response then Value (new_Response (Some "") 201)
              else Throw (S3_API_error response)
          | Rejected message => Throw message
          end))
  ∧ (∀ name, name ∈ content_headers →
       Headers_get (copy_headers content_headers (Request.headers request)) name
       = Js.or_undefined (Headers_get (Request.headers request) name)).
Proof.
  split; [|split].
  - intros Hslash. unfold handle_put. rewrite Hslash. apply runs_ret.
  - intros Hslash Hpath. unfold handle_put. rewrite Hslash. split.
    + intros Hdir Hno.
      eapply (runs_bind _ _ _ [] _); [by apply runs_make_resource_path|].
      rewrite bool_decide_eq_true_2 by done.
      eapply (runs_bind _ _ _ [_] []); [by apply put_parent_conflict|]. apply runs_ret.
    + intros Hpass.
      eapply (runs_bind _ _ _ [] _); [by apply runs_make_resource_path|].
      eapply runs_bind.
      { unfold dirname_script. case_bool_decide as Hdir; [|apply runs_ret].
        apply put_parent_pass. by apply Hpass. }
      destruct put_outcome as [response|message].
      * eapply (runs_bind _ _ _ [_] []); [apply runs_fetch_resolved|].
        destruct (Response.ok response); [apply runs_ret|apply runs_throw].
      * apply runs_bind_throw, runs_fetch_rejected.
  - intros name. apply copy_headers_get.
Qed.

(** C3, amended.  For a PUT request whose URL ends in a slash exactly when
    its path does, as a URL without a query does: when the path ends in a
    slash the answer is 405 and the store is not asked; when the normalized
    path has a parent and the head of the parent fails, is 404 or does not
    carry the collection sentinel, the answer is 409 and only that head has
    been asked for; otherwise the key is written once, with the body of the
    request and with those content headers of the request that are not
    empty, and the answer is 201 when the store accepts the write: when
    the store refuses it, the handler fails with the S3 API error of the
    answer, and when the call fails, with its failure. *)
Theorem put_checks_then_writes (request : Request.t) (env : Env)
    (bucket path resource_path : string) (parent_outcome put_outcome : FetchOutcome) :
  URL_pathname (Request.url request) = Some path →
  Js.endsWith (Request.url request) "/" = Js.endsWith path "/" →
  resource_path_of (Request.url request) = Some resource_path →
  (Js.endsWith path "/" = true →
   runs fetch (handle_put fetch request env bucket) []
     (Value (new_Response (Some "Method Not Allowed") 405)))
  ∧ (Js.endsWith path "/" = false →
     (dirname_of resource_path ≠ "" →
      found parent_outcome && marked_collection parent_outcome = false →
      runs fetch (handle_put fetch request env bucket)
        [(head_call env bucket (dirname_of resource_path), parent_outcome)]
        (Value (new_Response (Some "Conflict") 409)))
     ∧ ((dirname_of resource_path ≠ "" →
         found parent_outcome && marked_collection parent_outcome = true) →
        runs fetch (handle_put fetch request env bucket)
          (dirname_script env bucket resource_path parent_outcome
           ++ [(put_call env bucket resource_path
                  (copy_headers content_headers (Request.headers request))
                  (default "" (Request.body request)),
                put_outcome)])
          match put_outcome with
          | Resolved response =>
              if Response.ok response then Value (new_Response (Some "") 201)
              else Throw (S3_API_error response)
          | Rejected message => Throw message
          end))
  ∧ (∀ name, name ∈ content_headers →
       Headers_get (copy_headers content_headers (Request.headers request)) name
       = Js.or_undefined (Headers_get (Request.headers request) name)).
Proof.
  intros _ Hends Hpath. rewrite <-Hends.
  destruct (handle_put_runs request env bucket resource_path parent_outcome put_outcome)
    as (Hcollection & Hresource & Hheaders).
  split; [done|]. split; [|done]. intros Hslash. by apply Hresource.
Qed.

End Put.

(** ** PROPFIND *)

Section Propfind.

Context `{Runtime}.
Context {World : Type}.
Variable fetch : Request.t -> World -> FetchOutcome * World.
Variable fuel : nat.

Lemma ok_not_404 (response : Response.t) :
  Response.ok response = true → (Response.status response =? 404) = false.
Proof. unfold Response.ok. intros [? ?]%andb_prop. lia. Qed.

Lemma isCollectionObject_head (resource_path : string) (response : Response.t) :
  isCollectionObject (object_of_head resource_path response)
  = marked_collection (Resolved response).
Proof.
  unfold isCollectionObject, object_of_head, marked_collection. cbn [metadata mbind option_bind].
  rewrite lookup_singleton_eq.
  destruct (Headers_get (Response.headers response) "x-amz-meta-resourcetype") as [v|]; [|done].
  unfold Js.or_else, Js.truthy. destruct (String.eqb_spec v "") as [->|Hv]; [done|].
  cbn [negb]. apply bool_decide_ext. split; congruence.
Qed.

Lemma append_responses (page : string) (objs : list S3Object) :
  foldl (λ page o, page +:+ generate_propfind_response (Some o)) page objs
  = page +:+ String.concat "" ((λ o, generate_propfind_response (Some o)) <$> objs).
Proof.
  revert page. induction objs as [|o objs IH]; intros page.
  - simpl. by rewrite str_app_nil_r.
  - rewrite fmap_cons. cbn [foldl]. rewrite IH, str_app_assoc. f_equal.
    destruct objs; [by rewrite str_app_nil_r|done].
Qed.

(** The first part of PROPFIND on a key that the store has: the element
    of the resource itself, and whether it is a collection. *)
Lemma propfind_self (resource_path : string) (env : Env) (bucket : string)
    (response : Response.t) :
  Response.ok response = true →
  runs fetch
    (try_catch
       (response <- aws_fetch fetch
                      (getS3Url env bucket (Some (encodeURIComponent resource_path)) None)
                      "HEAD" [] None ;;
        if Response.status response =? 404 then
          ret (inl (new_Response (Some "Not Found") 404))
        else if negb (Response.ok response) then throw (S3_API_error response)
        else
          let object := object_of_head resource_path response in
          let is_collection := isCollectionObject object in
          ret (inr (multistatus_open +:+ generate_propfind_response (Some object),
                    is_collection)))
       (λ message, response <- catch_404 message ;; ret (inl response)))
    [(head_call env bucket resource_path, Resolved response)]
    (Value (inr (multistatus_open
                 +:+ generate_propfind_response (Some (object_of_head resource_path response)),
                 marked_collection (Resolved response)))).
Proof.
  intros Hok. apply runs_try_value.
  eapply (runs_bind _ _ _ [_] []); [apply runs_fetch_resolved|].
  rewrite (ok_not_404 _ Hok), Hok. cbn [negb]. rewrite isCollectionObject_head. apply runs_ret.
Qed.

Lemma multistatus_alone (self : option S3Object) :
  (multistatus_open +:+ generate_propfind_response self) +:+ multistatus_close
  = multistatus self [].
Proof. unfold multistatus. by rewrite str_app_assoc. Qed.

Lemma multistatus_listed (self : option S3Object) (objs : list S3Object) :
  foldl (λ page o, page +:+ generate_propfind_response (Some o))
    (multistatus_open +:+ generate_propfind_response self) objs +:+ multistatus_close
  = multistatus self objs.
Proof. unfold multistatus. by rewrite append_responses, !str_app_assoc. Qed.

(** C2, amended.  On the root and on a key whose head names a collection,
    PROPFIND answers 403 to a Depth header other than 0, 1 and infinity,
    before any listing.  On a key whose head does not name a collection the
    Depth header is not read: the answer is 207 with the element of the
    resource alone, whatever the header says. *)
Theorem propfind_depth_of_collections (request : Request.t) (env : Env)
    (bucket resource_path depth : string) (head : Response.t) :
  resource_path_of (Request.url request) = Some resource_path →
  (Headers_get (Request.headers request) "Depth" = Some depth →
   depth ≠ "0" → depth ≠ "1" → depth ≠ "infinity" →
   (resource_path = "" →
    runs fetch (handle_propfind fetch fuel request env bucket) []
      (Value (new_Response (Some "Forbidden") 403)))
   ∧ (resource_path ≠ "" → Response.ok head = true →
      marked_collection (Resolved head) = true →
      runs fetch (handle_propfind fetch fuel request env bucket)
        [(head_call env bucket resource_path, Resolved head)]
        (Value (new_Response (Some "Forbidden") 403))))
  ∧ (resource_path ≠ "" → Response.ok head = true →
     marked_collection (Resolved head) = false →
     runs fetch (handle_propfind fetch fuel request env bucket)
       [(head_call env bucket resource_path, Resolved head)]
       (Value (multistatus_response (Some (object_of_head resource_path head)) []))).
Proof.
  intros Hpath. split.
  - intros Hdepth H0 H1 Hinf. split.
    + intros ->. unfold handle_propfind.
      eapply (runs_bind _ _ _ [] _); [by apply runs_make_resource_path|].
      rewrite bool_decide_eq_true_2 by done.
      eapply (runs_bind _ _ _ [] _); [apply runs_ret|]. cbn beta iota. rewrite Hdepth.
      cbn [default from_option id].
      rewrite !bool_decide_eq_false_2 by done.
      eapply (runs_bind _ _ _ [] _); apply runs_ret.
    + intros Hrp Hok Hmarked. unfold handle_propfind.
      eapply (runs_bind _ _ _ [] _); [by apply runs_make_resource_path|].
      rewrite bool_decide_eq_false_2 by done.
      eapply (runs_bind _ _ _ [_] []); [by apply propfind_self|]. cbn beta iota.
      rewrite Hmarked, Hdepth. cbn [default from_option id].
      rewrite !bool_decide_eq_false_2 by done.
      eapply (runs_bind _ _ _ [] _); apply runs_ret.
  - intros Hrp Hok Hmarked. unfold handle_propfind.
    eapply (runs_bind _ _ _ [] _); [by apply runs_make_resource_path|].
    rewrite bool_decide_eq_false_2 by done.
    eapply (runs_bind _ _ _ [_] []); [by apply propfind_self|]. cbn beta iota.
    rewrite Hmarked.
    eapply (runs_bind _ _ _ [] _); [apply runs_ret|]. cbn beta iota.
    rewrite multistatus_alone. apply runs_ret.
Qed.

Lemma Headers_get_added (headers : Headers) (name value : string) :
  Headers_get headers name = None →
  Headers_get (headers ++ [(name, value)]) name = Some value.
Proof.
  unfold Headers_get, Headers in *. rewrite filter_app.
  destruct (filter _ headers) as [|kv found]; [|done]. intros _.
  rewrite filter_cons_True by (cbn; apply String.eqb_refl). done.
Qed.

(** PROPFIND on a key whose head names a collection, when the listing is
    the recursive one. *)
Lemma propfind_recursive (request : Request.t) (env : Env) (bucket resource_path : string)
    (head : Response.t) (max_keys : nat) (pages : list Page) :
  resource_path_of (Request.url request) = Some resource_path →
  resource_path ≠ "" →
  default "infinity" (Headers_get (Request.headers request) "Depth") = "infinity" →
  Response.ok head = true →
  marked_collection (Resolved head) = true →
  forallb plain_page pages = true → chained pages = true → (length pages <= fuel)%nat →
  runs fetch (handle_propfind fetch fuel request env bucket)
    ((head_call env bucket resource_path, Resolved head)
     :: page_script env bucket (resource_path +:+ "/") true max_keys None pages)
    (Value (multistatus_response (Some (object_of_head resource_path head))
              (concat ((λ p : Page, listed_objects p.1) <$> pages)))).
Proof.
  intros Hpath Hrp Hdepth Hok Hmarked Hplain Hchain Hfuel. unfold handle_propfind.
  eapply (runs_bind _ _ _ [] _); [by apply runs_make_resource_path|].
  rewrite bool_decide_eq_false_2 by done.
  eapply (runs_bind _ _ _ [_] _); [by apply propfind_self|]. cbn beta iota.
  rewrite Hmarked, Hdepth.
  rewrite (bool_decide_eq_false_2 ("infinity" = "0")) by done.
  rewrite (bool_decide_eq_false_2 ("infinity" = "1")) by done.
  rewrite (bool_decide_eq_true_2 ("infinity" = "infinity")) by done.
  eapply (runs_script_eq _ _ (_ ++ [])); [apply List.app_nil_r|].
  eapply runs_bind.
  { eapply (runs_script_eq _ _ (_ ++ [])); [apply List.app_nil_r|].
    eapply runs_bind; [|apply runs_ret].
    by apply (listAll_pure fetch _ fuel env bucket _ true max_keys pages). }
  cbn beta iota. rewrite multistatus_listed. apply runs_ret.
Qed.

(** C10. A PROPFIND that carries no Depth header is served as the same
    request with Depth: infinity is; on a key whose head names a collection
    it lists the prefix of the key without a delimiter, page after page,
    and answers with the elements of all listed objects. *)
Theorem propfind_without_depth_is_infinite (request : Request.t) (env : Env) (bucket : string) :
  Headers_get (Request.headers request) "Depth" = None →
  (∀ st, handle_propfind fetch fuel request env bucket st
         = handle_propfind fetch fuel (with_header request "Depth" "infinity") env bucket st)
  ∧ (∀ (resource_path : string) (head : Response.t) (max_keys : nat) (pages : list Page),
       resource_path_of (Request.url request) = Some resource_path →
       resource_path ≠ "" →
       Response.ok head = true →
       marked_collection (Resolved head) = true →
       forallb plain_page pages = true → chained pages = true → (length pages <= fuel)%nat →
       runs fetch (handle_propfind fetch fuel request env bucket)
         ((head_call env bucket resource_path, Resolved head)
          :: page_script env bucket (resource_path +:+ "/") true max_keys None pages)
         (Value (multistatus_response (Some (object_of_head resource_path head))
                   (concat ((λ p : Page, listed_objects p.1) <$> pages))))).
Proof.
  intros Hdepth. split.
  - intros st. unfold handle_propfind, with_header. cbn [Request.headers Request.url].
    unfold make_resource_path. cbn [Request.url].
    by rewrite Hdepth, (Headers_get_added _ _ _ Hdepth).
  - intros resource_path head max_keys pages Hpath Hrp Hok Hmarked Hplain Hchain Hfuel.
    apply propfind_recursive; try done. by rewrite Hdepth.
Qed.

(** PROPFIND with Depth: 1 on a key whose head names a collection: the
    listing is the one with the delimiter. *)
Lemma propfind_children (request : Request.t) (env : Env) (bucket resource_path : string)
    (head : Response.t) (max_keys : nat) (pages : list Page) :
  resource_path_of (Request.url request) = Some resource_path →
  resource_path ≠ "" →
  Headers_get (Request.headers request) "Depth" = Some "1" →
  Response.ok head = true →
  marked_collection (Resolved head) = true →
  forallb plain_page pages = true → chained pages = true → (length pages <= fuel)%nat →
  runs fetch (handle_propfind fetch fuel request env bucket)
    ((head_call env bucket resource_path, Resolved head)
     :: page_script env bucket (resource_path +:+ "/") false max_keys None pages)
    (Value (multistatus_response (Some (object_of_head resource_path head))
              (concat ((λ p : Page, listed_objects p.1) <$> pages)))).
Proof.
  intros Hpath Hrp Hdepth Hok Hmarked Hplain Hchain Hfuel. unfold handle_propfind.
  eapply (runs_bind _ _ _ [] _); [by apply runs_make_resource_path|].
  rewrite bool_decide_eq_false_2 by done.
  eapply (runs_bind _ _ _ [_] _); [by apply propfind_self|]. cbn beta iota.
  rewrite Hmarked, Hdepth. cbn [default from_option id].
  rewrite (bool_decide_eq_false_2 ("1" = "0")) by done.
  rewrite (bool_decide_eq_true_2 ("1" = "1")) by done.
  eapply (runs_script_eq _ _ (_ ++ [])); [apply List.app_nil_r|].
  eapply runs_bind.
  { eapply (runs_script_eq _ _ (_ ++ [])); [apply List.app_nil_r|].
    eapply runs_bind; [|apply runs_ret].
    by apply (listAll_pure fetch _ fuel env bucket _ false max_keys pages). }
  cbn beta iota. rewrite multistatus_listed. apply runs_ret.
Qed.

(** When the objects that the pages list are two, the answer has three
    elements: the collection and the two, whatever common prefixes the
    pages carry next to them. *)
Lemma propfind_two_children (request : Request.t) (env : Env)
    (bucket resource_path : string) (head : Response.t) (max_keys : nat) (pages : list Page)
    (a b : string) (object_a object_b : S3.Object) :
  resource_path_of (Request.url request) = Some resource_path →
  resource_path ≠ "" →
  Headers_get (Request.headers request) "Depth" = Some "1" →
  Response.ok head = true →
  marked_collection (Resolved head) = true →
  forallb plain_page pages = true → chained pages = true → (length pages <= fuel)%nat →
  concat ((λ p : Page, listed_objects p.1) <$> pages)
  = [listed_object a object_a; listed_object b object_b] →
  runs fetch (handle_propfind fetch fuel request env bucket)
    ((head_call env bucket resource_path, Resolved head)
     :: page_script env bucket (resource_path +:+ "/") false max_keys None pages)
    (Value (new_Response_with
              (Some (multistatus_open
                     +:+ generate_propfind_response (Some (object_of_head resource_path head))
                     +:+ generate_propfind_response (Some (listed_object a object_a))
                     +:+ generate_propfind_response (Some (listed_object b object_b))
                     +:+ multistatus_close))
              207 [("Content-Type", "text/xml")])).
Proof.
  intros Hpath Hrp Hdepth Hok Hmarked Hplain Hchain Hfuel Hlisted.
  pose proof (propfind_children request env bucket resource_path head max_keys pages
                Hpath Hrp Hdepth Hok Hmarked Hplain Hchain Hfuel) as Hrun.
  rewrite Hlisted in Hrun. unfold multistatus_response, multistatus in Hrun.
  cbn [fmap list_fmap String.concat] in Hrun. by rewrite !str_app_assoc in Hrun.
Qed.

End Propfind.

(** ** MOVE: the deletion of the sources *)

Section Move.

Context `{Runtime}.
Context {World : Type}.
Variable fetch : Request.t -> World -> FetchOutcome * World.
Variable fuel : nat.

Lemma runs_copy_object (env : Env) (bucket target source : string) (response : Response.t) :
  runs fetch (copy_object fetch env bucket target source)
    [(copy_call env bucket target source, Resolved response)] (Value response).
Proof. apply runs_fetch_resolved. Qed.



Lemma all_fulfilled (objs : list S3Object) (promise_array : list Settled) :
  Forall (λ p, p = None) promise_array →
  Forall (λ p, p = None) (foldl (λ promise_array (_ : S3Object), promise_array ++ [None])
                            promise_array objs).
Proof.
  revert promise_array. induction objs as [|o objs IH]; intros promise_array Hall; [done|].
  simpl. apply IH. apply Forall_app. split; [done|]. by repeat constructor.
Qed.

Lemma runs_Promise_all (promise_array : list Settled) :
  Forall (λ p, p = None) promise_array →
  runs fetch (Promise_all promise_array) [] (Value tt).
Proof.
  induction promise_array as [|p promise_array IH]; intros Hall; [apply runs_ret|].
  apply Forall_cons in Hall as [-> Hall]. by apply IH.
Qed.


End Move.

(** ** The properties of a record *)




(** ** The children of a collection on the reference store *)

#[local] Existing Instance Example.rt.

Lemma entry_of_member (name : string) (o : S3.Object) :
  S3.entry_of "c/" (Some "/") ("c/b/" +:+ name, o) = Some (S3.CommonPrefix "c/b/").
Proof. reflexivity. Qed.

Lemma merge_one_prefix {A} (p : string) (l : list A) :
  S3.merge_prefixes ((λ _, S3.CommonPrefix p) <$> l)
  = match l with [] => [] | _ => [S3.CommonPrefix p] end.
Proof.
  induction l as [|x l IH]; [done|]. cbn [fmap list_fmap S3.merge_prefixes].
  change (list_fmap A S3.Entry (λ _, S3.CommonPrefix p) l)
    with ((λ _ : A, S3.CommonPrefix p) <$> l).
  rewrite IH. destruct l; [done|]. by rewrite String.eqb_refl.
Qed.

Lemma entries_of_family (a_object : S3.Object) (modified_c modified_b : Z)
    (members : list (string * S3.Object)) :
  S3.entries (S3.objects (Example.family a_object modified_c modified_b members)) "c/" (Some "/")
  = S3.Content "c/a" a_object
    :: S3.Content "c/b" (Example.collection_object modified_b)
    :: match members with [] => [] | _ => [S3.CommonPrefix "c/b/"] end.
Proof.
  assert (omap (S3.entry_of "c/" (Some "/"))
            ((λ member : string * S3.Object, ("c/b/" +:+ member.1, member.2)) <$> members)
          = (λ _, S3.CommonPrefix "c/b/") <$> members) as Hmembers.
  { induction members as [|member members IH]; [done|].
    rewrite !fmap_cons. cbn [omap list_omap]. rewrite entry_of_member. f_equal. apply IH. }
  unfold S3.entries, Example.family. cbn [S3.objects].
  change (omap ?f (?x1 :: ?x2 :: ?x3 :: ?l)) with (omap f [x1; x2; x3] ++ omap f l).
  rewrite Hmembers.
  change (omap (S3.entry_of "c/" (Some "/")) _)
    with [S3.Content "c/a" a_object; S3.Content "c/b" (Example.collection_object modified_b)].
  cbn [app S3.merge_prefixes]. by rewrite merge_one_prefix.
Qed.

(** The answer of the reference store to the listing of the children. *)
Lemma children_of_family (a_object : S3.Object) (modified_c modified_b : Z)
    (members : list (string * S3.Object)) :
  Example.store (list_call Example.env Example.bucket "c/" false None)
    (Example.family a_object modified_c modified_b members)
  = (Resolved
       (listing_response
          (S3.render_page Example.bucket "c/" (Some "/") 1000
             (S3.entries (S3.objects (Example.family a_object modified_c modified_b members))
                "c/" (Some "/"))
             None)),
     Example.family a_object modified_c modified_b members).
Proof.
  unfold Example.store, S3.fetch.
  change (S3.fault (Example.family _ _ _ _) _) with false. cbv iota.
  replace (S3.parse_url Example.env Example.bucket
             (Request.url (list_call Example.env Example.bucket "c/" false None)))
    with (Some (@None string, [("list-type", "2"); ("prefix", "c/"); ("delimiter", "/")]))
    by (vm_compute; reflexivity).
  cbv beta iota zeta.
  change (Request.method (list_call _ _ _ _ _)) with "GET".
  change (String.eqb "GET" "GET") with true. cbv iota.
  change (S3.lookup_param "continuation-token" _) with (@None string).
  change (S3.lookup_param "delimiter" _) with (Some "/").
  change (default "" (S3.lookup_param "prefix" _)) with "c/".
  change (S3.max_keys (Example.family _ _ _ _)) with 1000%nat.
  rewrite entries_of_family. by destruct members.
Qed.

(** The answer of the reference store to the head of the collection. *)
Lemma head_of_family (a_object : S3.Object) (modified_c modified_b : Z)
    (members : list (string * S3.Object)) :
  Example.store (head_call Example.env Example.bucket "c")
    (Example.family a_object modified_c modified_b members)
  = (S3.respond 200 (S3.head_headers (Example.collection_object modified_c)) "",
     Example.family a_object modified_c modified_b members).
Proof. reflexivity. Qed.

(** PROPFIND with Depth: 1 on the collection [c] of the bucket, run on the
    reference store: the answer has the element of [c], the element of
    [c/a] and the element of [c/b], and nothing for the members of [c/b],
    whatever they are and however many; the store is asked for the head of
    [c] and for one page of its children, and is left as it was. *)
Lemma propfind_children_of_family (a_object : S3.Object) (modified_c modified_b : Z)
    (members : list (string * S3.Object)) :
  Example.propfind
    (Example.request "PROPFIND" "http://dav.example.com/c" [("Depth", "1")] "")
    Example.env Example.bucket
    (initial (Example.family a_object modified_c modified_b members))
  = (Value
       (new_Response_with
          (Some (multistatus_open
                 +:+ generate_propfind_response
                       (Some (object_of_head "c"
                                (Response.mk (Some "") 200 ""
                                   (S3.head_headers (Example.collection_object modified_c)))))
                 +:+ generate_propfind_response (Some (listed_object "c/a" a_object))
                 +:+ generate_propfind_response
                       (Some (listed_object "c/b" (Example.collection_object modified_b)))
                 +:+ multistatus_close))
          207 [("Content-Type", "text/xml")]),
     {| world := Example.family a_object modified_c modified_b members;
        trace := [head_call Example.env Example.bucket "c";
                  list_call Example.env Example.bucket "c/" false None] |}).
Proof.
  set (b := Example.family a_object modified_c modified_b members).
  pose proof (propfind_children Example.store 8
                (Example.request "PROPFIND" "http://dav.example.com/c" [("Depth", "1")] "")
                Example.env Example.bucket "c"
                (Response.mk (Some "") 200 ""
                   (S3.head_headers (Example.collection_object modified_c)))
                1000
                [(S3.entries (S3.objects b) "c/" (Some "/"), None)]) as Hrun.
  unfold b in Hrun. rewrite entries_of_family in Hrun. fold b in Hrun.
  unfold Example.propfind, initial.
  rewrite (Hrun ltac:(vm_compute; reflexivity) ltac:(discriminate)
             ltac:(vm_compute; reflexivity) ltac:(reflexivity) ltac:(vm_compute; reflexivity)
             ltac:(by destruct members) ltac:(reflexivity) ltac:(cbn; lia) b [] b).
  - f_equal. f_equal. unfold multistatus_response, multistatus. f_equal. f_equal.
    destruct members; cbn [fmap list_fmap concat app listed_objects omap list_omap
                            String.concat fst]; by rewrite ?str_app_assoc.
  - cbn [page_script answers]. exists b. split; [apply head_of_family|].
    exists b. split; [|done]. unfold b.
    rewrite <-(entries_of_family a_object modified_c modified_b members).
    apply children_of_family.
Qed.

(** C5. PROPFIND with Depth: 1 on a key whose head names a collection lists
    the prefix of the key with the delimiter and answers 207 with the
    element of the collection and one element for each object that the
    pages list: when the objects listed are the two children, a plain
    resource and a collection with its marker object, the answer has
    exactly these three elements, whatever common prefixes the pages carry
    for what lies below the children.  On the reference store, a
    collection with the children [c/a] and [c/b] is answered with these
    three elements whatever members [c/b] has, and however many. *)
Theorem propfind_depth_one_lists_children :
  (∀ `{Runtime} (World : Type) (fetch : Request.t → World → FetchOutcome * World) (fuel : nat)
     (request : Request.t) (env : Env) (bucket resource_path : string) (head : Response.t)
     (max_keys : nat) (pages : list Page) (a b : string) (object_a object_b : S3.Object),
     resource_path_of (Request.url request) = Some resource_path →
     resource_path ≠ "" →
     Headers_get (Request.headers request) "Depth" = Some "1" →
     Response.ok head = true →
     marked_collection (Resolved head) = true →
     forallb plain_page pages = true → chained pages = true → (length pages <= fuel)%nat →
     concat ((λ p : Page, listed_objects p.1) <$> pages)
     = [listed_object a object_a; listed_object b object_b] →
     runs fetch (handle_propfind fetch fuel request env bucket)
       ((head_call env bucket resource_path, Resolved head)
        :: page_script env bucket (resource_path +:+ "/") false max_keys None pages)
       (Value (new_Response_with
                 (Some (multistatus_open
                        +:+ generate_propfind_response
                              (Some (object_of_head resource_path head))
                        +:+ generate_propfind_response (Some (listed_object a object_a))
                        +:+ generate_propfind_response (Some (listed_object b object_b))
                        +:+ multistatus_close))
                 207 [("Content-Type", "text/xml")])))
  ∧ (∀ (a_object : S3.Object) (modified_c modified_b : Z) (members : list (string * S3.Object)),
       Example.propfind
         (Example.request "PROPFIND" "http://dav.example.com/c" [("Depth", "1")] "")
         Example.env Example.bucket
         (initial (Example.family a_object modified_c modified_b members))
       = (Value
            (new_Response_with
               (Some (multistatus_open
                      +:+ generate_propfind_response
                            (Some (object_of_head "c"
                                     (Response.mk (Some "") 200 ""
                                        (S3.head_headers
                                           (Example.collection_object modified_c)))))
                      +:+ generate_propfind_response (Some (listed_object "c/a" a_object))
                      +:+ generate_propfind_response
                            (Some (listed_object "c/b" (Example.collection_object modified_b)))
                      +:+ multistatus_close))
               207 [("Content-Type", "text/xml")]),
          {| world := Example.family a_object modified_c modified_b members;
             trace := [head_call Example.env Example.bucket "c";
                       list_call Example.env Example.bucket "c/" false None] |})).
Proof.
  split.
  - intros R World fetch fuel request env bucket resource_path head max_keys pages a b
      object_a object_b. apply propfind_two_children.
  - apply propfind_children_of_family.
Qed.

(** ** Runs against the reference store *)

Lemma answers_follows {World} (fetch : Request.t → World → FetchOutcome * World)
    (script : list (Request.t * FetchOutcome)) (w w_end : World) :
  follows fetch script w = Some w_end → answers fetch script w w_end.
Proof.
  revert w. induction script as [|[call outcome] rest IH]; intros w; cbn [follows answers].
  - congruence.
  - case_bool_decide as Houtcome; [|done]. intros Hrest.
    exists (fetch call w).2. split; [|by apply IH].
    rewrite <-Houtcome. apply surjective_pairing.
Qed.

(** A run from a state of the store with nothing recorded: the script is
    checked by running the store, and the run of the handler is replaced
    by its result and final state. *)
Ltac replay Hrun w w_end :=
  lazymatch type of Hrun with
  | runs ?fetch ?m ?script ?result =>
      let Hfollows := fresh "Hfollows" in
      assert (Hfollows : follows fetch script w = Some w_end) by (vm_compute; reflexivity);
      unfold initial;
      rewrite (Hrun w [] w_end (answers_follows fetch script w w_end Hfollows))
  end.


Lemma S3_head_is_pure (env : Env) (bucket : string) : head_is_pure (S3.fetch env bucket).
Proof.
  intros call b Hmethod. unfold S3.fetch. rewrite Hmethod.
  destruct (S3.fault b call); [done|].
  destruct (S3.parse_url env bucket (Request.url call)) as [[[k|] params]|];
    [|done..].
  change (String.eqb "HEAD" "HEAD") with true. cbv iota.
  by destruct (S3.lookup_object k (S3.objects b)).
Qed.

Lemma propfind_depth_of_collections_witness :
  Example.status_of
    (Example.propfind
       (Example.request "PROPFIND" "http://dav.example.com/c" [("Depth", "2")] "")
       Example.env Example.bucket (initial Example.tree))
  = Some 403.
Proof.
  destruct (propfind_depth_of_collections Example.store 8
              (Example.request "PROPFIND" "http://dav.example.com/c" [("Depth", "2")] "")
              Example.env Example.bucket "c" "2"
              (Example.answer (head_call Example.env Example.bucket "c") Example.tree)
              ltac:(vm_compute; reflexivity)) as [Hcollection _].
  destruct (Hcollection ltac:(vm_compute; reflexivity) ltac:(discriminate) ltac:(discriminate)
              ltac:(discriminate)) as [_ Hrun].
  specialize (Hrun ltac:(discriminate) ltac:(vm_compute; reflexivity)
                ltac:(vm_compute; reflexivity)).
  unfold Example.status_of, Example.propfind.
  replay Hrun Example.tree Example.tree. reflexivity.
Defined.

(** A plain resource answers a request with another depth with its own
    properties. *)
Lemma propfind_depth_of_plain_resource :
  Headers_get [("Depth", "2")] "Depth" = Some "2"
  ∧ Example.status_of
      (Example.propfind
         (Example.request "PROPFIND" "http://dav.example.com/f" [("Depth", "2")] "")
         Example.env Example.bucket (initial Example.tree))
    = Some 207.
Proof. split; vm_compute; reflexivity. Qed.

Lemma put_checks_then_writes_witness :
  Example.status_of
    (Example.put
       (Example.request "PUT" "http://dav.example.com/c/n" [("Content-Type", "text/plain")] "new")
       Example.env Example.bucket (initial Example.tree))
  = Some 201
  ∧ Example.keys
      (Example.after Example.put
         (Example.request "PUT" "http://dav.example.com/c/n" [("Content-Type", "text/plain")]
            "new")
         Example.tree)
    = ["c"; "c/a"; "c/b"; "c/b/g1"; "c/b/g2"; "c/n"; "f"].
Proof.
  destruct (put_checks_then_writes Example.store
              (Example.request "PUT" "http://dav.example.com/c/n"
                 [("Content-Type", "text/plain")] "new")
              Example.env Example.bucket "/c/n" "c/n"
              (Example.outcome (head_call Example.env Example.bucket "c") Example.tree)
              (Example.outcome
                 (put_call Example.env Example.bucket "c/n" [("Content-Type", "text/plain")] "new")
                 Example.tree)
              ltac:(vm_compute; reflexivity) ltac:(vm_compute; reflexivity)
              ltac:(vm_compute; reflexivity))
    as (_ & Hput & _).
  destruct (Hput ltac:(vm_compute; reflexivity)) as [_ Hrun].
  specialize (Hrun ltac:(vm_compute; reflexivity)).
  unfold Example.status_of, Example.after, Example.put.
  replay Hrun Example.tree
    (Example.store
       (put_call Example.env Example.bucket "c/n" [("Content-Type", "text/plain")] "new")
       Example.tree).2.
  split; vm_compute; reflexivity.
Defined.

(** A write that the store refuses: the parent is a collection, the key is
    sent to the store, and the handler fails with the error of the store
    in place of an answer. *)
Lemma put_refused_by_store :
  URL_pathname "http://dav.example.com/c/n" = Some "/c/n"
  ∧ Js.endsWith "/c/n" "/" = false
  ∧ marked_collection
      (Example.outcome (head_call Example.env Example.bucket "c") Example.tree_no_put)
    = true
  ∧ (Example.put (Example.request "PUT" "http://dav.example.com/c/n" [] "new")
       Example.env Example.bucket (initial Example.tree_no_put)).1
    = Throw "S3 API error: 500 "
  ∧ Example.status_of
      (Example.put (Example.request "PUT" "http://dav.example.com/c/n" [] "new")
         Example.env Example.bucket (initial Example.tree_no_put))
    = None.
Proof. repeat split; vm_compute; reflexivity. Qed.

(** A URL whose path ends with a slash and that carries a query does not
    end with a slash: the body is stored under the key without the slash,
    where the path of the resource is normalized from the path alone. *)
Lemma put_under_path_with_slash :
  URL_pathname "http://dav.example.com/dir/?x=1" = Some "/dir/"
  ∧ Js.endsWith "/dir/" "/" = true
  ∧ Example.status_of
      (Example.put (Example.request "PUT" "http://dav.example.com/dir/?x=1" [] "body")
         Example.env Example.bucket (initial Example.empty))
    = Some 201
  ∧ Example.keys
      (Example.after Example.put
         (Example.request "PUT" "http://dav.example.com/dir/?x=1" [] "body") Example.empty)
    = ["dir"].
Proof. repeat split; vm_compute; reflexivity. Qed.

Lemma copy_refuses_to_overwrite_witness :
  Example.copy
    (Example.request "COPY" "http://dav.example.com/f"
       [("Destination", "http://dav.example.com/c/a"); ("Overwrite", "F")] "")
    Example.env Example.bucket (initial Example.tree)
  = (Value (new_Response (Some "Precondition Failed") 412),
     {| world := Example.tree;
        trace := [head_call Example.env Example.bucket "c";
                  head_call Example.env Example.bucket "c/a"] |}).
Proof.
  destruct (copy_refuses_to_overwrite Example.store 8
              (Example.request "COPY" "http://dav.example.com/f"
                 [("Destination", "http://dav.example.com/c/a"); ("Overwrite", "F")] "")
              Example.env Example.bucket "f" "c/a"
              (Example.outcome (head_call Example.env Example.bucket "c") Example.tree)
              (Example.outcome (head_call Example.env Example.bucket "c/a") Example.tree)
              ltac:(vm_compute; reflexivity) ltac:(vm_compute; reflexivity)
              ltac:(vm_compute; reflexivity) ltac:(intros _; vm_compute; reflexivity)
              ltac:(vm_compute; reflexivity))
    as (Hrun & _ & Hpure).
  unfold Example.copy.
  replay Hrun Example.tree Example.tree. reflexivity.
Defined.

(** A destination that exists under a parent that does not: the answer to
    a copy that must not overwrite is 409. *)
Lemma copy_onto_key_without_parent :
  Example.keys Example.tree_with_orphan = ["c"; "c/a"; "c/b"; "c/b/g1"; "c/b/g2"; "f"; "x/y"]
  ∧ destination_key
      (Example.request "COPY" "http://dav.example.com/f"
         [("Destination", "http://dav.example.com/x/y"); ("Overwrite", "F")] "")
    = Some "x/y"
  ∧ Example.status_of
      (Example.copy
         (Example.request "COPY" "http://dav.example.com/f"
            [("Destination", "http://dav.example.com/x/y"); ("Overwrite", "F")] "")
         Example.env Example.bucket (initial Example.tree_with_orphan))
    = Some 409.
Proof. repeat split; vm_compute; reflexivity. Qed.

Lemma propfind_depth_one_lists_children_witness :
  Example.keys Example.tree = ["c"; "c/a"; "c/b"; "c/b/g1"; "c/b/g2"; "f"]
  ∧ Example.status_of
      (Example.propfind
         (Example.request "PROPFIND" "http://dav.example.com/c" [("Depth", "1")] "")
         Example.env Example.bucket (initial Example.tree))
    = Some 207
  ∧ (λ body, Js.occurrences body "<response>")
    <$> Example.body_of
          (Example.propfind
             (Example.request "PROPFIND" "http://dav.example.com/c" [("Depth", "1")] "")
             Example.env Example.bucket (initial Example.tree))
    = Some 3%nat.
Proof.
  split; [reflexivity|].
  pose proof (proj1 propfind_depth_one_lists_children Example.rt S3.Bucket Example.store 8%nat
                (Example.request "PROPFIND" "http://dav.example.com/c" [("Depth", "1")] "")
                Example.env Example.bucket "c"
                (Example.answer (head_call Example.env Example.bucket "c") Example.tree) 2%nat
                (Example.pages_of Example.tree "c/" (Some "/") [None; Some "c/b"])
                "c/a" "c/b"
                (default (S3.Build_Object "" [] 0) (S3.lookup_object "c/a" (S3.objects Example.tree)))
                (default (S3.Build_Object "" [] 0) (S3.lookup_object "c/b" (S3.objects Example.tree)))
                ltac:(vm_compute; reflexivity) ltac:(discriminate) ltac:(vm_compute; reflexivity)
                ltac:(vm_compute; reflexivity) ltac:(vm_compute; reflexivity)
                ltac:(vm_compute; reflexivity) ltac:(vm_compute; reflexivity)
                ltac:(vm_compute; lia) ltac:(vm_compute; reflexivity)) as Hrun.
  unfold Example.status_of, Example.body_of, Example.propfind.
  replay Hrun Example.tree Example.tree.
  split; vm_compute; reflexivity.
Defined.




Lemma destination_checks_precede_source_witness :
  Example.outcome (head_call Example.env Example.bucket "nowhere") Example.tree
  = S3.respond 404 [] ""
  ∧ Example.copy
      (Example.request "COPY" "http://dav.example.com/nowhere"
         [("Destination", "http://dav.example.com/gone/x")] "")
      Example.env Example.bucket (initial Example.tree)
    = (Value (new_Response (Some "Conflict") 409),
       {| world := Example.tree; trace := [head_call Example.env Example.bucket "gone"] |})
  ∧ Example.move
      (Example.request "MOVE" "http://dav.example.com/nowhere"
         [("Destination", "http://dav.example.com/gone/x")] "")
      Example.env Example.bucket (initial Example.tree)
    = (Value (new_Response (Some "Conflict") 409),
       {| world := Example.tree; trace := [head_call Example.env Example.bucket "gone"] |}).
Proof.
  split; [reflexivity|]. split.
  - destruct (destination_checks_precede_source Example.store 8
                (Example.request "COPY" "http://dav.example.com/nowhere"
                   [("Destination", "http://dav.example.com/gone/x")] "")
                Example.env Example.bucket "nowhere" "gone/x"
                (Example.outcome (head_call Example.env Example.bucket "gone") Example.tree)
                (Example.outcome (head_call Example.env Example.bucket "gone/x") Example.tree)
                ltac:(vm_compute; reflexivity) ltac:(vm_compute; reflexivity))
      as [Hconflict _].
    destruct (Hconflict ltac:(vm_compute; discriminate) ltac:(vm_compute; reflexivity))
      as [Hrun _].
    unfold Example.copy. replay Hrun Example.tree Example.tree. reflexivity.
  - destruct (destination_checks_precede_source Example.store 8
                (Example.request "MOVE" "http://dav.example.com/nowhere"
                   [("Destination", "http://dav.example.com/gone/x")] "")
                Example.env Example.bucket "nowhere" "gone/x"
                (Example.outcome (head_call Example.env Example.bucket "gone") Example.tree)
                (Example.outcome (head_call Example.env Example.bucket "gone/x") Example.tree)
                ltac:(vm_compute; reflexivity) ltac:(vm_compute; reflexivity))
      as [Hconflict _].
    destruct (Hconflict ltac:(vm_compute; discriminate) ltac:(vm_compute; reflexivity))
      as [_ Hrun].
    unfold Example.move. replay Hrun Example.tree Example.tree. reflexivity.
Defined.


Lemma propfind_without_depth_is_infinite_witness :
  Example.propfind (Example.request "PROPFIND" "http://dav.example.com/c" [] "")
    Example.env Example.bucket (initial Example.tree)
  = Example.propfind
      (Example.request "PROPFIND" "http://dav.example.com/c" [("Depth", "infinity")] "")
      Example.env Example.bucket (initial Example.tree)
  ∧ (λ body, Js.occurrences body "<response>")
    <$> Example.body_of
          (Example.propfind (Example.request "PROPFIND" "http://dav.example.com/c" [] "")
             Example.env Example.bucket (initial Example.tree))
    = Some 5%nat.
Proof.
  destruct (propfind_without_depth_is_infinite Example.store 8
              (Example.request "PROPFIND" "http://dav.example.com/c" [] "")
              Example.env Example.bucket ltac:(vm_compute; reflexivity))
    as [Hsame Hrun].
  split; [apply Hsame|].
  specialize (Hrun "c"
                (Example.answer (head_call Example.env Example.bucket "c") Example.tree) 2%nat
                (Example.pages_of Example.tree "c/" None [None; Some "c/b"])
                ltac:(vm_compute; reflexivity) ltac:(discriminate)
                ltac:(vm_compute; reflexivity) ltac:(vm_compute; reflexivity)
                ltac:(vm_compute; reflexivity) ltac:(vm_compute; reflexivity)
                ltac:(vm_compute; lia)).
  unfold Example.body_of, Example.propfind.
  replay Hrun Example.tree Example.tree.
  vm_compute; reflexivity.
Defined.

(** ** Paths *)

Lemma endsWith_app (s p : string) : Js.endsWith (s +:+ p) p = true.
Proof.
  unfold Js.endsWith. rewrite str_length_app.
  replace (String.length s + String.length p - String.length p)%nat
    with (String.length s) by lia.
  rewrite drop_app, String.eqb_refl, andb_true_r. apply Nat.leb_le. lia.
Qed.

Lemma endsWith_cons (c d p : ascii) (s : string) :
  Js.endsWith (String c (String d s)) (String p "") = Js.endsWith (String d s) (String p "").
Proof.
  unfold Js.endsWith. cbn [String.length Nat.leb].
  replace (S (S (String.length s)) - 1)%nat with (S (String.length s)) by lia.
  replace (S (String.length s) - 1)%nat with (String.length s) by lia.
  done.
Qed.

(** Whether a text ends with a character is decided by what follows a
    prefix, when something follows. *)
Lemma endsWith_after (a s : string) (p : ascii) :
  s ≠ "" → Js.endsWith (a +:+ s) (String p "") = Js.endsWith s (String p "").
Proof.
  intros Hs. induction a as [|c a IH]; [done|].
  rewrite str_app_cons. destruct (a +:+ s) as [|d t] eqn:E.
  - destruct a; [|done]. by rewrite str_app_nil_l in E.
  - by rewrite endsWith_cons.
Qed.

Lemma cut_here (needle s : string) : Js.cut needle (needle +:+ s) = Some ("", s).
Proof.
  destruct needle as [|c needle].
  - rewrite str_app_nil_l. by destruct s.
  - rewrite str_app_cons, cut_cons, <-str_app_cons, startsWith_app. by rewrite drop_app.
Qed.

Lemma cut_first (c : ascii) (needle before after : string) :
  charIn c before = false →
  Js.cut (String c needle) (before +:+ String c needle +:+ after) = Some (before, after).
Proof.
  intros Hno. rewrite cut_text by done. rewrite cut_here. cbn. by rewrite str_app_nil_r.
Qed.

(** *** Segments *)

Lemma split_nonempty (c : ascii) (s : string) : Js.split c s ≠ [].
Proof.
  induction s as [|d s IH]; [done|]. cbn [Js.split].
  destruct (Ascii.eqb d c); [done|]. by destruct (Js.split c s).
Qed.

Lemma split_plain (c : ascii) (s : string) : charIn c s = false → Js.split c s = [s].
Proof.
  induction s as [|d s IH]; [done|]. intros Hno.
  simpl in Hno. apply orb_false_elim in Hno as [Hd Hno].
  cbn [Js.split]. rewrite Ascii.eqb_sym, Hd. by rewrite IH.
Qed.

Lemma split_app (c : ascii) (a b : string) :
  Js.split c (a +:+ String c b) = Js.split c a ++ Js.split c b.
Proof.
  induction a as [|d a IH].
  - rewrite str_app_nil_l. cbn [Js.split]. by rewrite Ascii.eqb_refl.
  - rewrite str_app_cons. cbn [Js.split]. rewrite IH.
    destruct (Ascii.eqb d c); [done|].
    pose proof (split_nonempty c a). by destruct (Js.split c a).
Qed.

Lemma join_split (c : ascii) (s : string) : Js.join (String c "") (Js.split c s) = s.
Proof.
  induction s as [|d s IH]; [done|]. cbn [Js.split].
  pose proof (split_nonempty c s) as Hne.
  destruct (Ascii.eqb d c) eqn:E.
  - apply Ascii.eqb_eq in E as ->.
    destruct (Js.split c s) as [|h t] eqn:Hsplit; [done|].
    change (Js.join (String c "") ("" :: h :: t))
      with ("" +:+ String c "" +:+ Js.join (String c "") (h :: t)).
    by rewrite IH.
  - destruct (Js.split c s) as [|h t] eqn:Hsplit; [done|].
    destruct t as [|h' t].
    + cbn [Js.join] in *. by rewrite IH.
    + change (Js.join (String c "") (String d h :: h' :: t))
        with (String d h +:+ String c "" +:+ Js.join (String c "") (h' :: t)).
      change (Js.join (String c "") (h :: h' :: t))
        with (h +:+ String c "" +:+ Js.join (String c "") (h' :: t)) in IH.
      by rewrite str_app_cons, IH.
Qed.

Lemma slice_last {A} (l : list A) (x : A) : Js.slice_to_neg 1 (l ++ [x]) = l.
Proof.
  unfold Js.slice_to_neg. rewrite length_app. cbn [length].
  replace (length l + 1 - 1)%nat with (length l) by lia.
  by rewrite firstn_app, Nat.sub_diag, firstn_all, List.app_nil_r.
Qed.

Lemma dirname_of_last (parent name : string) :
  charIn "/" name = false → dirname_of (parent +:+ "/" +:+ name) = parent.
Proof.
  intros Hname. unfold dirname_of.
  change ("/" +:+ name) with (String "/" name).
  rewrite split_app, (split_plain "/" name) by done.
  by rewrite slice_last, join_split.
Qed.

(** X24.  The parent of a resource is the path without its last segment; a
    resource at the top has the empty parent, which is the root. *)
Theorem dirname_of_child (parent name : string) :
  charIn "/" name = false →
  dirname_of (parent +:+ "/" +:+ name) = parent
  ∧ dirname_of name = "".
Proof.
  intros Hname. split; [by apply dirname_of_last|].
  unfold dirname_of. by rewrite split_plain.
Qed.

Lemma endsWith_char (s : string) (c : ascii) :
  Js.endsWith s (String c "") = true → charIn c s = true.
Proof.
  induction s as [|d s IH]; [done|]. destruct s as [|e s].
  - unfold Js.endsWith. cbn [String.length Nat.leb Nat.sub Js.drop andb].
    intros E. apply String.eqb_eq in E as [= ->]. cbn [charIn].
    by rewrite Ascii.eqb_refl.
  - rewrite endsWith_cons. intros E.
    change (charIn c (String d (String e s))) with (Ascii.eqb c d || charIn c (String e s)).
    rewrite (IH E). apply orb_true_r.
Qed.

(** X25.  The parent of the destination of COPY and MOVE is its parent as for
    PUT, when the destination does not end in a slash; of a destination
    that still ends in a slash, as the path of a Destination that ends in
    two slashes does, the last two segments are dropped. *)
Theorem destination_parent_of_child (parent name : string) :
  charIn "/" name = false →
  (name ≠ "" → destination_parent_of (parent +:+ "/" +:+ name) = parent)
  ∧ destination_parent_of (parent +:+ "/" +:+ name +:+ "/") = parent.
Proof.
  intros Hname. unfold destination_parent_of. split.
  - intros Hne. rewrite (endsWith_after parent ("/" +:+ name)) by done.
    rewrite (endsWith_after "/" name) by done.
    assert (Js.endsWith name "/" = false) as ->.
    { destruct (Js.endsWith name "/") eqn:E; [|done].
      apply endsWith_char in E. congruence. }
    by apply dirname_of_last.
  - rewrite <-!str_app_assoc, endsWith_app, !str_app_assoc.
    change ("/" +:+ name +:+ "/") with (String "/" (name +:+ String "/" "")).
    rewrite !split_app, (split_plain "/" name) by done.
    change (Js.split "/" "") with [""].
    unfold Js.slice_to_neg. rewrite !length_app. cbn [length].
    replace (length (Js.split "/" parent) + (1 + 1) - 2)%nat
      with (length (Js.split "/" parent)) by lia.
    by rewrite firstn_app, Nat.sub_diag, firstn_all, List.app_nil_r, join_split.
Qed.

(** X26.  The target of a descendant of a collection that is copied or moved:
    the part of its key after the prefix of the collection, put under the
    destination. *)
Theorem target_of_descendant (destination resource_path rest : string) :
  rest ≠ "" →
  Js.endsWith rest "/" = false →
  target_of destination (resource_path +:+ "/") ((resource_path +:+ "/") +:+ rest)
  = destination +:+ "/" +:+ rest.
Proof.
  intros Hne Hend. unfold target_of. rewrite drop_app.
  rewrite (endsWith_after destination ("/" +:+ rest)) by done.
  by rewrite (endsWith_after "/" rest), Hend.
Qed.

(** ** Credentials *)

Lemma N_of_ascii_bound (c : ascii) : (N_of_ascii c < 256)%N.
Proof. apply N_ascii_bounded. Qed.

Lemma N_of_ascii_inj (c d : ascii) : N_of_ascii c = N_of_ascii d → c = d.
Proof. intros E. by rewrite <-(ascii_N_embedding c), <-(ascii_N_embedding d), E. Qed.

Lemma utf8_inj (c d : ascii) (s t : list N) :
  Web.utf8 c ++ s = Web.utf8 d ++ t → c = d ∧ s = t.
Proof.
  unfold Web.utf8.
  pose proof (N_of_ascii_bound c) as Hc. pose proof (N_of_ascii_bound d) as Hd.
  pose proof (N.div_mod (N_of_ascii c) 64 ltac:(done)) as Ec.
  pose proof (N.div_mod (N_of_ascii d) 64 ltac:(done)) as Ed.
  pose proof (N.mod_lt (N_of_ascii c) 64 ltac:(done)) as Mc.
  pose proof (N.mod_lt (N_of_ascii d) 64 ltac:(done)) as Md.
  destruct (N.ltb_spec (N_of_ascii c) 128), (N.ltb_spec (N_of_ascii d) 128); cbn [app].
  - intros [= E1 E2]. split; [by apply N_of_ascii_inj|done].
  - intros [= E1 E2]. lia.
  - intros [= E1 E2]. lia.
  - intros [= E1 E2 E3]. split; [|done]. apply N_of_ascii_inj. lia.
Qed.

Lemma TextEncoder_encode_inj (s t : string) :
  Web.TextEncoder_encode s = Web.TextEncoder_encode t → s = t.
Proof.
  revert t. induction s as [|c s IH]; intros [|d t]; cbn [Web.TextEncoder_encode].
  - done.
  - unfold Web.utf8. by destruct (_ <? _)%N.
  - unfold Web.utf8. by destruct (_ <? _)%N.
  - intros E. apply utf8_inj in E as [-> E]. f_equal. by apply IH.
Qed.

Lemma is_authorized_iff (authorization_header username password : string) :
  is_authorized authorization_header username password = true
  ↔ authorization_header = "Basic " +:+ Web.btoa (username +:+ ":" +:+ password).
Proof.
  unfold is_authorized, Web.timingSafeEqual. split.
  - intros E. apply andb_prop in E as [_ E]. apply bool_decide_eq_true in E.
    by apply TextEncoder_encode_inj.
  - intros ->. rewrite Nat.eqb_refl. by rewrite bool_decide_eq_true_2.
Qed.

(** *** Base 64 *)

Lemma base64_digit_place (i : N) :
  (i < 64)%N →
  String.index 0 (String (Web.base64_digit i) "") Web.base64_alphabet = Some (N.to_nat i).
Proof.
  intros Hi.
  assert (forallb (λ n, bool_decide
                          (String.index 0 (String (Web.base64_digit (N.of_nat n)) "")
                             Web.base64_alphabet = Some n))
                  (seq 0 64) = true) as Hall by (vm_compute; reflexivity).
  rewrite forallb_forall in Hall.
  specialize (Hall (N.to_nat i)). rewrite N2Nat.id in Hall.
  eapply bool_decide_eq_true_1, Hall, in_seq. lia.
Qed.

Lemma base64_digit_inj (i j : N) :
  (i < 64)%N → (j < 64)%N → Web.base64_digit i = Web.base64_digit j → i = j.
Proof.
  intros Hi Hj E. pose proof (base64_digit_place i Hi) as Pi.
  rewrite E, (base64_digit_place j Hj) in Pi. injection Pi as Pi. lia.
Qed.

Lemma base64_digit_not_pad (i : N) : (i < 64)%N → Web.base64_digit i ≠ "="%char.
Proof. intros Hi E. pose proof (base64_digit_place i Hi) as Pi. by rewrite E in Pi. Qed.

Lemma N_split (a d : N) :
  (d ≠ 0 → ∃ q r, a / d = q ∧ a mod d = r ∧ a = d * q + r ∧ r < d)%N.
Proof.
  intros Hd. exists (a / d)%N, (a mod d)%N.
  split; [done|]. split; [done|]. split; [by apply N.div_mod | by apply N.mod_lt].
Qed.

Ltac split_bytes :=
  repeat match goal with
         | |- context [(?a / ?d)%N] =>
             let q := fresh "q" in
             let r := fresh "r" in
             destruct (N_split a d ltac:(done)) as (q & r & -> & -> & ? & ?)
         | H : context [(?a / ?d)%N] |- _ =>
             let q := fresh "q" in
             let r := fresh "r" in
             destruct (N_split a d ltac:(done)) as (q & r & Hq & Hr & ? & ?);
             rewrite ?Hq, ?Hr in *; clear Hq Hr
         end.

(** The digits of a group of three bytes give the bytes back. *)
Lemma base64_group_inj (a b c a' b' c' : N) :
  (a < 256 → b < 256 → c < 256 → a' < 256 → b' < 256 → c' < 256 →
   a / 4 = a' / 4 →
   a mod 4 * 16 + b / 16 = a' mod 4 * 16 + b' / 16 →
   b mod 16 * 4 + c / 64 = b' mod 16 * 4 + c' / 64 →
   c mod 64 = c' mod 64 →
   a = a' ∧ b = b' ∧ c = c')%N.
Proof. intros. split_bytes. lia. Qed.

Lemma base64_bounds (a b c : N) :
  (a < 256 → b < 256 → c < 256 →
   a / 4 < 64 ∧ a mod 4 * 16 + b / 16 < 64 ∧ b mod 16 * 4 + c / 64 < 64 ∧ c mod 64 < 64
   ∧ a mod 4 * 16 < 64 ∧ b mod 16 * 4 < 64)%N.
Proof. intros. split_bytes. lia. Qed.

Lemma string_ind3 (P : string → Prop) :
  P "" →
  (∀ a, P (String a "")) →
  (∀ a b, P (String a (String b ""))) →
  (∀ a b c s, P s → P (String a (String b (String c s)))) →
  ∀ s, P s.
Proof.
  intros H0 H1 H2 H3 s.
  enough (P s ∧ (∀ a, P (String a s)) ∧ (∀ a b, P (String a (String b s)))) by tauto.
  induction s as [|c s (IH0 & IH1 & IH2)]; [by auto|].
  split; [apply IH1|]. split; [intros a; apply IH2|]. intros a b. by apply H3.
Qed.

Ltac byte_bounds :=
  repeat match goal with
         | c : ascii |- _ =>
             lazymatch goal with
             | H : (N_of_ascii c < 256)%N |- _ => fail
             | _ => pose proof (N_of_ascii_bound c)
             end
         end.

Ltac bound := byte_bounds; split_bytes; lia.

Ltac digits_differ :=
  match goal with
  | E : Web.base64_digit ?i = "="%char |- _ =>
      exfalso; apply (base64_digit_not_pad i); [bound | exact E]
  | E : "="%char = Web.base64_digit ?i |- _ =>
      exfalso; apply (base64_digit_not_pad i); [bound | by symmetry]
  end.

Ltac digits_agree :=
  repeat match goal with
         | E : Web.base64_digit ?i = Web.base64_digit ?j |- _ =>
             apply base64_digit_inj in E; [|bound..]
         end.

Lemma btoa_inj (s t : string) : Web.btoa s = Web.btoa t → s = t.
Proof.
  revert s t. apply (string_ind3 (λ s, ∀ t, Web.btoa s = Web.btoa t → s = t));
    [intros t|intros a t|intros a b t|intros a b c s IH t];
    destruct t as [|a' [|b' [|c' t]]]; cbn [Web.btoa]; cbv zeta; intros E; try done;
    inversion E; clear E.
  all: try digits_differ.
  - digits_agree. f_equal. apply N_of_ascii_inj. bound.
  - digits_agree.
    assert (N_of_ascii a = N_of_ascii a' ∧ N_of_ascii b = N_of_ascii b') as [Ea Eb] by bound.
    apply N_of_ascii_inj in Ea, Eb. by subst.
  - digits_agree.
    destruct (base64_group_inj (N_of_ascii a) (N_of_ascii b) (N_of_ascii c)
                (N_of_ascii a') (N_of_ascii b') (N_of_ascii c')) as (Ea & Eb & Ec);
      [apply N_of_ascii_bound..|done|done|done|done|].
    apply N_of_ascii_inj in Ea, Eb, Ec. subst. f_equal. f_equal. f_equal. by apply IH.
Qed.

(** X1.  The header that is accepted is the one made of the name and the
    password of the environment, and no other text: the lengths and the
    bytes compared decide nothing else.  A header made in the same way of
    another name or another password is refused, for names without a
    colon. *)
Theorem is_authorized_exactly (username password : string) :
  (∀ authorization_header,
     is_authorized authorization_header username password = true
     ↔ authorization_header = "Basic " +:+ Web.btoa (username +:+ ":" +:+ password))
  ∧ (∀ name word,
       charIn ":" username = false → charIn ":" name = false →
       is_authorized ("Basic " +:+ Web.btoa (name +:+ ":" +:+ word)) username password = true
       ↔ name = username ∧ word = password).
Proof.
  split; [intros h; apply is_authorized_iff|].
  intros name word Husername Hname. rewrite is_authorized_iff. split.
  - intros E. injection E as E. apply btoa_inj in E.
    pose proof (cut_first ":" "" name word Hname) as Cname.
    rewrite E, (cut_first ":" "" username password Husername) in Cname.
    by injection Cname as -> ->.
  - by intros [-> ->].
Qed.

(** ** The entry point *)

Lemma filter_none_of_filter {A} (P Q : A → Prop) `{!∀ x, Decision (P x)}
    `{!∀ x, Decision (Q x)} (l : list A) :
  (∀ x, P x → Q x → False) → filter P (filter Q l) = [].
Proof.
  intros Hno. induction l as [|x l IH]; [done|].
  destruct (decide (Q x)).
  - rewrite (filter_cons_True Q) by done. rewrite filter_cons_False; [done|]. naive_solver.
  - by rewrite (filter_cons_False Q).
Qed.

Lemma filter_all_of_filter {A} (P Q : A → Prop) `{!∀ x, Decision (P x)}
    `{!∀ x, Decision (Q x)} (l : list A) :
  (∀ x, P x → Q x) → filter P (filter Q l) = filter P l.
Proof.
  intros Hall. induction l as [|x l IH]; [done|].
  destruct (decide (P x)).
  - rewrite (filter_cons_True Q) by auto. by rewrite !(filter_cons_True P), IH.
  - rewrite (filter_cons_False P x l) by done.
    destruct (decide (Q x)).
    + rewrite (filter_cons_True Q) by done. by rewrite filter_cons_False.
    + by rewrite (filter_cons_False Q).
Qed.

Lemma Headers_get_set (h : Headers) (name value : string) :
  Headers_get (Headers_set h name value) name = Some value.
Proof.
  unfold Headers_get, Headers_set, Headers. rewrite filter_app.
  rewrite filter_none_of_filter by (intros kv; cbn; congruence).
  rewrite filter_cons_True by apply String.eqb_refl. done.
Qed.

Lemma Headers_get_set_other (h : Headers) (name value other : string) :
  toLowerCase other ≠ toLowerCase name →
  Headers_get (Headers_set h name value) other = Headers_get h other.
Proof.
  intros Hother. unfold Headers_get, Headers_set, Headers. rewrite filter_app.
  rewrite (filter_cons_False _ (name, value)), filter_nil, List.app_nil_r.
  2: { cbn. intros E. apply String.eqb_eq in E. congruence. }
  rewrite filter_all_of_filter; [done|].
  intros kv E. cbn in *. apply String.eqb_eq in E. apply String.eqb_neq. congruence.
Qed.

(** The names of the headers that the entry point sets. *)
Lemma cors_names (request : Request.t) :
  (cors_headers request).*1
  = ["Access-Control-Allow-Origin"; "Access-Control-Allow-Methods";
     "Access-Control-Allow-Headers"; "Access-Control-Expose-Headers";
     "Access-Control-Allow-Credentials"; "Access-Control-Max-Age"].
Proof. reflexivity. Qed.

Lemma Response_set_all (response : Response.t) (headers : list (string * string)) :
  let answer := foldl (λ response kv, Response_set response kv.1 kv.2) response headers in
  Response.status answer = Response.status response
  ∧ Response.body answer = Response.body response
  ∧ Response.statusText answer = Response.statusText response
  ∧ (∀ other, Forall (λ name, toLowerCase other ≠ toLowerCase name) headers.*1 →
       Headers_get (Response.headers answer) other
       = Headers_get (Response.headers response) other).
Proof.
  revert response. induction headers as [|[name value] headers IH]; intros response; [done|].
  cbn [foldl fst snd]. cbv zeta in *.
  destruct (IH (Response_set response name value)) as (-> & -> & -> & Hother).
  repeat split; try done. intros other Hnames. rewrite fmap_cons in Hnames.
  apply Forall_cons in Hnames as [Hname Hnames].
  rewrite Hother by done. cbn [Response_set Response.headers].
  by apply Headers_get_set_other.
Qed.

Lemma Response_set_last (response : Response.t) (headers : list (string * string))
    (name value : string) :
  Forall (λ later, toLowerCase name ≠ toLowerCase later) headers.*1 →
  Headers_get
    (Response.headers
       (foldl (λ response kv, Response_set response kv.1 kv.2)
          (Response_set response name value) headers))
    name
  = Some value.
Proof.
  intros Hlater.
  destruct (Response_set_all (Response_set response name value) headers)
    as (_ & _ & _ & Hother).
  rewrite Hother by done. apply Headers_get_set.
Qed.

Lemma Response_set_each (response : Response.t) (headers : list (string * string)) :
  NoDup (toLowerCase <$> headers.*1) →
  Forall (λ kv, Headers_get
                  (Response.headers
                     (foldl (λ response kv, Response_set response kv.1 kv.2) response headers))
                  kv.1
                = Some kv.2)
         headers.
Proof.
  revert response. induction headers as [|[name value] headers IH]; intros response Hnames;
    [constructor|].
  rewrite !fmap_cons in Hnames. cbn [fst] in Hnames.
  apply NoDup_cons in Hnames as [Hname Hnames].
  constructor; [|by apply IH]. cbn [foldl fst snd]. apply Response_set_last.
  apply Forall_forall. intros later Hlater E. apply Hname. rewrite E.
  by apply list_elem_of_fmap_2.
Qed.

Lemma cors_names_distinct (request : Request.t) :
  NoDup (toLowerCase <$> (cors_headers request).*1).
Proof. rewrite cors_names. apply (bool_decide_unpack _). by vm_compute. Qed.

Section Entry.

Context `{Runtime} {World : Type}.
Variable fetch : Request.t → World → FetchOutcome * World.
Variable fuel : nat.
Variable propertyupdate : string → list (string * string) * list string.

(** A request that passes the check of credentials is served by the
    handler of its method, and the headers are set on the answer. *)
Lemma worker_fetch_passes (request : Request.t) (env : Env) :
  Request.method request = "OPTIONS"
  ∨ default "" (Headers_get (Request.headers request) "Authorization")
    = "Basic " +:+ Web.btoa (USERNAME env +:+ ":" +:+ PASSWORD env) →
  worker_fetch fetch fuel propertyupdate request env
  = (response <- dispatch_handler fetch fuel propertyupdate request env (S3_BUCKET env) ;;
     ret (foldl (λ response kv, Response_set response kv.1 kv.2) response
            (cors_headers request))).
Proof.
  intros Hpass. unfold worker_fetch.
  destruct Hpass as [-> | Hheader]; [done|].
  apply is_authorized_iff in Hheader. rewrite Hheader. by rewrite andb_false_r.
Qed.

(** X2.  A request for another method than OPTIONS whose Authorization header
    is not the expected one, or is missing, is answered 401 with the
    challenge, and the store is not asked for anything. *)
Theorem unauthorized_is_refused (request : Request.t) (env : Env) :
  Request.method request ≠ "OPTIONS" →
  default "" (Headers_get (Request.headers request) "Authorization")
  ≠ "Basic " +:+ Web.btoa (USERNAME env +:+ ":" +:+ PASSWORD env) →
  runs fetch (worker_fetch fetch fuel propertyupdate request env) []
    (Value (new_Response_with (Some "Unauthorized") 401
              [("WWW-Authenticate", "Basic realm=" +:+ Js.DQ +:+ "webdav" +:+ Js.DQ)])).
Proof.
  intros Hmethod Hheader. unfold worker_fetch.
  apply String.eqb_neq in Hmethod. rewrite Hmethod.
  destruct (is_authorized _ _ _) eqn:E; [by apply is_authorized_iff in E|].
  apply runs_ret.
Qed.

(** X3.  The answer of a handler to a request that passes the check leaves the
    worker with the status and the body that the handler gave it, with
    each of the six access-control headers set to its value, the allowed
    origin being the Origin of the request or the star, and with every
    other header as the handler set it.  An error of the handler is
    thrown on, and no answer is made of it. *)
Theorem answers_carry_cors (request : Request.t) (env : Env)
    (script : list (Request.t * FetchOutcome)) :
  Request.method request = "OPTIONS"
  ∨ default "" (Headers_get (Request.headers request) "Authorization")
    = "Basic " +:+ Web.btoa (USERNAME env +:+ ":" +:+ PASSWORD env) →
  (∀ response,
     runs fetch (dispatch_handler fetch fuel propertyupdate request env (S3_BUCKET env)) script
       (Value response) →
     ∃ answer,
       runs fetch (worker_fetch fetch fuel propertyupdate request env) script (Value answer)
       ∧ Response.status answer = Response.status response
       ∧ Response.body answer = Response.body response
       ∧ Forall (λ kv, Headers_get (Response.headers answer) kv.1 = Some kv.2)
           (cors_headers request)
       ∧ Headers_get (Response.headers answer) "Access-Control-Allow-Origin"
         = Some (default "*" (Headers_get (Request.headers request) "Origin"))
       ∧ ∀ other,
           Forall (λ name, toLowerCase other ≠ toLowerCase name) (cors_headers request).*1 →
           Headers_get (Response.headers answer) other
           = Headers_get (Response.headers response) other)
  ∧ (∀ message,
       runs fetch (dispatch_handler fetch fuel propertyupdate request env (S3_BUCKET env)) script
         (Throw message) →
       runs fetch (worker_fetch fetch fuel propertyupdate request env) script (Throw message)).
Proof.
  intros Hpass. rewrite (worker_fetch_passes request env Hpass). split.
  - intros response Hrun.
    exists (foldl (λ response kv, Response_set response kv.1 kv.2) response
              (cors_headers request)).
    destruct (Response_set_all response (cors_headers request)) as (Hstatus & Hbody & _ & Hother).
    pose proof (Response_set_each response (cors_headers request)
                  (cors_names_distinct request)) as Heach.
    split; [|split; [done|split; [done|split; [done|split; [|done]]]]].
    + eapply (runs_script_eq _ _ (script ++ [])); [apply List.app_nil_r|].
      eapply runs_bind; [apply Hrun|apply runs_ret].
    + by apply Forall_cons in Heach as [Horigin _].
  - intros message Hrun. by apply runs_bind_throw.
Qed.

(** X4.  OPTIONS is answered without credentials and without the store: 204
    with the methods in Allow and the class in DAV.  A method that the
    gateway does not know is answered 405 with the same two headers, when
    the credentials are right, and the store is not asked either. *)
Theorem options_and_unknown_methods (request : Request.t) (env : Env) :
  (Request.method request = "OPTIONS" →
   ∃ answer,
     runs fetch (worker_fetch fetch fuel propertyupdate request env) [] (Value answer)
     ∧ Response.status answer = 204
     ∧ Response.body answer = None
     ∧ Headers_get (Response.headers answer) "Allow"
       = Some "OPTIONS, PROPFIND, PROPPATCH, MKCOL, GET, HEAD, PUT, DELETE, COPY, MOVE"
     ∧ Headers_get (Response.headers answer) "DAV" = Some "1, 3")
  ∧ (Request.method request ∉ SUPPORT_METHODS →
     default "" (Headers_get (Request.headers request) "Authorization")
     = "Basic " +:+ Web.btoa (USERNAME env +:+ ":" +:+ PASSWORD env) →
     ∃ answer,
       runs fetch (worker_fetch fetch fuel propertyupdate request env) [] (Value answer)
       ∧ Response.status answer = 405
       ∧ Response.body answer = Some "Method Not Allowed"
       ∧ Headers_get (Response.headers answer) "Allow"
         = Some "OPTIONS, PROPFIND, PROPPATCH, MKCOL, GET, HEAD, PUT, DELETE, COPY, MOVE").
Proof.
  split.
  - intros Hmethod. rewrite worker_fetch_passes by auto.
    unfold dispatch_handler. rewrite Hmethod. cbn [String.eqb]. rewrite String.eqb_refl.
    eexists. split; [eapply (runs_bind _ _ _ [] []); [apply runs_ret|apply runs_ret]|].
    destruct (Response_set_all (new_Response_with None 204 allow_headers)
                (cors_headers request)) as (-> & -> & _ & Hother).
    repeat split; rewrite Hother; try done; rewrite cors_names;
      apply (bool_decide_unpack _); by vm_compute.
  - intros Hmethod Hheader. rewrite worker_fetch_passes by auto.
    unfold dispatch_handler, SUPPORT_METHODS in *.
    repeat (rewrite (proj2 (String.eqb_neq _ _)); [|intros E; apply Hmethod; rewrite E;
                                                    set_solver]).
    eexists. split; [eapply (runs_bind _ _ _ [] []); [apply runs_ret|apply runs_ret]|].
    destruct (Response_set_all (new_Response_with (Some "Method Not Allowed") 405 allow_headers)
                (cors_headers request)) as (-> & -> & _ & Hother).
    repeat split; rewrite Hother; try done; rewrite cors_names;
      apply (bool_decide_unpack _); by vm_compute.
Qed.

End Entry.

(** ** GET and HEAD *)

Section Get.

Context `{Runtime} {World : Type}.
Variable fetch : Request.t → World → FetchOutcome * World.
Variable fuel : nat.

Lemma runs_caught (message : string) :
  runs fetch (catch_404 message) [] (caught message).
Proof.
  unfold catch_404, caught. destruct (Js.includes message "404");
    [apply runs_ret|apply runs_throw].
Qed.

Lemma runs_try_caught (m : M World Response.t) (s : list (Request.t * FetchOutcome))
    (message : string) :
  runs fetch m s (Throw message) → runs fetch (try_catch m catch_404) s (caught message).
Proof.
  intros Hm. eapply (runs_script_eq _ _ (s ++ [])); [apply List.app_nil_r|].
  eapply runs_try_throw; [done|apply runs_caught].
Qed.

(** GET of a resource, by the answer of the store to its one call. *)
Lemma handle_get_object (request : Request.t) (env : Env) (bucket resource_path : string)
    (outcome : FetchOutcome) :
  Js.endsWith (Request.url request) "/" = false →
  resource_path_of (Request.url request) = Some resource_path →
  runs fetch (handle_get fetch fuel request env bucket)
    [(get_call env bucket resource_path (copy_headers ["Range"] (Request.headers request)),
      outcome)]
    match outcome with
    | Resolved response =>
        if Response.status response =? 404 then Value not_found
        else if Response.ok response then Value (served response)
        else caught (S3_API_error response)
    | Rejected message => caught message
    end.
Proof.
  intros Hslash Hpath. unfold handle_get.
  eapply (runs_bind _ _ _ [] _); [by apply runs_make_resource_path|]. rewrite Hslash.
  destruct outcome as [response|message].
  - eapply (runs_try_bind _ _ _ _ [_] []); [apply runs_fetch_resolved|].
    destruct (Response.status response =? 404); [apply runs_try_value, runs_ret|].
    destruct (Response.ok response); cbn [negb].
    + apply runs_try_value, runs_ret.
    + apply runs_try_caught, runs_throw.
  - apply runs_try_caught, runs_bind_throw, runs_fetch_rejected.
Qed.

Lemma Headers_get_app (h1 h2 : Headers) (name : string) :
  Forall (λ kv, toLowerCase kv.1 ≠ toLowerCase name) h2 →
  Headers_get (h1 ++ h2) name = Headers_get h1 name.
Proof.
  intros Hno. unfold Headers_get, Headers in *. rewrite filter_app.
  assert (filter (λ kv : string * string,
                    String.eqb (toLowerCase kv.1) (toLowerCase name) = true) h2 = []) as ->;
    [|by rewrite List.app_nil_r].
  induction Hno as [|kv h2 Hkv Hno IH]; [done|].
  rewrite filter_cons_False; [done|]. intros E. by apply String.eqb_eq in E.
Qed.

Lemma handed_on_names (from : Headers) (names : list (string * string)) (name : string) :
  Forall (λ n, toLowerCase n.1 ≠ toLowerCase name) names →
  Forall (λ kv, toLowerCase kv.1 ≠ toLowerCase name)
    (omap (λ names : string * string,
             (λ v, (names.1, v)) <$> Js.or_undefined (Headers_get from names.2))
          names).
Proof.
  induction 1 as [|n names Hn Hnames IH]; [constructor|]. cbn [omap list_omap].
  destruct (Js.or_undefined (Headers_get from n.2)); [by constructor|done].
Qed.

Lemma get_headers_length (from : Headers) (contentLength : nat) :
  Headers_get (get_headers from contentLength) "Content-Length"
  = Some (pretty (Z.of_nat contentLength))
  ∧ Headers_get (get_headers from contentLength) "Content-Type"
    = Some (default "application/octet-stream" (Headers_get from "Content-Type")).
Proof.
  unfold get_headers.
  split; (rewrite Headers_get_app;
          [done|apply handed_on_names, (bool_decide_unpack _); by vm_compute]).
Qed.

Lemma copy_range (headers : Headers) :
  Headers_get (copy_headers ["Range"] headers) "Range"
  = Js.or_undefined (Headers_get headers "Range").
Proof.
  unfold copy_headers. cbn [omap list_omap].
  by destruct (Js.or_undefined (Headers_get headers "Range")).
Qed.

(** X5.  GET of a resource asks the store for the object once, with the Range
    of the request when it has one.  An answer 404 is answered 404.  A
    good answer is handed on with its body, with the status 206 when the
    store answered 206 and 200 otherwise, with the length of the body as
    Content-Length and with the type of the store, or the type of a
    stream of bytes when the store names none.  Any other answer is an
    error of the handler, turned into 404 when its message mentions 404. *)
Theorem get_serves_the_object (request : Request.t) (env : Env) (bucket resource_path : string)
    (response : Response.t) :
  Js.endsWith (Request.url request) "/" = false →
  resource_path_of (Request.url request) = Some resource_path →
  let call :=
    get_call env bucket resource_path (copy_headers ["Range"] (Request.headers request)) in
  Headers_get (Request.headers call) "Range"
  = Js.or_undefined (Headers_get (Request.headers request) "Range")
  ∧ (Response.status response = 404 →
     runs fetch (handle_get fetch fuel request env bucket) [(call, Resolved response)]
       (Value not_found))
  ∧ (Response.ok response = true →
     runs fetch (handle_get fetch fuel request env bucket) [(call, Resolved response)]
       (Value (served response))
     ∧ Response.body (served response) = Some (default "" (Response.body response))
     ∧ Response.status (served response) = (if Response.status response =? 206 then 206 else 200)
     ∧ Headers_get (Response.headers (served response)) "Content-Length"
       = Some (pretty (Z.of_nat (String.length (default "" (Response.body response)))))
     ∧ Headers_get (Response.headers (served response)) "Content-Type"
       = Some (default "application/octet-stream"
                 (Headers_get (Response.headers response) "Content-Type")))
  ∧ (Response.status response ≠ 404 → Response.ok response = false →
     runs fetch (handle_get fetch fuel request env bucket) [(call, Resolved response)]
       (caught (S3_API_error response))).
Proof.
  intros Hslash Hpath call.
  pose proof (handle_get_object request env bucket resource_path (Resolved response)
                Hslash Hpath) as Hrun.
  cbv beta iota in Hrun. fold call in Hrun.
  split; [apply copy_range|]. split; [|split].
  - intros E. by rewrite E in Hrun.
  - intros Hok. split.
    + assert ((Response.status response =? 404) = false) as E.
      { unfold Response.ok in Hok. lia. }
      by rewrite E, Hok in Hrun.
    + unfold served. cbn [Response.body Response.status Response.headers new_Response_with].
      split; [done|]. split; [done|]. apply get_headers_length.
  - intros E Hok. apply Z.eqb_neq in E. by rewrite E, Hok in Hrun.
Qed.

(** X6.  HEAD of a resource is served by GET: the store is asked for the whole
    object with a GET, and the answer carries the status and the headers
    of the answer to GET, the length of the body among them, and no
    body. *)
Theorem head_is_served_by_get (request : Request.t) (env : Env) (bucket resource_path : string)
    (response : Response.t) :
  Js.endsWith (Request.url request) "/" = false →
  resource_path_of (Request.url request) = Some resource_path →
  Response.ok response = true →
  let call :=
    get_call env bucket resource_path (copy_headers ["Range"] (Request.headers request)) in
  Request.method call = "GET"
  ∧ runs fetch (handle_head fetch fuel request env bucket) [(call, Resolved response)]
      (Value (Response.mk None (Response.status (served response)) ""
                (Response.headers (served response))))
  ∧ Headers_get (Response.headers (served response)) "Content-Length"
    = Some (pretty (Z.of_nat (String.length (default "" (Response.body response))))).
Proof.
  intros Hslash Hpath Hok call.
  pose proof (handle_get_object request env bucket resource_path (Resolved response)
                Hslash Hpath) as Hrun.
  cbv beta iota in Hrun. fold call in Hrun.
  assert ((Response.status response =? 404) = false) as E.
  { unfold Response.ok in Hok. lia. }
  rewrite E, Hok in Hrun.
  split; [done|]. split; [|apply get_headers_length].
  unfold handle_head.
  eapply (runs_script_eq _ _ ([_] ++ [])); [done|].
  eapply runs_bind; [apply Hrun|apply runs_ret].
Qed.

Lemma index_links (resource_path prefix : string) (objs : list S3Object) (page : string) :
  foldl (λ page object,
           if bool_decide (key object = resource_path) then page
           else page +:+ index_link prefix object)
        page objs
  = page +:+ String.concat ""
               (index_link prefix <$> filter (λ object, key object ≠ resource_path) objs).
Proof.
  revert page. induction objs as [|o objs IH]; intros page; [by rewrite str_app_nil_r|].
  cbn [foldl]. rewrite IH. case_bool_decide as Hkey.
  - by rewrite filter_cons_False by (by intros ?).
  - rewrite filter_cons_True by done. rewrite fmap_cons. cbn [String.concat].
    destruct (index_link prefix <$> filter _ objs) eqn:E.
    + by rewrite !str_app_nil_r.
    + by rewrite str_app_nil_l, str_app_assoc.
Qed.

Lemma links_of_keys (resource_path prefix : string) (objs : list S3Object) :
  Forall (λ object, index_link prefix object = key_link prefix (key object)) objs →
  index_link prefix <$> filter (λ object, key object ≠ resource_path) objs
  = key_link prefix <$> filter (λ k, k ≠ resource_path) (key <$> objs).
Proof.
  induction 1 as [|o objs Ho Hobjs IH]; [done|]. rewrite fmap_cons.
  destruct (decide (key o = resource_path)) as [E|E].
  - rewrite !filter_cons_False by (by intros ?). apply IH.
  - rewrite !filter_cons_True by done. rewrite !fmap_cons. by rewrite Ho, IH.
Qed.

Lemma index_link_listed (prefix k : string) (o : S3.Object) :
  index_link prefix (listed_object k o) = key_link prefix (key (listed_object k o)).
Proof.
  unfold index_link, key_link, isCollectionObject, listed_object.
  cbn [key metadata contentDisposition mbind option_bind].
  rewrite lookup_empty, bool_decide_eq_false_2 by done.
  cbn [default from_option id]. by rewrite str_app_nil_r.
Qed.

Lemma listed_links (prefix : string) (pages : list Page) :
  Forall (λ object, index_link prefix object = key_link prefix (key object))
    (concat ((λ p : Page, listed_objects p.1) <$> pages)).
Proof.
  induction pages as [|[entries next] pages IH]; [constructor|].
  rewrite fmap_cons. cbn [concat fst]. apply Forall_app. split; [|done].
  clear IH. induction entries as [|[k o|p] entries IH]; [constructor| |done].
  cbn [listed_objects omap list_omap] in *. constructor; [apply index_link_listed|done].
Qed.

(** X7.  GET of a URL that ends in a slash answers with the index of the
    collection: the children are listed with the delimiter, page after
    page, and the page links every listed key but the key of the
    collection itself, under the link to the parent unless the collection
    is the root.  What the store lists as a common prefix is not linked. *)
Theorem get_lists_the_collection (request : Request.t) (env : Env)
    (bucket resource_path : string) (max_keys : nat) (pages : list Page) :
  Js.endsWith (Request.url request) "/" = true →
  resource_path_of (Request.url request) = Some resource_path →
  forallb plain_page pages = true → chained pages = true → (length pages <= fuel)%nat →
  let prefix := if bool_decide (resource_path ≠ "") then resource_path +:+ "/" else resource_path in
  runs fetch (handle_get fetch fuel request env bucket)
    (page_script env bucket prefix false max_keys None pages)
    (Value (index_response resource_path prefix
              (filter (λ k, k ≠ resource_path)
                 (concat ((λ p : Page, content_keys p.1) <$> pages))))).
Proof.
  intros Hslash Hpath Hplain Hchain Hfuel prefix. unfold handle_get.
  eapply (runs_bind _ _ _ [] _); [by apply runs_make_resource_path|]. rewrite Hslash.
  fold prefix.
  eapply (runs_script_eq _ _ (_ ++ [])); [apply List.app_nil_r|].
  eapply runs_bind.
  { rewrite <-listing_script_pure. unfold listAll.
    apply (listAll_from_runs fetch (append_index_link resource_path prefix)
             (λ page object,
                if bool_decide (key object = resource_path) then page
                else page +:+ index_link prefix object)
             (λ _, [])); [|done..].
    intros page object. unfold append_index_link. case_bool_decide; apply runs_ret. }
  rewrite index_links, (links_of_keys _ _ _ (listed_links prefix pages)).
  rewrite listed_keys_pages by done. apply runs_ret.
Qed.

End Get.

(** ** MKCOL and DELETE *)

Section Collections.

Context `{Runtime} {World : Type}.
Variable fetch : Request.t → World → FetchOutcome * World.
Variable fuel : nat.

Lemma runs_check_parent (env : Env) (bucket parent : string) (outcome : FetchOutcome) :
  (parent ≠ "" → missing outcome = false) →
  runs fetch (check_destination_parent fetch env bucket parent)
    (if bool_decide (parent ≠ "") then [(head_call env bucket parent, outcome)] else [])
    (Value None).
Proof.
  intros Hpass. unfold check_destination_parent.
  case_bool_decide as Hp; [|apply runs_ret]. specialize (Hpass Hp).
  destruct outcome as [response|message]; [|done].
  apply runs_try_value. eapply (runs_bind _ _ _ [_] []); [apply runs_fetch_resolved|].
  simpl in Hpass. rewrite Hpass. apply runs_ret.
Qed.

(** The first check of MKCOL: whether the head of the target is good. *)
Lemma runs_mkcol_exists (env : Env) (bucket resource_path : string) (outcome : FetchOutcome) :
  runs fetch
    (try_catch
       (response <- aws_fetch fetch
                      (getS3Url env bucket (Some (encodeURIComponent resource_path)) None)
                      "HEAD" [] None ;;
        ret (Response.ok response))
       (λ _, ret false))
    [(head_call env bucket resource_path, outcome)] (Value (present outcome)).
Proof.
  destruct outcome as [response|message].
  - apply runs_try_value. eapply (runs_bind _ _ _ [_] []); [apply runs_fetch_resolved|].
    apply runs_ret.
  - eapply (runs_try_throw _ _ _ [_] []); [|apply runs_ret].
    apply runs_bind_throw, runs_fetch_rejected.
Qed.

(** X8.  MKCOL answers 405 on a target whose head is good, whatever it is, and
    has then asked for nothing else.  Otherwise it answers 409 when the
    target has a parent whose head is 404 or fails, after the two heads.
    Otherwise, also under a parent that is no collection, it writes the
    marker object once, with an empty body, the collection sentinel as
    metadata and the Content-Type of the request when it has one, and
    answers 201 when the store accepts the write; a refusal of the store
    is thrown on. *)
Theorem mkcol_writes_the_marker (request : Request.t) (env : Env) (bucket resource_path : string)
    (target_outcome parent_outcome put_outcome : FetchOutcome) :
  resource_path_of (Request.url request) = Some resource_path →
  (present target_outcome = true →
   runs fetch (handle_mkcol fetch request env bucket)
     [(head_call env bucket resource_path, target_outcome)]
     (Value (new_Response (Some "Method Not Allowed") 405)))
  ∧ (present target_outcome = false →
     (dirname_of resource_path ≠ "" → missing parent_outcome = true →
      runs fetch (handle_mkcol fetch request env bucket)
        [(head_call env bucket resource_path, target_outcome);
         (head_call env bucket (dirname_of resource_path), parent_outcome)]
        (Value (new_Response (Some "Conflict") 409)))
     ∧ ((dirname_of resource_path ≠ "" → missing parent_outcome = false) →
        runs fetch (handle_mkcol fetch request env bucket)
          ((head_call env bucket resource_path, target_outcome)
           :: dirname_script env bucket resource_path parent_outcome
           ++ [(mkcol_call env bucket resource_path
                  (copy_headers ["Content-Type"] (Request.headers request)),
                put_outcome)])
          match put_outcome with
          | Resolved response =>
              if Response.ok response then Value (new_Response (Some "") 201)
              else Throw (S3_API_error response)
          | Rejected message => Throw message
          end)).
Proof.
  intros Hpath. split; [|intros Hnew; split].
  - intros Hexists. unfold handle_mkcol.
    eapply (runs_bind _ _ _ [] _); [by apply runs_make_resource_path|].
    eapply (runs_bind _ _ _ [_] []); [apply runs_mkcol_exists|].
    rewrite Hexists. apply runs_ret.
  - intros Hparent Hmissing. unfold handle_mkcol.
    eapply (runs_bind _ _ _ [] _); [by apply runs_make_resource_path|].
    eapply (runs_bind _ _ _ [_] [_]); [apply runs_mkcol_exists|].
    rewrite Hnew.
    eapply (runs_bind _ _ _ [_] []);
      [by apply (runs_check_parent_conflict fetch env bucket)|].
    apply runs_ret.
  - intros Hpass. unfold handle_mkcol.
    eapply (runs_bind _ _ _ [] _); [by apply runs_make_resource_path|].
    eapply (runs_bind _ _ _ [_] _); [apply runs_mkcol_exists|].
    rewrite Hnew.
    eapply runs_bind; [by apply (runs_check_parent env bucket)|].
    destruct put_outcome as [response|message].
    + eapply (runs_bind _ _ _ [_] []); [apply runs_fetch_resolved|].
      destruct (Response.ok response); [apply runs_ret|apply runs_throw].
    + apply runs_bind_throw, runs_fetch_rejected.
Qed.

Lemma runs_batch_delete (env : Env) (bucket : string) (keys : list string)
    (response : Response.t) :
  runs fetch (batch_delete fetch env bucket keys)
    (batch_script env bucket keys (Resolved response))
    (if bool_decide (keys ≠ []) && negb (Response.ok response)
     then Throw (S3_API_error response) else Value tt).
Proof.
  unfold batch_delete, batch_script, batch_call. case_bool_decide; [|apply runs_ret].
  eapply (runs_bind _ _ _ [_] []); [apply runs_fetch_resolved|].
  destruct (Response.ok response); [apply runs_ret|apply runs_throw].
Qed.

Lemma runs_collect_keys (env : Env) (bucket prefix : string) (max_keys : nat)
    (pages : list Page) :
  forallb plain_page pages = true → chained pages = true → (length pages <= fuel)%nat →
  runs fetch
    (listAll fetch fuel env bucket prefix true (λ keys object, ret (keys ++ [key object])) [])
    (page_script env bucket prefix true max_keys None pages)
    (Value (keys_of pages)).
Proof.
  intros Hplain Hchain Hfuel.
  pose proof (listAll_pure fetch (λ keys object, keys ++ [key object]) fuel env bucket prefix
                true max_keys pages [] Hplain Hchain Hfuel) as Hrun.
  by rewrite collect_keys, List.app_nil_l, listed_keys_pages in Hrun.
Qed.

(** X9.  DELETE of a resource.  A head answered 404 is answered 404 and nothing
    is deleted.  Any other head lets the key be deleted at once: when the
    store refuses, the handler fails, and when the head names no
    collection, the answer is 204 after the two calls.  For a collection
    the marker object goes first; then the keys under it are listed
    without a delimiter, page after page, and all of them are named in
    one batch delete, which is not sent when there is none; the answer is
    204 when the store accepts the batch. *)
Theorem delete_removes_the_resource (request : Request.t) (env : Env)
    (bucket resource_path : string) (head deleted : Response.t) :
  resource_path_of (Request.url request) = Some resource_path →
  resource_path ≠ "" →
  (Response.status head = 404 →
   runs fetch (handle_delete fetch fuel request env bucket)
     [(head_call env bucket resource_path, Resolved head)] (Value not_found))
  ∧ (Response.status head ≠ 404 →
     (Response.ok deleted = false →
      runs fetch (handle_delete fetch fuel request env bucket)
        [(head_call env bucket resource_path, Resolved head);
         (delete_call env bucket resource_path, Resolved deleted)]
        (caught (S3_API_error deleted)))
     ∧ (Response.ok deleted = true →
        (marked_collection (Resolved head) = false →
         runs fetch (handle_delete fetch fuel request env bucket)
           [(head_call env bucket resource_path, Resolved head);
            (delete_call env bucket resource_path, Resolved deleted)]
           (Value (new_Response None 204)))
        ∧ (∀ (max_keys : nat) (pages : list Page) (batch : Response.t),
             marked_collection (Resolved head) = true →
             forallb plain_page pages = true → chained pages = true →
             (length pages <= fuel)%nat →
             Response.ok batch = true →
             runs fetch (handle_delete fetch fuel request env bucket)
               ([(head_call env bucket resource_path, Resolved head);
                 (delete_call env bucket resource_path, Resolved deleted)]
                ++ page_script env bucket (resource_path +:+ "/") true max_keys None pages
                ++ batch_script env bucket (keys_of pages) (Resolved batch))
               (Value (new_Response None 204))))).
Proof.
  intros Hpath Hrp. split; [|intros Hfound; split; [|intros Hok; split]].
  - intros Hmissing. unfold handle_delete.
    eapply (runs_bind _ _ _ [] _); [by apply runs_make_resource_path|].
    rewrite bool_decide_eq_false_2 by done.
    eapply (runs_try_bind _ _ _ _ [_] []); [apply runs_fetch_resolved|].
    apply Z.eqb_eq in Hmissing. rewrite Hmissing. apply runs_try_value, runs_ret.
  - intros Hrefused. unfold handle_delete.
    eapply (runs_bind _ _ _ [] _); [by apply runs_make_resource_path|].
    rewrite bool_decide_eq_false_2 by done.
    eapply (runs_try_bind _ _ _ _ [_] [_]); [apply runs_fetch_resolved|].
    apply Z.eqb_neq in Hfound. rewrite Hfound.
    eapply (runs_try_bind _ _ _ _ [_] []); [apply runs_fetch_resolved|].
    rewrite Hrefused. apply runs_try_caught, runs_throw.
  - intros Hplain. unfold handle_delete.
    eapply (runs_bind _ _ _ [] _); [by apply runs_make_resource_path|].
    rewrite bool_decide_eq_false_2 by done.
    eapply (runs_try_bind _ _ _ _ [_] [_]); [apply runs_fetch_resolved|].
    apply Z.eqb_neq in Hfound. rewrite Hfound.
    eapply (runs_try_bind _ _ _ _ [_] []); [apply runs_fetch_resolved|].
    rewrite Hok. cbn [negb]. cbn [marked_collection] in Hplain.
    apply bool_decide_eq_false in Hplain. rewrite bool_decide_eq_true_2 by done.
    apply runs_try_value, runs_ret.
  - intros max_keys pages batch Hmarked Hplain Hchain Hfuel Hbatch. unfold handle_delete.
    eapply (runs_bind _ _ _ [] _); [by apply runs_make_resource_path|].
    rewrite bool_decide_eq_false_2 by done.
    eapply (runs_try_bind _ _ _ _ [_] _); [apply runs_fetch_resolved|].
    apply Z.eqb_neq in Hfound. rewrite Hfound.
    eapply (runs_try_bind _ _ _ _ [_] _); [apply runs_fetch_resolved|].
    rewrite Hok. cbn [negb]. cbn [marked_collection] in Hmarked.
    apply bool_decide_eq_true in Hmarked.
    rewrite bool_decide_eq_false_2 by (by intros ?).
    eapply runs_try_bind; [by apply runs_collect_keys|].
    eapply (runs_script_eq _ _ (_ ++ [])); [apply List.app_nil_r|].
    eapply runs_try_bind; [|apply runs_try_value, runs_ret].
    pose proof (runs_batch_delete env bucket (keys_of pages) batch) as Hrun.
    by rewrite Hbatch, andb_false_r in Hrun.
Qed.

(** X10.  DELETE of the root lists every key of the bucket without a delimiter
    and names all of them in one batch delete, which is not sent for an
    empty bucket; the answer is 204 when the store accepts the batch, and
    the refusal of the store is thrown on. *)
Theorem delete_of_the_root (request : Request.t) (env : Env) (bucket : string)
    (max_keys : nat) (pages : list Page) (batch : Response.t) :
  resource_path_of (Request.url request) = Some "" →
  forallb plain_page pages = true → chained pages = true → (length pages <= fuel)%nat →
  runs fetch (handle_delete fetch fuel request env bucket)
    (page_script env bucket "" true max_keys None pages
     ++ batch_script env bucket (keys_of pages) (Resolved batch))
    (if bool_decide (keys_of pages ≠ []) && negb (Response.ok batch)
     then Throw (S3_API_error batch) else Value (new_Response None 204)).
Proof.
  intros Hpath Hplain Hchain Hfuel. unfold handle_delete.
  eapply (runs_bind _ _ _ [] _); [by apply runs_make_resource_path|].
  rewrite bool_decide_eq_true_2 by done.
  eapply runs_bind; [by apply runs_collect_keys|].
  pose proof (runs_batch_delete env bucket (keys_of pages) batch) as Hrun.
  destruct (bool_decide (keys_of pages ≠ []) && negb (Response.ok batch)).
  - by apply runs_bind_throw.
  - eapply (runs_script_eq _ _ (_ ++ [])); [apply List.app_nil_r|].
    eapply runs_bind; [apply Hrun|apply runs_ret].
Qed.

End Collections.

(** ** COPY: the copies *)

Section Copy.

Context `{Runtime} {World : Type}.
Variable fetch : Request.t → World → FetchOutcome * World.
Variable fuel : nat.

(** COPY up to the head of the source, when the checks of the destination
    pass and the source is there. *)
Lemma copy_after_checks (request : Request.t) (env : Env)
    (bucket resource_path destination : string)
    (parent_outcome destination_outcome : FetchOutcome) (source : Response.t)
    (rest : list (Request.t * FetchOutcome)) (result : Result Response.t) :
  resource_path_of (Request.url request) = Some resource_path →
  destination_key request = Some destination →
  (destination_parent_of destination ≠ "" → missing parent_outcome = false) →
  (present destination_outcome = true →
   Headers_get (Request.headers request) "Overwrite" ≠ Some "F") →
  Response.status source ≠ 404 →
  runs fetch
    (try_catch
       (let is_dir := marked_collection (Resolved source) in
        if is_dir then
          let depth := default "infinity" (Headers_get (Request.headers request) "Depth") in
          if bool_decide (depth = "infinity") then
            let prefix := resource_path +:+ "/" in
            let copy (objectKey : string) : M World unit :=
              copyResponse <-
                copy_object fetch env bucket (target_of destination prefix objectKey) objectKey ;;
              if negb (Response.ok copyResponse) then throw (S3_copy_error copyResponse)
              else ret tt in
            copyDir <- start (copy_object fetch env bucket destination resource_path) ;;
            promise_array <-
              listAll fetch fuel env bucket prefix true
                (fun promise_array object =>
                   promise <- start (copy (key object)) ;;
                   ret (promise_array ++ [promise]))
                [copyDir] ;;
            _ <- Promise_all promise_array ;;
            ret (copied_response (present destination_outcome))
          else if bool_decide (depth = "0") then
            copyResponse <- copy_object fetch env bucket destination resource_path ;;
            if negb (Response.ok copyResponse) then throw (S3_copy_error copyResponse)
            else ret (copied_response (present destination_outcome))
          else ret (new_Response (Some "Bad Request") 400)
        else
          copyResponse <- copy_object fetch env bucket destination resource_path ;;
          if negb (Response.ok copyResponse) then throw (S3_copy_error copyResponse)
          else ret (copied_response (present destination_outcome)))
       catch_404)
    rest result →
  runs fetch (handle_copy fetch fuel request env bucket)
    (move_checks env bucket resource_path destination parent_outcome destination_outcome source
     ++ rest)
    result.
Proof.
  intros Hpath Hdestination Hparent Hallowed Hfound Hrest.
  destruct (destination_key_inv _ _ Hdestination) as (dh & Hheader & Hdest).
  unfold handle_copy, move_checks. rewrite <-!(assoc_L (++)).
  eapply (runs_bind _ _ _ [] _); [by apply runs_make_resource_path|]. rewrite Hheader.
  eapply (runs_bind _ _ _ [] _); [by apply runs_destination_of|].
  eapply runs_bind; [by apply runs_check_parent_pass|].
  eapply (runs_bind _ _ _ [_] (_ :: _)); [apply runs_check_destination|].
  assert (present destination_outcome
          && bool_decide (Headers_get (Request.headers request) "Overwrite" = Some "F")
          = false) as ->.
  { destruct (present destination_outcome); [|done].
    by rewrite bool_decide_eq_false_2 by auto. }
  eapply (runs_try_bind _ _ _ _ [_] rest); [apply runs_fetch_resolved|].
  apply Z.eqb_neq in Hfound. rewrite Hfound. exact Hrest.
Qed.

Lemma copy_error_404 (response : Response.t) :
  Response.status response = 404 → caught (S3_copy_error response) = Value not_found.
Proof. intros E. unfold caught, S3_copy_error. by rewrite E. Qed.

(** X11.  COPY of a plain resource, once the checks of the destination have
    passed.  A source whose head is 404 is answered 404, and nothing is
    written.  Otherwise the store copies the source onto the destination
    in one call, and the answer is 201 when the destination was not there
    and 204, without a body, when it was replaced.  A copy that the store
    refuses is an error of the handler; a refusal with status 404 is
    answered 404. *)
Theorem copy_of_a_resource (request : Request.t) (env : Env)
    (bucket resource_path destination : string)
    (parent_outcome destination_outcome : FetchOutcome) (source copied : Response.t) :
  resource_path_of (Request.url request) = Some resource_path →
  destination_key request = Some destination →
  (destination_parent_of destination ≠ "" → missing parent_outcome = false) →
  (present destination_outcome = true →
   Headers_get (Request.headers request) "Overwrite" ≠ Some "F") →
  let checks :=
    move_checks env bucket resource_path destination parent_outcome destination_outcome source in
  (Response.status source = 404 →
   runs fetch (handle_copy fetch fuel request env bucket) checks (Value not_found))
  ∧ (Response.status source ≠ 404 → marked_collection (Resolved source) = false →
     (Response.ok copied = true →
      runs fetch (handle_copy fetch fuel request env bucket)
        (checks ++ [(copy_call env bucket destination resource_path, Resolved copied)])
        (Value (new_Response (if present destination_outcome then None else Some "")
                  (if present destination_outcome then 204 else 201))))
     ∧ (Response.ok copied = false →
        runs fetch (handle_copy fetch fuel request env bucket)
          (checks ++ [(copy_call env bucket destination resource_path, Resolved copied)])
          (caught (S3_copy_error copied))
        ∧ (Response.status copied = 404 → caught (S3_copy_error copied) = Value not_found))).
Proof.
  intros Hpath Hdestination Hparent Hallowed checks. split.
  - intros Hmissing.
    destruct (destination_key_inv _ _ Hdestination) as (dh & Hheader & Hdest).
    unfold handle_copy, checks, move_checks.
    eapply (runs_bind _ _ _ [] _); [by apply runs_make_resource_path|]. rewrite Hheader.
    eapply (runs_bind _ _ _ [] _); [by apply runs_destination_of|].
    eapply runs_bind; [by apply runs_check_parent_pass|].
    eapply (runs_bind _ _ _ [_] [_]); [apply runs_check_destination|].
    assert (present destination_outcome
            && bool_decide (Headers_get (Request.headers request) "Overwrite" = Some "F")
            = false) as ->.
    { destruct (present destination_outcome); [|done].
      by rewrite bool_decide_eq_false_2 by auto. }
    eapply (runs_try_bind _ _ _ _ [_] []); [apply runs_fetch_resolved|].
    apply Z.eqb_eq in Hmissing. rewrite Hmissing. apply runs_try_value, runs_ret.
  - intros Hfound Hplain. split.
    + intros Hcopied. apply copy_after_checks; try done.
      cbv zeta. rewrite Hplain.
      apply runs_try_value. eapply (runs_bind _ _ _ [_] []); [apply runs_copy_object|].
      rewrite Hcopied. apply runs_ret.
    + intros Hrefused. split; [|apply copy_error_404].
      apply copy_after_checks; try done.
      cbv zeta. rewrite Hplain.
      apply runs_try_caught.
      eapply (runs_script_eq _ _ ([_] ++ [])); [done|].
      eapply runs_bind; [apply runs_copy_object|]. rewrite Hrefused. apply runs_throw.
Qed.

(** X12.  COPY of a collection, once the checks of the destination have passed.
    With Depth: infinity, or with no Depth header, the marker object is
    copied onto the destination and the answer to that copy is not looked
    at; the keys under the collection are listed without a delimiter, and
    each is copied to the destination with the part of the key after the
    collection; when every one of these copies is accepted the answer is
    201 or 204.  With Depth: 0 the marker object alone is copied.  Any
    other Depth is answered 400, and nothing is written. *)
Theorem copy_of_a_collection (request : Request.t) (env : Env)
    (bucket resource_path destination : string)
    (parent_outcome destination_outcome : FetchOutcome) (source : Response.t) :
  resource_path_of (Request.url request) = Some resource_path →
  destination_key request = Some destination →
  (destination_parent_of destination ≠ "" → missing parent_outcome = false) →
  (present destination_outcome = true →
   Headers_get (Request.headers request) "Overwrite" ≠ Some "F") →
  Response.status source ≠ 404 →
  marked_collection (Resolved source) = true →
  let checks :=
    move_checks env bucket resource_path destination parent_outcome destination_outcome source in
  let answer :=
    new_Response (if present destination_outcome then None else Some "")
      (if present destination_outcome then 204 else 201) in
  (∀ (marker_copied : Response.t) (max_keys : nat) (pages : list Page)
     (copied_of : S3Object → Response.t),
     default "infinity" (Headers_get (Request.headers request) "Depth") = "infinity" →
     forallb plain_page pages = true → chained pages = true → (length pages <= fuel)%nat →
     (∀ o, Response.ok (copied_of o) = true) →
     runs fetch (handle_copy fetch fuel request env bucket)
       (checks
        ++ [(copy_call env bucket destination resource_path, Resolved marker_copied)]
        ++ listing_script env bucket (resource_path +:+ "/") true max_keys
             (copy_script env bucket destination (resource_path +:+ "/") copied_of)
             None pages)
       (Value answer))
  ∧ (∀ marker_copied : Response.t,
       Headers_get (Request.headers request) "Depth" = Some "0" →
       Response.ok marker_copied = true →
       runs fetch (handle_copy fetch fuel request env bucket)
         (checks ++ [(copy_call env bucket destination resource_path, Resolved marker_copied)])
         (Value answer))
  ∧ (∀ depth,
       Headers_get (Request.headers request) "Depth" = Some depth →
       depth ≠ "infinity" → depth ≠ "0" →
       runs fetch (handle_copy fetch fuel request env bucket) checks
         (Value (new_Response (Some "Bad Request") 400))).
Proof.
  intros Hpath Hdestination Hparent Hallowed Hfound Hdir checks answer. split; [|split].
  - intros marker_copied max_keys pages copied_of Hdepth Hplain Hchain Hfuel Hcopies.
    apply copy_after_checks; try done.
    cbv zeta. rewrite Hdir, Hdepth. rewrite bool_decide_eq_true_2 by done.
    apply runs_try_value.
    eapply (runs_bind _ _ _ [_] _).
    { eapply runs_start_value. apply runs_copy_object. }
    eapply (runs_script_eq _ _ (_ ++ [])); [apply List.app_nil_r|].
    eapply runs_bind.
    { unfold listAll.
      apply (listAll_from_runs fetch _ (λ promise_array _, promise_array ++ [None])
               (copy_script env bucket destination (resource_path +:+ "/") copied_of));
        try done.
      intros promise_array o.
      eapply (runs_script_eq _ _ (_ ++ [])); [apply List.app_nil_r|].
      eapply runs_bind; [|apply runs_ret].
      eapply runs_start_value. unfold copy_script.
      eapply (runs_bind _ _ _ [_] []); [apply runs_copy_object|].
      rewrite Hcopies. apply runs_ret. }
    eapply (runs_bind _ _ _ [] []); [|apply runs_ret].
    apply runs_Promise_all, all_fulfilled. by repeat constructor.
  - intros marker_copied Hdepth Hcopied.
    apply copy_after_checks; try done.
    cbv zeta. rewrite Hdir, Hdepth. cbn [default from_option id].
    rewrite (bool_decide_eq_false_2 ("0" = "infinity")) by done.
    rewrite (bool_decide_eq_true_2 ("0" = "0")) by done.
    apply runs_try_value. eapply (runs_bind _ _ _ [_] []); [apply runs_copy_object|].
    rewrite Hcopied. apply runs_ret.
  - intros depth Hdepth Hinfinity Hzero.
    eapply (runs_script_eq _ _ (checks ++ [])); [apply List.app_nil_r|].
    apply copy_after_checks; try done.
    cbv zeta. rewrite Hdir, Hdepth. cbn [default from_option id].
    rewrite !bool_decide_eq_false_2 by done.
    apply runs_try_value, runs_ret.
Qed.

End Copy.

(** ** MOVE: what is deleted, and when *)

Section MoveEdges.

Context `{Runtime} {World : Type}.
Variable fetch : Request.t → World → FetchOutcome * World.
Variable fuel : nat.

(** MOVE up to the comparison of the two paths, when the checks of the
    destination pass and the source is there. *)
Lemma move_after_checks (request : Request.t) (env : Env)
    (bucket resource_path destination destination_header : string)
    (parent_outcome destination_outcome : FetchOutcome) (source : Response.t)
    (rest : list (Request.t * FetchOutcome)) (result : Result Response.t) :
  resource_path_of (Request.url request) = Some resource_path →
  Headers_get (Request.headers request) "Destination" = Some destination_header →
  resource_path_of destination_header = Some destination →
  resource_path ≠ destination →
  (destination_parent_of destination ≠ "" → missing parent_outcome = false) →
  (present destination_outcome = true →
   Headers_get (Request.headers request) "Overwrite" = Some "T") →
  Response.status source ≠ 404 →
  runs fetch
    (try_catch
       (_ <- (if present destination_outcome then
                _ <- handle_delete fetch fuel
                       (Request.mk destination_header (Request.method request)
                          (Request.headers request) (Request.body request))
                       env bucket ;;
                ret tt
              else ret tt) ;;
        let is_dir := marked_collection (Resolved source) in
        if is_dir then
          let depth := default "infinity" (Headers_get (Request.headers request) "Depth") in
          if bool_decide (depth = "infinity") then
            let prefix := resource_path +:+ "/" in
            moveDir <-
              start (_ <- copy_object fetch env bucket destination resource_path ;;
                     delete_object fetch env bucket resource_path) ;;
            promise_array <-
              listAll fetch fuel env bucket prefix true
                (fun promise_array object =>
                   promise <-
                     start (move_object fetch env bucket destination prefix (key object)) ;;
                   ret (promise_array ++ [promise]))
                [moveDir] ;;
            _ <- Promise_all promise_array ;;
            ret (copied_response (present destination_outcome))
          else if bool_decide (depth = "0") then
            copyResponse <- copy_object fetch env bucket destination resource_path ;;
            if negb (Response.ok copyResponse) then throw (S3_copy_error copyResponse)
            else
              _ <- delete_object fetch env bucket resource_path ;;
              ret (copied_response (present destination_outcome))
          else ret (new_Response (Some "Bad Request") 400)
        else
          copyResponse <- copy_object fetch env bucket destination resource_path ;;
          if negb (Response.ok copyResponse) then throw (S3_copy_error copyResponse)
          else
            _ <- delete_object fetch env bucket resource_path ;;
            ret (copied_response (present destination_outcome)))
       catch_404)
    rest result →
  runs fetch (handle_move fetch fuel request env bucket)
    (move_checks env bucket resource_path destination parent_outcome destination_outcome source
     ++ rest)
    result.
Proof.
  intros Hpath Hheader Hdest Hne Hparent Hallowed Hfound Hrest.
  unfold handle_move, move_checks. rewrite <-!(assoc_L (++)).
  eapply (runs_bind _ _ _ [] _); [by apply runs_make_resource_path|]. rewrite Hheader.
  eapply (runs_bind _ _ _ [] _); [by apply runs_destination_of|].
  eapply runs_bind; [by apply runs_check_parent_pass|].
  eapply (runs_bind _ _ _ [_] (_ :: _)); [apply runs_check_destination|].
  assert (present destination_outcome
          && negb (bool_decide (Headers_get (Request.headers request) "Overwrite" = Some "T"))
          = false) as ->.
  { destruct (present destination_outcome); [|done].
    by rewrite bool_decide_eq_true_2 by auto. }
  eapply (runs_try_bind _ _ _ _ [_] rest); [apply runs_fetch_resolved|].
  apply Z.eqb_neq in Hfound. rewrite Hfound.
  rewrite (bool_decide_eq_false_2 (resource_path = destination)) by done.
  exact Hrest.
Qed.

(** The deletion of a plain destination before a move. *)
Lemma runs_delete_plain (request : Request.t) (env : Env) (bucket resource_path : string)
    (head deleted : Response.t) :
  resource_path_of (Request.url request) = Some resource_path →
  resource_path ≠ "" →
  Response.status head ≠ 404 →
  marked_collection (Resolved head) = false →
  Response.ok deleted = true →
  runs fetch (handle_delete fetch fuel request env bucket)
    [(head_call env bucket resource_path, Resolved head);
     (delete_call env bucket resource_path, Resolved deleted)]
    (Value (new_Response None 204)).
Proof.
  intros Hpath Hrp Hfound Hplain Hok. unfold handle_delete.
  eapply (runs_bind _ _ _ [] _); [by apply runs_make_resource_path|].
  rewrite bool_decide_eq_false_2 by done.
  eapply (runs_try_bind _ _ _ _ [_] [_]); [apply runs_fetch_resolved|].
  apply Z.eqb_neq in Hfound. rewrite Hfound.
  eapply (runs_try_bind _ _ _ _ [_] []); [apply runs_fetch_resolved|].
  rewrite Hok. cbn [negb]. cbn [marked_collection] in Hplain.
  apply bool_decide_eq_false in Hplain. rewrite bool_decide_eq_true_2 by done.
  apply runs_try_value, runs_ret.
Qed.

(** X13.  A MOVE whose copy the store refuses does not delete the source: the
    handler fails on the refusal, or answers 404 when the refusal is a
    404, and the deletion of the source is never asked for. *)
Theorem move_keeps_the_source_of_a_refused_copy (request : Request.t) (env : Env)
    (bucket resource_path destination : string)
    (parent_outcome destination_outcome : FetchOutcome) (source copied : Response.t) :
  resource_path_of (Request.url request) = Some resource_path →
  destination_key request = Some destination →
  resource_path ≠ destination →
  (destination_parent_of destination ≠ "" → missing parent_outcome = false) →
  present destination_outcome = false →
  Response.status source ≠ 404 →
  marked_collection (Resolved source) = false →
  Response.ok copied = false →
  let script :=
    move_checks env bucket resource_path destination parent_outcome destination_outcome source
    ++ [(copy_call env bucket destination resource_path, Resolved copied)] in
  runs fetch (handle_move fetch fuel request env bucket) script (caught (S3_copy_error copied))
  ∧ Forall (λ call, Request.method call ≠ "DELETE") script.*1.
Proof.
  intros Hpath Hdestination Hne Hparent Habsent Hfound Hplain Hrefused script.
  destruct (destination_key_inv _ _ Hdestination) as (dh & Hheader & Hdest). split.
  - apply (move_after_checks request env bucket resource_path destination dh); try done.
    { by rewrite Habsent. }
    cbv zeta. rewrite Habsent, Hplain. apply runs_try_caught.
    eapply (runs_bind _ _ _ [] _); [apply runs_ret|].
    eapply (runs_script_eq _ _ ([_] ++ [])); [done|].
    eapply runs_bind; [apply runs_copy_object|]. rewrite Hrefused. apply runs_throw.
  - unfold script, move_checks, parent_script.
    case_bool_decide; repeat (constructor; [done|]); constructor.
Qed.

(** X14.  A MOVE of a collection with a Depth other than infinity and 0 is
    answered 400 and moves nothing.  The Depth is looked at after the
    destination has been made free: when the destination is there and
    may be replaced, it has been deleted by then. *)
Theorem move_with_another_depth (request : Request.t) (env : Env)
    (bucket resource_path destination depth : string)
    (parent_outcome : FetchOutcome) (source : Response.t) :
  resource_path_of (Request.url request) = Some resource_path →
  destination_key request = Some destination →
  resource_path ≠ destination →
  (destination_parent_of destination ≠ "" → missing parent_outcome = false) →
  Response.status source ≠ 404 →
  marked_collection (Resolved source) = true →
  Headers_get (Request.headers request) "Depth" = Some depth →
  depth ≠ "infinity" → depth ≠ "0" →
  (∀ destination_outcome,
     present destination_outcome = false →
     runs fetch (handle_move fetch fuel request env bucket)
       (move_checks env bucket resource_path destination parent_outcome destination_outcome
          source)
       (Value (new_Response (Some "Bad Request") 400)))
  ∧ (∀ destination_head destination_head_again destination_deleted,
       Headers_get (Request.headers request) "Overwrite" = Some "T" →
       destination ≠ "" →
       Response.ok destination_head = true →
       Response.status destination_head_again ≠ 404 →
       marked_collection (Resolved destination_head_again) = false →
       Response.ok destination_deleted = true →
       runs fetch (handle_move fetch fuel request env bucket)
         (move_checks env bucket resource_path destination parent_outcome
            (Resolved destination_head) source
          ++ [(head_call env bucket destination, Resolved destination_head_again);
              (delete_call env bucket destination, Resolved destination_deleted)])
         (Value (new_Response (Some "Bad Request") 400))).
Proof.
  intros Hpath Hdestination Hne Hparent Hfound Hdir Hdepth Hinfinity Hzero.
  destruct (destination_key_inv _ _ Hdestination) as (dh & Hheader & Hdest). split.
  - intros destination_outcome Habsent.
    eapply (runs_script_eq _ _ (_ ++ [])); [apply List.app_nil_r|].
    apply (move_after_checks request env bucket resource_path destination dh); try done.
    { by rewrite Habsent. }
    cbv zeta. rewrite Habsent, Hdir, Hdepth. cbn [default from_option id].
    rewrite !bool_decide_eq_false_2 by done.
    apply runs_try_value. eapply (runs_bind _ _ _ [] []); apply runs_ret.
  - intros destination_head destination_head_again destination_deleted
      Hoverwrite Hd Hhead Hagain Hagain_plain Hdeleted.
    apply (move_after_checks request env bucket resource_path destination dh); try done.
    cbv zeta. cbn [present]. rewrite Hhead, Hdir, Hdepth. cbn [default from_option id].
    rewrite !bool_decide_eq_false_2 by done.
    apply runs_try_value.
    eapply (runs_bind _ _ _ [_; _] []); [|apply runs_ret].
    eapply (runs_bind _ _ _ [_; _] []); [|apply runs_ret].
    by apply runs_delete_plain.
Qed.

(** X15.  A COPY or a MOVE without a Destination header is answered 400 before
    the store is asked for anything. *)
Theorem copy_and_move_need_a_destination (request : Request.t) (env : Env)
    (bucket resource_path : string) :
  resource_path_of (Request.url request) = Some resource_path →
  Headers_get (Request.headers request) "Destination" = None →
  runs fetch (handle_copy fetch fuel request env bucket) []
    (Value (new_Response (Some "Bad Request") 400))
  ∧ runs fetch (handle_move fetch fuel request env bucket) []
      (Value (new_Response (Some "Bad Request") 400)).
Proof.
  intros Hpath Hheader. split.
  - unfold handle_copy.
    eapply (runs_bind _ _ _ [] []); [by apply runs_make_resource_path|].
    rewrite Hheader. apply runs_ret.
  - unfold handle_move.
    eapply (runs_bind _ _ _ [] []); [by apply runs_make_resource_path|].
    rewrite Hheader. apply runs_ret.
Qed.

End MoveEdges.

(** ** PROPPATCH *)

Lemma toLowerCase_app (s t : string) : toLowerCase (s +:+ t) = toLowerCase s +:+ toLowerCase t.
Proof. induction s as [|c s IH]; [done|]. rewrite str_app_cons. cbn. by rewrite IH. Qed.

Lemma lower_char_idemp (c : ascii) : lower_char (lower_char c) = lower_char c.
Proof.
  unfold lower_char. destruct ((65 <=? nat_of_ascii c) && (nat_of_ascii c <=? 90))%nat eqn:E;
    [|by rewrite E].
  apply andb_prop in E as [E1 E2]. apply Nat.leb_le in E1, E2.
  rewrite nat_ascii_embedding by lia.
  destruct ((65 <=? nat_of_ascii c + 32) && (nat_of_ascii c + 32 <=? 90))%nat eqn:E'; [|done].
  apply andb_prop in E' as [_ E']. apply Nat.leb_le in E'. lia.
Qed.

Lemma toLowerCase_idemp (s : string) : toLowerCase (toLowerCase s) = toLowerCase s.
Proof. induction s as [|c s IH]; [done|]. cbn. by rewrite lower_char_idemp, IH. Qed.

Lemma str_app_inv_head (p s t : string) : p +:+ s = p +:+ t → s = t.
Proof. induction p as [|c p IH]; [done|]. rewrite !str_app_cons. intros [= E]. by apply IH. Qed.

(** *** Records of strings *)

Section Records.

Variable selected : string → Prop.
Context `{!∀ k, Decision (selected k)}.

Lemma filter_record_set_other (record : list (string * string)) (k v : string) :
  ¬ selected k →
  filter (λ kv, selected kv.1) (record_set record k v) = filter (λ kv, selected kv.1) record.
Proof.
  intros Hother. induction record as [|[k' v'] record IH].
  - cbn [record_set]. by rewrite filter_cons_False.
  - cbn [record_set]. destruct (String.eqb k' k) eqn:E.
    + apply String.eqb_eq in E as ->. by rewrite !filter_cons_False.
    + destruct (decide (selected k')).
      * rewrite !(filter_cons_True _ (k', v')) by done. by rewrite IH.
      * rewrite !(filter_cons_False _ (k', v')) by done. by rewrite IH.
Qed.

Lemma filter_record_set_one (record : list (string * string)) (k v : string) :
  selected k →
  (filter (λ kv, selected kv.1) record = []
   ∨ ∃ v0, filter (λ kv, selected kv.1) record = [(k, v0)]) →
  filter (λ kv, selected kv.1) (record_set record k v) = [(k, v)].
Proof.
  intros Hselected. induction record as [|[k' v'] record IH]; intros Hone.
  - cbn [record_set]. by rewrite filter_cons_True.
  - cbn [record_set]. destruct (String.eqb k' k) eqn:E.
    + apply String.eqb_eq in E as ->. rewrite filter_cons_True by done.
      rewrite filter_cons_True in Hone by done.
      destruct Hone as [Hone | [v0 Hone]]; [done|]. by injection Hone as _ ->.
    + destruct (decide (selected k')).
      * rewrite filter_cons_True in Hone by done.
        destruct Hone as [Hone | [v0 Hone]]; [done|]. injection Hone as -> _ _.
        by rewrite String.eqb_refl in E.
      * rewrite filter_cons_False in Hone by done. rewrite filter_cons_False by done.
        by apply IH.
Qed.

Lemma filter_record_delete_other (record : list (string * string)) (k : string) :
  ¬ selected k →
  filter (λ kv, selected kv.1) (record_delete record k) = filter (λ kv, selected kv.1) record.
Proof.
  intros Hother. unfold record_delete. induction record as [|[k' v'] record IH]; [done|].
  destruct (String.eqb k' k) eqn:E.
  - apply String.eqb_eq in E as ->.
    rewrite (filter_cons_False _ (k, v')) by (cbn; by rewrite String.eqb_refl).
    by rewrite (filter_cons_False _ (k, v')).
  - rewrite (filter_cons_True _ (k', v')) by done.
    destruct (decide (selected k')).
    + rewrite !(filter_cons_True _ (k', v')) by done. by rewrite IH.
    + rewrite !(filter_cons_False _ (k', v')) by done. by rewrite IH.
Qed.

Lemma filter_record_delete_one (record : list (string * string)) (k : string) :
  (filter (λ kv, selected kv.1) record = []
   ∨ ∃ v0, filter (λ kv, selected kv.1) record = [(k, v0)]) →
  filter (λ kv, selected kv.1) (record_delete record k) = [].
Proof.
  unfold record_delete. induction record as [|[k' v'] record IH]; intros Hone; [done|].
  destruct (String.eqb k' k) eqn:E.
  - apply String.eqb_eq in E as ->.
    rewrite (filter_cons_False _ (k, v')) by (cbn; by rewrite String.eqb_refl).
    apply IH. destruct (decide (selected k)).
    + rewrite filter_cons_True in Hone by done.
      destruct Hone as [Hone | [v0 Hone]]; [done|]. left. by injection Hone as _ ->.
    + by rewrite filter_cons_False in Hone.
  - rewrite (filter_cons_True _ (k', v')) by done.
    destruct (decide (selected k')).
    + rewrite filter_cons_True in Hone by done.
      destruct Hone as [Hone | [v0 Hone]]; [done|]. injection Hone as -> _ _.
      by rewrite String.eqb_refl in E.
    + rewrite filter_cons_False in Hone by done. rewrite filter_cons_False by done.
      by apply IH.
Qed.

End Records.

(** *** The entries of a Headers object *)

Lemma insert_name_elem (name x : string) (names : list string) :
  x ∈ insert_name name names ↔ x = name ∨ x ∈ names.
Proof.
  induction names as [|n names IH]; cbn [insert_name].
  - rewrite list_elem_of_singleton, elem_of_nil. tauto.
  - destruct (String.eqb name n) eqn:E.
    + apply String.eqb_eq in E as ->. rewrite elem_of_cons. tauto.
    + destruct (String.ltb name n); rewrite !elem_of_cons; [tauto|].
      rewrite IH. tauto.
Qed.

Lemma names_elem (x : string) (l : list string) : x ∈ foldr insert_name [] l ↔ x ∈ l.
Proof.
  induction l as [|n l IH]; [done|]. cbn [foldr].
  by rewrite insert_name_elem, IH, elem_of_cons.
Qed.

Lemma Headers_get_lower (h : Headers) (name : string) :
  Headers_get h (toLowerCase name) = Headers_get h name.
Proof. unfold Headers_get. by rewrite toLowerCase_idemp. Qed.

Lemma Headers_get_same (h : Headers) (name other : string) :
  toLowerCase name = toLowerCase other → Headers_get h name = Headers_get h other.
Proof. intros E. unfold Headers_get. by rewrite E. Qed.

Lemma Headers_get_named (h : Headers) (name v : string) :
  Headers_get h name = Some v → toLowerCase name ∈ (λ kv : string * string, toLowerCase kv.1) <$> h.
Proof.
  unfold Headers_get.
  destruct (filter _ h) as [|kv found] eqn:E; [done|]. intros _.
  assert (kv ∈ filter (λ kv : string * string,
                         String.eqb (toLowerCase kv.1) (toLowerCase name) = true) h) as Hin
    by (rewrite E; set_solver).
  apply list_elem_of_filter in Hin as [Hname Hin]. apply String.eqb_eq in Hname.
  rewrite <-Hname. by apply (list_elem_of_fmap_2 (λ kv : string * string, toLowerCase kv.1)).
Qed.

Lemma Headers_entries_elem (h : Headers) (name v : string) :
  (name, v) ∈ Headers_entries h
  ↔ name ∈ (λ kv : string * string, toLowerCase kv.1) <$> h ∧ Headers_get h name = Some v.
Proof.
  unfold Headers_entries. rewrite list_elem_of_omap. split.
  - intros (n & Hn & Hv). apply (proj1 (names_elem _ _)) in Hn.
    destruct (Headers_get h n) as [v'|] eqn:E; [|done].
    cbn in Hv. injection Hv as <- <-. by split.
  - intros [Hn Hv]. exists name. split; [by apply (proj2 (names_elem _ _))|]. by rewrite Hv.
Qed.

Section Metadata.

(** A metadata header of the object, by the name of its property. *)
Variable property : string.

Local Abbreviation name := ("x-amz-meta-" +:+ property).
Local Abbreviation selected := (named ("x-amz-meta-" +:+ property)).
#[local] Existing Instance named_dec.

Lemma name_lower : toLowerCase name = "x-amz-meta-" +:+ toLowerCase property.
Proof. by rewrite toLowerCase_app. Qed.

Lemma omap_cons_eq {A B} (f : A → option B) (x : A) (l : list A) :
  omap f (x :: l) = match f x with Some y => y :: omap f l | None => omap f l end.
Proof. done. Qed.

Lemma copy_headers_other (names : list string) (from : Headers) :
  Forall (λ n, ¬ selected n) names →
  filter (λ kv : string * string, selected kv.1) (copy_headers names from) = [].
Proof.
  unfold copy_headers. induction 1 as [|n names Hn Hnames IH]; [done|].
  rewrite omap_cons_eq.
  destruct (Js.or_undefined (Headers_get from n)) as [v|];
    cbn [fmap option_fmap option_map]; [|done].
  by rewrite (filter_cons_False _ (n, v)).
Qed.

Lemma content_names_other (from : Headers) :
  filter (λ kv : string * string, selected kv.1) (copy_headers content_headers from) = [].
Proof.
  apply copy_headers_other. unfold content_headers, named. rewrite name_lower.
  repeat (constructor; [intros E; by vm_compute in E|]). constructor.
Qed.

Lemma other_property (q : string) :
  toLowerCase q ≠ toLowerCase property → ¬ selected ("x-amz-meta-" +:+ q).
Proof.
  intros Hq E. unfold named in E. apply String.eqb_eq in E.
  rewrite name_lower, toLowerCase_app in E. by apply str_app_inv_head in E.
Qed.

Lemma kept_by_entries (v : string) (entries : list (string * string))
    (record : list (string * string)) :
  (∀ k v', (k, v') ∈ entries → selected k → k = toLowerCase name ∧ v' = v) →
  (filter (λ kv : string * string, selected kv.1) record = []
   ∨ filter (λ kv : string * string, selected kv.1) record = [(toLowerCase name, v)]) →
  let result :=
    foldl (λ headers kv,
             if Js.startsWith kv.1 "x-amz-meta-" then record_set headers kv.1 kv.2 else headers)
          record entries in
  (filter (λ kv : string * string, selected kv.1) result = []
   ∨ filter (λ kv : string * string, selected kv.1) result = [(toLowerCase name, v)])
  ∧ ((toLowerCase name, v) ∈ entries
     ∨ filter (λ kv : string * string, selected kv.1) record = [(toLowerCase name, v)] →
     filter (λ kv : string * string, selected kv.1) result = [(toLowerCase name, v)]).
Proof.
  revert record. induction entries as [|[k v'] entries IH]; intros record Hentries Hrecord.
  - cbn. split; [done|]. intros [Hin|?]; [|done]. by apply elem_of_nil in Hin.
  - cbn [foldl fst snd]. cbv zeta.
    assert (selected (toLowerCase name)) as Hname.
    { unfold named. rewrite toLowerCase_idemp. apply String.eqb_refl. }
    assert (Js.startsWith (toLowerCase name) "x-amz-meta-" = true) as Hmeta.
    { rewrite name_lower. apply startsWith_app. }
    destruct (decide (selected k)) as [Hk|Hk].
    + destruct (Hentries k v' ltac:(by left) Hk) as [-> ->]. rewrite Hmeta.
      assert (filter (λ kv : string * string, selected kv.1)
                (record_set record (toLowerCase name) v) = [(toLowerCase name, v)]) as Hset.
      { apply (@filter_record_set_one selected (named_dec name)); [done|]. destruct Hrecord; eauto. }
      destruct (IH (record_set record (toLowerCase name) v)) as [Hresult Hkept];
        [by intros k0 v0 Hin; apply Hentries; right|by right|].
      split; [done|]. intros _. apply Hkept. by right.
    + assert (filter (λ kv : string * string, selected kv.1)
                (if Js.startsWith k "x-amz-meta-" then record_set record k v' else record)
              = filter (λ kv : string * string, selected kv.1) record) as Hsame.
      { destruct (Js.startsWith k "x-amz-meta-"); [|done].
        by apply (@filter_record_set_other selected (named_dec name)). }
      destruct (IH (if Js.startsWith k "x-amz-meta-" then record_set record k v' else record))
        as [Hresult Hkept]; [by intros k0 v0 Hin; apply Hentries; right|by rewrite Hsame|].
      split; [done|]. intros [Hin|Hrec]; apply Hkept.
      * apply elem_of_cons in Hin as [[= <- <-]|Hin]; [done|by left].
      * right. by rewrite Hsame.
Qed.

Lemma kept_by_set (setProperties : list (string * string)) (record : list (string * string)) :
  Forall (λ kv, toLowerCase kv.1 ≠ toLowerCase property) setProperties →
  filter (λ kv : string * string, selected kv.1)
    (foldl (λ headers kv, record_set headers ("x-amz-meta-" +:+ kv.1) kv.2) record setProperties)
  = filter (λ kv : string * string, selected kv.1) record.
Proof.
  intros Hset. revert record. induction Hset as [|kv l Hkv Hl IH]; intros record; [done|].
  cbn [foldl]. rewrite IH. by apply (@filter_record_set_other selected (named_dec name)), other_property.
Qed.

Lemma kept_by_remove (removeProperties : list string) (record : list (string * string)) :
  Forall (λ q, toLowerCase q ≠ toLowerCase property) removeProperties →
  filter (λ kv : string * string, selected kv.1)
    (foldl (λ headers q, record_delete headers ("x-amz-meta-" +:+ q)) record removeProperties)
  = filter (λ kv : string * string, selected kv.1) record.
Proof.
  intros Hremove. revert record. induction Hremove as [|q l Hq Hl IH]; intros record; [done|].
  cbn [foldl]. rewrite IH. by apply (@filter_record_delete_other selected (named_dec name)), other_property.
Qed.

Lemma Headers_get_selected (h : list (string * string)) (v : string) :
  filter (λ kv : string * string, selected kv.1) h = [(toLowerCase name, v)] →
  Headers_get h name = Some v.
Proof.
  intros E.
  assert (Headers_get h name
          = match filter (λ kv : string * string, selected kv.1) h with
            | [] => None
            | found => Some (Js.join ", " (snd <$> found))
            end) as -> by reflexivity.
  by rewrite E.
Qed.

Lemma Headers_get_unselected (h : list (string * string)) :
  filter (λ kv : string * string, selected kv.1) h = [] → Headers_get h name = None.
Proof.
  intros E.
  assert (Headers_get h name
          = match filter (λ kv : string * string, selected kv.1) h with
            | [] => None
            | found => Some (Js.join ", " (snd <$> found))
            end) as -> by reflexivity.
  by rewrite E.
Qed.

Lemma selected_of_get (h : list (string * string)) :
  filter (λ kv : string * string, selected kv.1) h
  = match Headers_get h name with
    | None => []
    | Some _ => filter (λ kv : string * string, selected kv.1) h
    end.
Proof.
  assert (Headers_get h name
          = match filter (λ kv : string * string, selected kv.1) h with
            | [] => None
            | found => Some (Js.join ", " (snd <$> found))
            end) as -> by reflexivity.
  by destruct (filter (λ kv : string * string, selected kv.1) h).
Qed.

Lemma unselected_by_entries (entries : list (string * string))
    (record : list (string * string)) :
  (∀ k v', (k, v') ∈ entries → ¬ selected k) →
  filter (λ kv : string * string, selected kv.1)
    (foldl (λ headers kv,
              if Js.startsWith kv.1 "x-amz-meta-" then record_set headers kv.1 kv.2 else headers)
           record entries)
  = filter (λ kv : string * string, selected kv.1) record.
Proof.
  revert record. induction entries as [|[k v'] entries IH]; intros record Hentries; [done|].
  cbn [foldl fst snd]. rewrite IH by (by intros k0 v0 Hin; apply (Hentries k0 v0); right).
  destruct (Js.startsWith k "x-amz-meta-"); [|done].
  apply (@filter_record_set_other selected (named_dec name)). apply (Hentries k v'). by left.
Qed.

(** The metadata of the object that PROPPATCH has gathered before it
    looks at the properties to set and to remove. *)
Lemma gathered_metadata (head : Headers) :
  filter (λ kv : string * string, selected kv.1)
    (foldl (λ headers kv,
              if Js.startsWith kv.1 "x-amz-meta-" then record_set headers kv.1 kv.2 else headers)
           (copy_headers content_headers head) (Headers_entries head))
  = match Headers_get head name with
    | Some v => [(toLowerCase name, v)]
    | None => []
    end.
Proof.
  destruct (Headers_get head name) as [v|] eqn:Hhead.
  - destruct (kept_by_entries v (Headers_entries head) (copy_headers content_headers head))
      as [_ Hkept]; [| |apply Hkept].
    + intros k v' Hin Hk. apply Headers_entries_elem in Hin as [Hlower Hv].
      apply list_elem_of_fmap in Hlower as ([k0 v0] & -> & _). cbn [fst] in *.
      unfold named in Hk. apply String.eqb_eq in Hk. rewrite toLowerCase_idemp in Hk.
      split; [done|].
      rewrite (Headers_get_same head _ name) in Hv by (by rewrite toLowerCase_idemp).
      congruence.
    + left. apply content_names_other.
    + left. apply Headers_entries_elem. split; [by eapply Headers_get_named|].
      by rewrite Headers_get_lower.
  - rewrite unselected_by_entries; [apply content_names_other|].
    intros k v' Hin Hk. apply Headers_entries_elem in Hin as [Hlower Hv].
    apply list_elem_of_fmap in Hlower as ([k0 v0] & -> & _). cbn [fst] in *.
    unfold named in Hk. apply String.eqb_eq in Hk. rewrite toLowerCase_idemp in Hk.
    rewrite (Headers_get_same head _ name) in Hv by (by rewrite toLowerCase_idemp).
    congruence.
Qed.

Hypothesis lower_property : toLowerCase property = property.

Lemma lower_name : toLowerCase name = name.
Proof. by rewrite name_lower, lower_property. Qed.

Lemma selected_name : selected name.
Proof. unfold named. apply String.eqb_refl. Qed.

Lemma gathered_lower (head : Headers) :
  filter (λ kv : string * string, selected kv.1)
    (foldl (λ headers kv,
              if Js.startsWith kv.1 "x-amz-meta-" then record_set headers kv.1 kv.2 else headers)
           (copy_headers content_headers head) (Headers_entries head))
  = match Headers_get head name with
    | Some v => [(name, v)]
    | None => []
    end.
Proof.
  pose proof (gathered_metadata head) as Hgathered.
  destruct (Headers_get head name) as [v|]; [|done].
  etransitivity; [exact Hgathered|]. do 2 f_equal. apply lower_name.
Qed.

Lemma Headers_get_selected_lower (h : list (string * string)) (v : string) :
  filter (λ kv : string * string, selected kv.1) h = [(name, v)] →
  Headers_get h name = Some v.
Proof.
  intros E. apply Headers_get_selected. etransitivity; [exact E|].
  do 2 f_equal. symmetry. apply lower_name.
Qed.

Lemma other_lower (q : string) :
  toLowerCase q = q → q ≠ property → toLowerCase q ≠ toLowerCase property.
Proof. intros Hq Hne. by rewrite Hq, lower_property. Qed.

Lemma set_by_set (setProperties : list (string * string)) (record : list (string * string))
    (v : string) :
  Forall (λ kv, toLowerCase kv.1 = kv.1) setProperties →
  NoDup setProperties.*1 →
  (property, v) ∈ setProperties →
  (filter (λ kv : string * string, selected kv.1) record = []
   ∨ ∃ v0, filter (λ kv : string * string, selected kv.1) record = [(name, v0)]) →
  filter (λ kv : string * string, selected kv.1)
    (foldl (λ headers kv, record_set headers ("x-amz-meta-" +:+ kv.1) kv.2) record setProperties)
  = [(name, v)].
Proof.
  intros Hlow. revert record.
  induction Hlow as [|[q w] l Hq Hl IH]; intros record Hnodup Hin Hrecord.
  - by apply elem_of_nil in Hin.
  - cbn [fmap list_fmap fst] in Hnodup. apply NoDup_cons in Hnodup as [Hfresh Hnodup].
    cbn [foldl fst snd] in *. destruct (decide (q = property)) as [->|Hne].
    + assert (w = v) as ->.
      { apply elem_of_cons in Hin as [[= ->]|Hin]; [done|].
        destruct Hfresh. apply list_elem_of_fmap. by exists (property, v). }
      rewrite kept_by_set.
      * by apply (@filter_record_set_one selected (named_dec name)); [apply selected_name|].
      * apply Forall_forall. intros [q' w'] Hin' E. cbn [fst] in E.
        apply (proj1 (Forall_forall _ _) Hl) in Hin' as Hq'. cbn [fst] in Hq'.
        rewrite Hq', lower_property in E. subst q'.
        destruct Hfresh. apply list_elem_of_fmap. by exists (property, w').
    + apply IH; [done| |].
      * apply elem_of_cons in Hin as [[= <- _]|Hin]; done.
      * rewrite (@filter_record_set_other selected (named_dec name)); [done|].
        by apply other_property, other_lower.
Qed.

Lemma removed_stays_removed (removeProperties : list string)
    (record : list (string * string)) :
  Forall (λ q, toLowerCase q = q) removeProperties →
  filter (λ kv : string * string, selected kv.1) record = [] →
  filter (λ kv : string * string, selected kv.1)
    (foldl (λ headers q, record_delete headers ("x-amz-meta-" +:+ q)) record removeProperties)
  = [].
Proof.
  intros Hlow. revert record. induction Hlow as [|q l Hq Hl IH]; intros record Hrecord; [done|].
  cbn [foldl]. apply IH. destruct (decide (q = property)) as [->|Hne].
  - apply (@filter_record_delete_one selected (named_dec name)). by left.
  - rewrite (@filter_record_delete_other selected (named_dec name)); [done|].
    by apply other_property, other_lower.
Qed.

Lemma removed_by_remove (removeProperties : list string) (record : list (string * string)) :
  Forall (λ q, toLowerCase q = q) removeProperties →
  property ∈ removeProperties →
  (filter (λ kv : string * string, selected kv.1) record = []
   ∨ ∃ v0, filter (λ kv : string * string, selected kv.1) record = [(name, v0)]) →
  filter (λ kv : string * string, selected kv.1)
    (foldl (λ headers q, record_delete headers ("x-amz-meta-" +:+ q)) record removeProperties)
  = [].
Proof.
  intros Hlow. revert record.
  induction Hlow as [|q l Hq Hl IH]; intros record Hin Hrecord.
  - by apply elem_of_nil in Hin.
  - cbn [foldl]. destruct (decide (q = property)) as [->|Hne].
    + apply removed_stays_removed; [done|].
      by apply (@filter_record_delete_one selected (named_dec name)).
    + apply IH.
      * apply elem_of_cons in Hin as [->|Hin]; done.
      * rewrite (@filter_record_delete_other selected (named_dec name)); [done|].
        by apply other_property, other_lower.
Qed.

(** The metadata header of a property in what PROPPATCH writes back. *)
Lemma proppatch_metadata (head : Headers) (setProperties : list (string * string))
    (removeProperties : list string) :
  Forall (λ kv, toLowerCase kv.1 = kv.1) setProperties →
  NoDup setProperties.*1 →
  Forall (λ q, toLowerCase q = q) removeProperties →
  let written := proppatch_headers head setProperties removeProperties in
  (property ∈ removeProperties → Headers_get written name = None)
  ∧ (∀ v, property ∉ removeProperties → (property, v) ∈ setProperties →
     Headers_get written name = Some v)
  ∧ (property ∉ removeProperties → property ∉ setProperties.*1 →
     Headers_get written name = Headers_get head name).
Proof.
  intros Hset Hnodup Hremove written. subst written. unfold proppatch_headers. cbv zeta.
  pose proof (gathered_lower head) as Hgathered.
  assert (Forall (λ q, toLowerCase q ≠ toLowerCase property) removeProperties
          ∨ property ∈ removeProperties) as Hcase.
  { destruct (decide (property ∈ removeProperties)) as [?|Hout]; [by right|left].
    apply Forall_forall. intros q Hin. apply other_lower.
    - by apply (proj1 (Forall_forall _ _) Hremove).
    - by intros ->. }
  split; [|split].
  - intros Hin. apply Headers_get_unselected, removed_by_remove; [done..|].
    destruct (decide (property ∈ setProperties.*1)) as [Hs|Hs].
    + apply list_elem_of_fmap in Hs as ([q w] & E & Hs). cbn [fst] in E. subst q.
      right. exists w. apply set_by_set; [done..|].
      rewrite Hgathered. destruct (Headers_get head name); eauto.
    + rewrite kept_by_set.
      * rewrite Hgathered. destruct (Headers_get head name); eauto.
      * apply Forall_forall. intros [q w] Hq. cbn [fst]. apply other_lower.
        -- by apply (proj1 (Forall_forall _ _) Hset) in Hq.
        -- intros ->. destruct Hs. apply list_elem_of_fmap. by exists (property, w).
  - intros v Hout Hin. destruct Hcase as [Hcase|?]; [|done].
    apply Headers_get_selected_lower. rewrite kept_by_remove by done.
    apply set_by_set; [done..|].
    rewrite Hgathered. destruct (Headers_get head name); eauto.
  - intros Hout Hs. destruct Hcase as [Hcase|?]; [|done].
    assert (Forall (λ kv : string * string, toLowerCase kv.1 ≠ toLowerCase property)
              setProperties) as Hother.
    { apply Forall_forall. intros [q w] Hq. cbn [fst]. apply other_lower.
      - by apply (proj1 (Forall_forall _ _) Hset) in Hq.
      - intros ->. destruct Hs. apply list_elem_of_fmap. by exists (property, w). }
    destruct (Headers_get head name) as [v|] eqn:Hhead.
    + apply Headers_get_selected_lower. by rewrite kept_by_remove, kept_by_set.
    + apply Headers_get_unselected. by rewrite kept_by_remove, kept_by_set.
Qed.

End Metadata.

(** X16.  Of the metadata of an object, PROPPATCH writes back what it is asked
    to: for property names in lower case, as the handler records them,
    the header of a property to remove is not written, even when the
    property is also set; the header of a property to set carries the new
    value; and the header of any other property is written back as the
    store gave it, or not at all when the store gave none. *)
Theorem proppatch_sets_removes_and_keeps (head : Headers)
    (setProperties : list (string * string)) (removeProperties : list string)
    (property : string) :
  toLowerCase property = property →
  Forall (λ kv, toLowerCase kv.1 = kv.1) setProperties →
  NoDup setProperties.*1 →
  Forall (λ q, toLowerCase q = q) removeProperties →
  let written := proppatch_headers head setProperties removeProperties in
  (property ∈ removeProperties →
   Headers_get written ("x-amz-meta-" +:+ property) = None)
  ∧ (∀ v, property ∉ removeProperties → (property, v) ∈ setProperties →
     Headers_get written ("x-amz-meta-" +:+ property) = Some v)
  ∧ (property ∉ removeProperties → property ∉ setProperties.*1 →
     Headers_get written ("x-amz-meta-" +:+ property)
     = Headers_get head ("x-amz-meta-" +:+ property)).
Proof. intros Hlower Hset Hnodup Hremove. by apply proppatch_metadata. Qed.

Section Proppatch.

Context `{Runtime} {World : Type}.
Variable fetch : Request.t → World → FetchOutcome * World.
Variable propertyupdate : string → list (string * string) * list string.

(** X17.  PROPPATCH of a resource that the store does not have is answered 404
    and writes nothing: after the answer 404 to HEAD no other call is
    made, and after an answer to GET that is not good the object is not
    written. *)
Theorem proppatch_of_a_missing_resource (request : Request.t) (env : Env)
    (bucket resource_path : string) (head got : Response.t) :
  resource_path_of (Request.url request) = Some resource_path →
  (Response.status head = 404 →
   runs fetch (handle_proppatch fetch propertyupdate request env bucket)
     [(head_call env bucket resource_path, Resolved head)] (Value not_found))
  ∧ (Response.status head ≠ 404 → Response.ok got = false →
     runs fetch (handle_proppatch fetch propertyupdate request env bucket)
       [(head_call env bucket resource_path, Resolved head);
        (get_call env bucket resource_path [], Resolved got)] (Value not_found)).
Proof.
  intros Hpath. split.
  - intros Hhead. unfold handle_proppatch.
    eapply (runs_bind _ _ _ [] _); [by apply runs_make_resource_path|].
    eapply (runs_try_bind _ _ _ _ [_] []); [apply runs_fetch_resolved|].
    rewrite Hhead. apply runs_try_value, runs_ret.
  - intros Hhead Hgot. apply Z.eqb_neq in Hhead. unfold handle_proppatch.
    eapply (runs_bind _ _ _ [] _); [by apply runs_make_resource_path|].
    eapply (runs_try_bind _ _ _ _ [_] [_]); [apply runs_fetch_resolved|].
    rewrite Hhead. destruct (propertyupdate _) as [setProperties removeProperties].
    eapply (runs_try_bind _ _ _ _ [_] []); [apply runs_fetch_resolved|].
    rewrite Hgot. apply runs_try_value, runs_ret.
Qed.

(** X18.  PROPPATCH of a resource that the store has reads the headers and the
    body of the object and writes the object again, with the body it read
    and the headers it made of the headers it read and of the request.
    When the store takes the write, the answer is the multistatus 207 that
    names the properties to set and then the properties to remove; when
    it refuses, the handler fails with the error of the store, answered
    404 when its message mentions 404. *)
Theorem proppatch_writes_the_object_again (request : Request.t) (env : Env)
    (bucket resource_path : string) (head got put : Response.t) :
  resource_path_of (Request.url request) = Some resource_path →
  Response.status head ≠ 404 →
  Response.ok got = true →
  let update := propertyupdate (default "" (Request.body request)) in
  let script :=
    [(head_call env bucket resource_path, Resolved head);
     (get_call env bucket resource_path [], Resolved got);
     (put_call env bucket resource_path
        (proppatch_headers (Response.headers head) update.1 update.2)
        (default "" (Response.body got)), Resolved put)] in
  (Response.ok put = true →
   runs fetch (handle_proppatch fetch propertyupdate request env bucket) script
     (Value (proppatch_answer resource_path update.1 update.2)))
  ∧ (Response.ok put = false →
     runs fetch (handle_proppatch fetch propertyupdate request env bucket) script
       (caught (S3_API_error put))).
Proof.
  intros Hpath Hhead Hgot update script. subst update script.
  apply Z.eqb_neq in Hhead.
  split; intros Hput; unfold handle_proppatch;
    (eapply (runs_bind _ _ _ [] _); [by apply runs_make_resource_path|]).
  - eapply (runs_try_bind _ _ _ _ [_] [_; _]); [apply runs_fetch_resolved|].
    rewrite Hhead. destruct (propertyupdate _) as [setProperties removeProperties].
    eapply (runs_try_bind _ _ _ _ [_] [_]); [apply runs_fetch_resolved|].
    rewrite Hgot. cbn [negb].
    eapply (runs_try_bind _ _ _ _ [_] []); [apply runs_fetch_resolved|].
    rewrite Hput. apply runs_try_value, runs_ret.
  - apply runs_try_caught.
    eapply (runs_bind _ _ _ [_] [_; _]); [apply runs_fetch_resolved|].
    rewrite Hhead. destruct (propertyupdate _) as [setProperties removeProperties].
    eapply (runs_bind _ _ _ [_] [_]); [apply runs_fetch_resolved|].
    rewrite Hgot. cbn [negb].
    eapply (runs_bind _ _ _ [_] []); [apply runs_fetch_resolved|].
    rewrite Hput. apply runs_throw.
Qed.

End Proppatch.

(** ** Failures of a listing *)

Section ListingFails.

Context `{Runtime} {World : Type}.
Variable fetch : Request.t → World → FetchOutcome * World.

Lemma no_calls_of_objects (objs : list S3Object) :
  concat ((λ _ : S3Object, @nil (Request.t * FetchOutcome)) <$> objs) = [].
Proof. induction objs as [|o objs IH]; [done|]. by rewrite fmap_cons. Qed.

Lemma listAll_from_fails {Acc} (f : Acc → S3Object → Acc) (env : Env)
    (bucket prefix : string) (isRecursive : bool) (max_keys : nat) (outcome : FetchOutcome) :
  present outcome = false →
  ∀ (pages : list Page) (n : nat) (token : option string) (acc : Acc),
    forallb plain_page pages = true →
    forallb continued pages = true →
    (length pages < n)%nat →
    runs fetch
      (listAll_from fetch n env bucket prefix isRecursive token (λ acc o, ret (f acc o)) acc)
      (page_script env bucket prefix isRecursive max_keys token pages
       ++ [(list_call env bucket prefix isRecursive (token_after token pages), outcome)])
      (Throw match outcome with
             | Resolved response => S3_API_error response
             | Rejected message => message
             end).
Proof.
  intros Hbad.
  induction pages as [|[entries next] rest IH]; intros n token acc Hplain Hmore Hn.
  - destruct n as [|n]; [simpl in Hn; lia|]. cbn [page_script app token_after foldl listAll_from].
    destruct outcome as [response|message].
    + eapply (runs_bind _ _ _ [_] []); [apply runs_fetch_resolved|].
      cbn [present] in Hbad. rewrite Hbad. apply runs_throw.
    + apply runs_bind_throw, runs_fetch_rejected.
  - destruct n as [|n]; [simpl in Hn; lia|].
    simpl in Hplain. apply andb_prop in Hplain as [Hpage Hrest].
    unfold plain_page in Hpage. simpl in Hpage. apply andb_prop in Hpage as [Hkeys Htoken].
    cbn [forallb] in Hmore. apply andb_prop in Hmore as [Hnext Hmore].
    unfold continued in Hnext. cbn [snd] in Hnext.
    destruct next as [t|]; [|done].
    cbn [page_script listAll_from token_after foldl snd].
    rewrite <-List.app_comm_cons.
    eapply (runs_bind _ _ _ [_] _); [apply runs_fetch_resolved|].
    change (Response.ok (listing_response ?x)) with true.
    change (Response.body (listing_response ?x)) with (Some x).
    cbn [negb default from_option id].
    rewrite (parse_page _ _ _ _ _ _ (plain_keys_one_line _ Hkeys)).
    eapply (runs_bind _ _ _ [] _).
    { pose proof (for_of_runs fetch (λ acc o, ret (f acc o)) f (λ _, [])
                    (λ acc' o, runs_ret fetch (f acc' o)) (listed_objects entries) acc) as Hfor.
      by rewrite no_calls_of_objects in Hfor. }
    rewrite page_truncated, bool_decide_eq_true_2 by done.
    rewrite (page_token _ _ _ _ _ _ (plain_one_line t Htoken)), (plain_escape t Htoken).
    assert (Js.or_undefined (Some t) = Some t) as -> by (unfold Js.or_undefined; by rewrite Hnext).
    apply IH; [done|done|simpl in Hn; lia].
Qed.

(** X19.  A listing fails as a whole when the store refuses a page: after any
    number of pages that are truncated and name a token, a page that is
    asked for with the token of the last one and answered with a status
    that is no success, or not answered, ends the listing with the error
    of the store, and the keys of the pages before are not returned. *)
Theorem listAll_fails_on_a_refused_page (fuel : nat) (env : Env) (bucket prefix : string)
    (isRecursive : bool) (max_keys : nat) (pages : list Page) (outcome : FetchOutcome) :
  forallb plain_page pages = true →
  forallb continued pages = true →
  (length pages < fuel)%nat →
  present outcome = false →
  runs fetch
    (listAll fetch fuel env bucket prefix isRecursive
       (λ keys object, ret (keys ++ [key object])) [])
    (page_script env bucket prefix isRecursive max_keys None pages
     ++ [(list_call env bucket prefix isRecursive (token_after None pages), outcome)])
    (Throw match outcome with
           | Resolved response => S3_API_error response
           | Rejected message => message
           end).
Proof.
  intros Hplain Hmore Hfuel Hbad. unfold listAll.
  by apply (listAll_from_fails (λ keys object, keys ++ [key object])).
Qed.

End ListingFails.

(** ** PROPFIND without a listing, and on the root *)

Section PropfindEdges.

Context `{Runtime} {World : Type}.
Variable fetch : Request.t → World → FetchOutcome * World.
Variable fuel : nat.

(** X20.  PROPFIND of a key lists nothing when the head of the key is not
    good: it answers 404 to the status 404 of the store, and otherwise
    fails with the error of the store, or of the call when the call
    fails, which it answers 404 when the message mentions 404. *)
Theorem propfind_of_a_missing_resource (request : Request.t) (env : Env)
    (bucket resource_path : string) (outcome : FetchOutcome) :
  resource_path_of (Request.url request) = Some resource_path →
  resource_path ≠ "" →
  present outcome = false →
  runs fetch (handle_propfind fetch fuel request env bucket)
    [(head_call env bucket resource_path, outcome)]
    match outcome with
    | Resolved head =>
        if Response.status head =? 404 then Value not_found else caught (S3_API_error head)
    | Rejected message => caught message
    end.
Proof.
  intros Hpath Hrp Hbad. unfold handle_propfind.
  eapply (runs_bind _ _ _ [] _); [by apply runs_make_resource_path|].
  rewrite bool_decide_eq_false_2 by done.
  assert (∀ message,
            runs fetch (response <- catch_404 (World:=World) message ;;
                        ret (inl (B:=string * bool) response)) []
              match caught message with
              | Value response => Value (inl response)
              | Throw text => Throw text
              | Diverge => Diverge
              end) as Hcaught.
  { intros message. unfold catch_404, caught. destruct (Js.includes message "404").
    - eapply (runs_bind _ _ _ [] []); apply runs_ret.
    - apply runs_bind_throw, runs_throw. }
  destruct outcome as [head|message].
  - cbn [present] in Hbad. destruct (Response.status head =? 404) eqn:Hstatus.
    + eapply (runs_bind _ _ _ [_] [] (inl _)); [|apply runs_ret].
      apply runs_try_value. eapply (runs_bind _ _ _ [_] []); [apply runs_fetch_resolved|].
      rewrite Hstatus. apply runs_ret.
    + pose proof (Hcaught (S3_API_error head)) as Hhandler.
      destruct (caught (S3_API_error head)) as [response|text|] eqn:Hresult.
      * eapply (runs_bind _ _ _ [_] [] (inl _)); [|apply runs_ret].
        eapply (runs_try_throw _ _ _ [_] []); [|exact Hhandler].
        eapply (runs_bind _ _ _ [_] []); [apply runs_fetch_resolved|].
        rewrite Hstatus, Hbad. apply runs_throw.
      * apply runs_bind_throw.
        eapply (runs_try_throw _ _ _ [_] []); [|exact Hhandler].
        eapply (runs_bind _ _ _ [_] []); [apply runs_fetch_resolved|].
        rewrite Hstatus, Hbad. apply runs_throw.
      * unfold caught in Hresult. by destruct (Js.includes _ _).
  - pose proof (Hcaught message) as Hhandler.
    destruct (caught message) as [response|text|] eqn:Hresult.
    + eapply (runs_bind _ _ _ [_] [] (inl _)); [|apply runs_ret].
      eapply (runs_try_throw _ _ _ [_] []); [|exact Hhandler].
      apply runs_bind_throw, runs_fetch_rejected.
    + apply runs_bind_throw.
      eapply (runs_try_throw _ _ _ [_] []); [|exact Hhandler].
      apply runs_bind_throw, runs_fetch_rejected.
    + unfold caught in Hresult. by destruct (Js.includes _ _).
Qed.

(** X21.  PROPFIND with Depth: 0 on a collection answers 207 with the element
    of the collection alone and lists nothing: on the root without any
    call, on a key whose head names a collection after the head. *)
Theorem propfind_depth_zero (request : Request.t) (env : Env)
    (bucket resource_path : string) (head : Response.t) :
  resource_path_of (Request.url request) = Some resource_path →
  Headers_get (Request.headers request) "Depth" = Some "0" →
  (resource_path = "" →
   runs fetch (handle_propfind fetch fuel request env bucket) []
     (Value (multistatus_response None [])))
  ∧ (resource_path ≠ "" → Response.ok head = true →
     marked_collection (Resolved head) = true →
     runs fetch (handle_propfind fetch fuel request env bucket)
       [(head_call env bucket resource_path, Resolved head)]
       (Value (multistatus_response (Some (object_of_head resource_path head)) []))).
Proof.
  intros Hpath Hdepth. split.
  - intros ->. unfold handle_propfind.
    eapply (runs_bind _ _ _ [] _); [by apply runs_make_resource_path|].
    rewrite bool_decide_eq_true_2 by done.
    eapply (runs_bind _ _ _ [] _); [apply runs_ret|]. cbn beta iota. rewrite Hdepth.
    cbn [default from_option id]. rewrite bool_decide_eq_true_2 by done.
    eapply (runs_bind _ _ _ [] _); [apply runs_ret|]. cbn beta iota.
    rewrite multistatus_alone. apply runs_ret.
  - intros Hrp Hok Hmarked. unfold handle_propfind.
    eapply (runs_bind _ _ _ [] _); [by apply runs_make_resource_path|].
    rewrite bool_decide_eq_false_2 by done.
    eapply (runs_bind _ _ _ [_] []); [by apply propfind_self|]. cbn beta iota.
    rewrite Hmarked, Hdepth. cbn [default from_option id].
    rewrite bool_decide_eq_true_2 by done.
    eapply (runs_bind _ _ _ [] _); [apply runs_ret|]. cbn beta iota.
    rewrite multistatus_alone. apply runs_ret.
Qed.

(** X22.  PROPFIND of the root asks for no head.  It lists the whole bucket
    under the empty prefix, with the delimiter for Depth: 1 and without
    it for Depth: infinity or no Depth header, and answers 207 with the
    element of the root, whose href is the slash, followed by the
    elements of the listed objects. *)
Theorem propfind_of_the_root (request : Request.t) (env : Env) (bucket : string)
    (max_keys : nat) (pages : list Page) :
  resource_path_of (Request.url request) = Some "" →
  forallb plain_page pages = true → chained pages = true → (length pages <= fuel)%nat →
  let answer :=
    Value (multistatus_response None (concat ((λ p : Page, listed_objects p.1) <$> pages))) in
  (Headers_get (Request.headers request) "Depth" = Some "1" →
   runs fetch (handle_propfind fetch fuel request env bucket)
     (page_script env bucket "" false max_keys None pages) answer)
  ∧ (default "infinity" (Headers_get (Request.headers request) "Depth") = "infinity" →
     runs fetch (handle_propfind fetch fuel request env bucket)
       (page_script env bucket "" true max_keys None pages) answer).
Proof.
  intros Hpath Hplain Hchain Hfuel answer. subst answer.
  split; intros Hdepth; unfold handle_propfind;
    (eapply (runs_bind _ _ _ [] _); [by apply runs_make_resource_path|]);
    rewrite !(bool_decide_eq_true_2 ("" = "")) by done;
    (eapply (runs_bind _ _ _ [] _); [apply runs_ret|]); cbn beta iota; rewrite Hdepth;
    cbn [default from_option id].
  - rewrite (bool_decide_eq_false_2 ("1" = "0")) by done.
    rewrite (bool_decide_eq_true_2 ("1" = "1")) by done.
    eapply (runs_script_eq _ _ (_ ++ [])); [apply List.app_nil_r|].
    eapply runs_bind.
    { eapply (runs_script_eq _ _ (_ ++ [])); [apply List.app_nil_r|].
      eapply runs_bind; [|apply runs_ret].
      by apply (listAll_pure fetch _ fuel env bucket _ false max_keys pages). }
    cbn beta iota. rewrite multistatus_listed. apply runs_ret.
  - rewrite (bool_decide_eq_false_2 ("infinity" = "0")) by done.
    rewrite (bool_decide_eq_false_2 ("infinity" = "1")) by done.
    rewrite (bool_decide_eq_true_2 ("infinity" = "infinity")) by done.
    eapply (runs_script_eq _ _ (_ ++ [])); [apply List.app_nil_r|].
    eapply runs_bind.
    { eapply (runs_script_eq _ _ (_ ++ [])); [apply List.app_nil_r|].
      eapply runs_bind; [|apply runs_ret].
      by apply (listAll_pure fetch _ fuel env bucket _ true max_keys pages). }
    cbn beta iota. rewrite multistatus_listed. apply runs_ret.
Qed.

End PropfindEdges.

(** ** Reading a page of a listing *)

Section ReadingPages.

Context `{Runtime}.

Lemma listed_keys_escaped (page : list S3.Entry) :
  key <$> listed_objects page = S3.xml_escape <$> content_keys page.
Proof.
  induction page as [|[k o|p] page IH]; simpl; [done| |done]. by f_equal.
Qed.

(** X23.  Of a page of a listing as the reference store renders it,
    [parseXmlToObjects] reads one record for every object whose key stays
    on one line, in the order of the page, and none for a common prefix.
    The key of a record is the text between the tags as it stands: the
    entities of the markup are not decoded, so that the key is the key
    of the store only when it is plain text. *)
Theorem parseXmlToObjects_reads_the_page (bucket prefix : string) (delimiter : option string)
    (max_keys : nat) (page : list S3.Entry) (next : option string) :
  forallb (λ k, negb (Js.hasLineTerminator k)) (content_keys page) = true →
  let objects := parseXmlToObjects (S3.render_page bucket prefix delimiter max_keys page next) in
  objects = listed_objects page
  ∧ key <$> objects = S3.xml_escape <$> content_keys page
  ∧ (forallb plain (content_keys page) = true → key <$> objects = content_keys page).
Proof.
  intros Hkeys objects. subst objects. rewrite (parse_page _ _ _ _ _ _ Hkeys).
  split; [done|]. split; [apply listed_keys_escaped|apply listed_keys].
Qed.

End ReadingPages.

(** ** Further runs against the reference store *)

Lemma dirname_of_child_witness :
  dirname_of "c/b/g1" = "c/b" ∧ dirname_of "g1" = "".
Proof. exact (dirname_of_child "c/b" "g1" ltac:(reflexivity)). Defined.

Lemma destination_parent_of_child_witness :
  destination_parent_of "c/n" = "c" ∧ destination_parent_of "c/n/" = "c".
Proof.
  destruct (destination_parent_of_child "c" "n" ltac:(reflexivity)) as [Hplain Hslash].
  split; [exact (Hplain ltac:(discriminate))|exact Hslash].
Defined.

Lemma target_of_descendant_witness : target_of "d" "c/" "c/b/g1" = "d/b/g1".
Proof.
  exact (target_of_descendant "d" "c" "b/g1" ltac:(discriminate) ltac:(reflexivity)).
Defined.

Lemma unauthorized_is_refused_witness :
  Example.status_of
    (Site.worker
       (Example.request "GET" "http://dav.example.com/f"
          [("Authorization", "Basic " +:+ Web.btoa "user:guess")] "")
       Example.env (initial Example.tree))
  = Some 401.
Proof.
  pose proof (unauthorized_is_refused Example.store 8%nat Site.update
                (Example.request "GET" "http://dav.example.com/f"
                   [("Authorization", "Basic " +:+ Web.btoa "user:guess")] "")
                Example.env ltac:(discriminate) ltac:(vm_compute; discriminate)) as Hrun.
  unfold Example.status_of, Site.worker.
  replay Hrun Example.tree Example.tree. reflexivity.
Defined.

Lemma is_authorized_exactly_witness :
  is_authorized Site.authorization "user" "password" = true
  ∧ is_authorized ("Basic " +:+ Web.btoa "user:guess") "user" "password" = false.
Proof.
  destruct (is_authorized_exactly "user" "password") as [Hexact Hpair]. split.
  - apply Hexact. reflexivity.
  - destruct (is_authorized ("Basic " +:+ Web.btoa "user:guess") "user" "password") eqn:E;
      [|reflexivity].
    apply (Hpair "user" "guess" ltac:(reflexivity) ltac:(reflexivity)) in E as [_ E].
    discriminate.
Defined.

Lemma options_and_unknown_methods_witness :
  Example.status_of
    (Site.worker (Example.request "OPTIONS" "http://dav.example.com/f" [] "")
       Example.env (initial Example.tree))
  = Some 204
  ∧ Example.status_of
      (Site.worker
         (Example.request "PATCH" "http://dav.example.com/f"
            [("Authorization", Site.authorization)] "")
         Example.env (initial Example.tree))
    = Some 405.
Proof.
  split.
  - destruct (options_and_unknown_methods Example.store 8%nat Site.update
                (Example.request "OPTIONS" "http://dav.example.com/f" [] "") Example.env)
      as [Hoptions _].
    destruct (Hoptions ltac:(reflexivity)) as (answer & Hrun & Hstatus & _).
    unfold Example.status_of, Site.worker.
    replay Hrun Example.tree Example.tree. cbn [fst]. by rewrite Hstatus.
  - destruct (options_and_unknown_methods Example.store 8%nat Site.update
                (Example.request "PATCH" "http://dav.example.com/f"
                   [("Authorization", Site.authorization)] "") Example.env)
      as [_ Hunknown].
    destruct Hunknown as (answer & Hrun & Hstatus & _).
    { intros Hin. cbn [Example.request Request.method] in Hin.
      repeat (apply elem_of_cons in Hin as [Hin|Hin]; [discriminate|]).
      by apply elem_of_nil in Hin. }
    { vm_compute. reflexivity. }
    unfold Example.status_of, Site.worker.
    replay Hrun Example.tree Example.tree. cbn [fst]. by rewrite Hstatus.
Defined.

Lemma answers_carry_cors_witness :
  ∃ answer,
    (Site.worker
       (Example.request "GET" "http://dav.example.com/f"
          [("Authorization", Site.authorization); ("Origin", "http://app.example.com")] "")
       Example.env (initial Example.tree)).1
    = Value answer
    ∧ Response.status answer = 200
    ∧ Response.body answer = Some "file"
    ∧ Headers_get (Response.headers answer) "Access-Control-Allow-Origin"
      = Some "http://app.example.com"
    ∧ Headers_get (Response.headers answer) "Content-Type" = Some "text/plain".
Proof.
  pose (request :=
          Example.request "GET" "http://dav.example.com/f"
            [("Authorization", Site.authorization); ("Origin", "http://app.example.com")] "").
  pose (call := get_call Example.env Example.bucket "f" []).
  destruct (answers_carry_cors Example.store 8%nat Site.update request Example.env
              [(call, Example.outcome call Example.tree)]
              ltac:(right; vm_compute; reflexivity)) as [Hvalue _].
  destruct (Hvalue (served (Example.answer call Example.tree)))
    as (answer & Hrun & Hstatus & Hbody & _ & Horigin & Hother).
  { exact (handle_get_object Example.store 8%nat request Example.env Example.bucket "f"
             (Example.outcome call Example.tree) ltac:(reflexivity)
             ltac:(vm_compute; reflexivity)). }
  exists answer. unfold Site.worker. fold request.
  replay Hrun Example.tree Example.tree.
  split; [reflexivity|]. split; [exact Hstatus|]. split; [exact Hbody|].
  split; [exact Horigin|].
  rewrite Hother; [vm_compute; reflexivity|].
  repeat (constructor; [vm_compute; discriminate|]). constructor.
Defined.

Lemma get_serves_the_object_witness :
  Site.get (Example.request "GET" "http://dav.example.com/f" [] "") Example.env Example.bucket
    (initial Example.tree)
  = (Value (new_Response_with (Some "file") 200
              [("Content-Type", "text/plain"); ("Content-Length", "4")]),
     {| world := Example.tree; trace := [get_call Example.env Example.bucket "f" []] |}).
Proof.
  destruct (get_serves_the_object Example.store 8%nat
              (Example.request "GET" "http://dav.example.com/f" [] "")
              Example.env Example.bucket "f"
              (Example.answer (get_call Example.env Example.bucket "f" []) Example.tree)
              ltac:(reflexivity) ltac:(vm_compute; reflexivity))
    as (_ & _ & Hserved & _).
  destruct (Hserved ltac:(vm_compute; reflexivity)) as [Hrun _].
  unfold Site.get.
  replay Hrun Example.tree Example.tree. vm_compute. reflexivity.
Defined.

Lemma head_is_served_by_get_witness :
  Site.head (Example.request "HEAD" "http://dav.example.com/f" [] "") Example.env Example.bucket
    (initial Example.tree)
  = (Value (Response.mk None 200 ""
              [("Content-Type", "text/plain"); ("Content-Length", "4")]),
     {| world := Example.tree; trace := [get_call Example.env Example.bucket "f" []] |}).
Proof.
  destruct (head_is_served_by_get Example.store 8%nat
              (Example.request "HEAD" "http://dav.example.com/f" [] "")
              Example.env Example.bucket "f"
              (Example.answer (get_call Example.env Example.bucket "f" []) Example.tree)
              ltac:(reflexivity) ltac:(vm_compute; reflexivity)
              ltac:(vm_compute; reflexivity))
    as (_ & Hrun & _).
  unfold Site.head.
  replay Hrun Example.tree Example.tree. vm_compute. reflexivity.
Defined.

Lemma get_lists_the_collection_witness :
  (λ body, (Js.occurrences body "<a href=", Js.includes body "/c/b/g1"))
  <$> Example.body_of
        (Site.get (Example.request "GET" "http://dav.example.com/c/" [] "")
           Example.env Example.bucket (initial Example.tree))
  = Some (3%nat, false).
Proof.
  pose proof (get_lists_the_collection Example.store 8%nat
                (Example.request "GET" "http://dav.example.com/c/" [] "")
                Example.env Example.bucket "c" 2%nat
                (Example.pages_of Example.tree "c/" (Some "/") [None; Some "c/b"])
                ltac:(reflexivity) ltac:(vm_compute; reflexivity)
                ltac:(vm_compute; reflexivity) ltac:(vm_compute; reflexivity)
                ltac:(vm_compute; lia)) as Hrun.
  cbv zeta in Hrun. unfold Example.body_of, Site.get.
  replay Hrun Example.tree Example.tree. vm_compute. reflexivity.
Defined.

Lemma mkcol_writes_the_marker_witness :
  Example.status_of
    (Example.mkcol (Example.request "MKCOL" "http://dav.example.com/c/new/" [] "")
       Example.env Example.bucket (initial Example.tree))
  = Some 201
  ∧ Example.keys
      (Example.after Example.mkcol
         (Example.request "MKCOL" "http://dav.example.com/c/new/" [] "") Example.tree)
    = ["c"; "c/a"; "c/b"; "c/b/g1"; "c/b/g2"; "c/new"; "f"].
Proof.
  destruct (mkcol_writes_the_marker Example.store
              (Example.request "MKCOL" "http://dav.example.com/c/new/" [] "")
              Example.env Example.bucket "c/new"
              (Example.outcome (head_call Example.env Example.bucket "c/new") Example.tree)
              (Example.outcome (head_call Example.env Example.bucket "c") Example.tree)
              (Example.outcome (mkcol_call Example.env Example.bucket "c/new" []) Example.tree)
              ltac:(vm_compute; reflexivity)) as [_ Hnew].
  destruct (Hnew ltac:(vm_compute; reflexivity)) as [_ Hrun].
  specialize (Hrun ltac:(intros _; vm_compute; reflexivity)).
  unfold Example.status_of, Example.after, Example.mkcol.
  replay Hrun Example.tree
    (Example.store (mkcol_call Example.env Example.bucket "c/new" []) Example.tree).2.
  split; vm_compute; reflexivity.
Defined.

Lemma delete_removes_the_resource_witness :
  Example.status_of
    (Example.delete (Example.request "DELETE" "http://dav.example.com/c/b" [] "")
       Example.env Example.bucket (initial Example.tree))
  = Some 204
  ∧ Example.keys
      (Example.after Example.delete
         (Example.request "DELETE" "http://dav.example.com/c/b" [] "") Example.tree)
    = ["c"; "c/a"; "f"].
Proof.
  pose (marker_gone :=
          (Example.store (delete_call Example.env Example.bucket "c/b") Example.tree).2).
  pose (all_gone :=
          (Example.store (batch_call Example.env Example.bucket ["c/b/g1"; "c/b/g2"])
             marker_gone).2).
  destruct (delete_removes_the_resource Example.store 8%nat
              (Example.request "DELETE" "http://dav.example.com/c/b" [] "")
              Example.env Example.bucket "c/b"
              (Example.answer (head_call Example.env Example.bucket "c/b") Example.tree)
              (Example.answer (delete_call Example.env Example.bucket "c/b") Example.tree)
              ltac:(vm_compute; reflexivity) ltac:(discriminate)) as [_ Hfound].
  destruct (Hfound ltac:(vm_compute; discriminate)) as [_ Hdeleted].
  destruct (Hdeleted ltac:(vm_compute; reflexivity)) as [_ Hcollection].
  pose proof (Hcollection 2%nat (Example.pages_of marker_gone "c/b/" None [None])
                (Example.answer (batch_call Example.env Example.bucket ["c/b/g1"; "c/b/g2"])
                   marker_gone)
                ltac:(vm_compute; reflexivity) ltac:(vm_compute; reflexivity)
                ltac:(vm_compute; reflexivity) ltac:(vm_compute; lia)
                ltac:(vm_compute; reflexivity)) as Hrun.
  unfold Example.status_of, Example.after, Example.delete.
  replay Hrun Example.tree all_gone.
  split; vm_compute; reflexivity.
Defined.

Lemma delete_of_the_root_witness :
  Example.status_of
    (Example.delete (Example.request "DELETE" "http://dav.example.com/" [] "")
       Example.env Example.bucket (initial Example.tree))
  = Some 204
  ∧ Example.keys
      (Example.after Example.delete
         (Example.request "DELETE" "http://dav.example.com/" [] "") Example.tree)
    = [].
Proof.
  pose (keys := ["c"; "c/a"; "c/b"; "c/b/g1"; "c/b/g2"; "f"]).
  pose proof (delete_of_the_root Example.store 8%nat
                (Example.request "DELETE" "http://dav.example.com/" [] "")
                Example.env Example.bucket 2%nat
                (Example.pages_of Example.tree "" None [None; Some "c/a"; Some "c/b/g1"])
                (Example.answer (batch_call Example.env Example.bucket keys) Example.tree)
                ltac:(vm_compute; reflexivity) ltac:(vm_compute; reflexivity)
                ltac:(vm_compute; reflexivity) ltac:(vm_compute; lia)) as Hrun.
  unfold Example.status_of, Example.after, Example.delete.
  replay Hrun Example.tree
    (Example.store (batch_call Example.env Example.bucket keys) Example.tree).2.
  split; vm_compute; reflexivity.
Defined.

Lemma copy_of_a_resource_witness :
  Example.status_of
    (Example.copy
       (Example.request "COPY" "http://dav.example.com/f"
          [("Destination", "http://dav.example.com/c/n")] "")
       Example.env Example.bucket (initial Example.tree))
  = Some 201
  ∧ Example.keys
      (Example.after Example.copy
         (Example.request "COPY" "http://dav.example.com/f"
            [("Destination", "http://dav.example.com/c/n")] "")
         Example.tree)
    = ["c"; "c/a"; "c/b"; "c/b/g1"; "c/b/g2"; "c/n"; "f"].
Proof.
  destruct (copy_of_a_resource Example.store 8%nat
              (Example.request "COPY" "http://dav.example.com/f"
                 [("Destination", "http://dav.example.com/c/n")] "")
              Example.env Example.bucket "f" "c/n"
              (Example.outcome (head_call Example.env Example.bucket "c") Example.tree)
              (Example.outcome (head_call Example.env Example.bucket "c/n") Example.tree)
              (Example.answer (head_call Example.env Example.bucket "f") Example.tree)
              (Example.answer (copy_call Example.env Example.bucket "c/n" "f") Example.tree)
              ltac:(vm_compute; reflexivity) ltac:(vm_compute; reflexivity)
              ltac:(intros _; vm_compute; reflexivity) ltac:(intros _; vm_compute; discriminate))
    as [_ Hfound].
  destruct (Hfound ltac:(vm_compute; discriminate) ltac:(vm_compute; reflexivity))
    as [Hcopied _].
  pose proof (Hcopied ltac:(vm_compute; reflexivity)) as Hrun.
  unfold Example.status_of, Example.after, Example.copy.
  replay Hrun Example.tree
    (Example.store (copy_call Example.env Example.bucket "c/n" "f") Example.tree).2.
  split; vm_compute; reflexivity.
Defined.

Lemma copy_of_a_collection_witness :
  Example.status_of
    (Example.copy
       (Example.request "COPY" "http://dav.example.com/c/b"
          [("Destination", "http://dav.example.com/d"); ("Depth", "0")] "")
       Example.env Example.bucket (initial Example.tree))
  = Some 201
  ∧ Example.keys
      (Example.after Example.copy
         (Example.request "COPY" "http://dav.example.com/c/b"
            [("Destination", "http://dav.example.com/d"); ("Depth", "0")] "")
         Example.tree)
    = ["c"; "c/a"; "c/b"; "c/b/g1"; "c/b/g2"; "d"; "f"].
Proof.
  destruct (copy_of_a_collection Example.store 8%nat
              (Example.request "COPY" "http://dav.example.com/c/b"
                 [("Destination", "http://dav.example.com/d"); ("Depth", "0")] "")
              Example.env Example.bucket "c/b" "d"
              (Rejected "")
              (Example.outcome (head_call Example.env Example.bucket "d") Example.tree)
              (Example.answer (head_call Example.env Example.bucket "c/b") Example.tree)
              ltac:(vm_compute; reflexivity) ltac:(vm_compute; reflexivity)
              ltac:(intros Hparent; by destruct Hparent)
              ltac:(intros _; vm_compute; discriminate)
              ltac:(vm_compute; discriminate) ltac:(vm_compute; reflexivity))
    as (_ & Hmarker & _).
  pose proof (Hmarker
                (Example.answer (copy_call Example.env Example.bucket "d" "c/b") Example.tree)
                ltac:(vm_compute; reflexivity) ltac:(vm_compute; reflexivity)) as Hrun.
  unfold Example.status_of, Example.after, Example.copy.
  replay Hrun Example.tree
    (Example.store (copy_call Example.env Example.bucket "d" "c/b") Example.tree).2.
  split; vm_compute; reflexivity.
Defined.

Lemma move_keeps_the_source_of_a_refused_copy_witness :
  (Example.move
     (Example.request "MOVE" "http://dav.example.com/f"
        [("Destination", "http://dav.example.com/n")] "")
     Example.env Example.bucket (initial Example.tree_no_put)).1
  = Throw "S3 copy error: 500"
  ∧ Example.keys
      (Example.after Example.move
         (Example.request "MOVE" "http://dav.example.com/f"
            [("Destination", "http://dav.example.com/n")] "")
         Example.tree_no_put)
    = ["c"; "c/a"; "c/b"; "c/b/g1"; "c/b/g2"; "f"].
Proof.
  destruct (move_keeps_the_source_of_a_refused_copy Example.store 8%nat
              (Example.request "MOVE" "http://dav.example.com/f"
                 [("Destination", "http://dav.example.com/n")] "")
              Example.env Example.bucket "f" "n"
              (Rejected "")
              (Example.outcome (head_call Example.env Example.bucket "n") Example.tree_no_put)
              (Example.answer (head_call Example.env Example.bucket "f") Example.tree_no_put)
              (Example.answer (copy_call Example.env Example.bucket "n" "f") Example.tree_no_put)
              ltac:(vm_compute; reflexivity) ltac:(vm_compute; reflexivity)
              ltac:(discriminate) ltac:(intros Hparent; by destruct Hparent)
              ltac:(vm_compute; reflexivity) ltac:(vm_compute; discriminate)
              ltac:(vm_compute; reflexivity) ltac:(vm_compute; reflexivity))
    as [Hrun _].
  unfold Example.after, Example.move.
  replay Hrun Example.tree_no_put
    (Example.store (copy_call Example.env Example.bucket "n" "f") Example.tree_no_put).2.
  split; vm_compute; reflexivity.
Defined.

Lemma move_with_another_depth_witness :
  Example.move
    (Example.request "MOVE" "http://dav.example.com/c/b"
       [("Destination", "http://dav.example.com/d"); ("Depth", "1")] "")
    Example.env Example.bucket (initial Example.tree)
  = (Value (new_Response (Some "Bad Request") 400),
     {| world := Example.tree;
        trace := [head_call Example.env Example.bucket "d";
                  head_call Example.env Example.bucket "c/b"] |}).
Proof.
  destruct (move_with_another_depth Example.store 8%nat
              (Example.request "MOVE" "http://dav.example.com/c/b"
                 [("Destination", "http://dav.example.com/d"); ("Depth", "1")] "")
              Example.env Example.bucket "c/b" "d" "1"
              (Rejected "")
              (Example.answer (head_call Example.env Example.bucket "c/b") Example.tree)
              ltac:(vm_compute; reflexivity) ltac:(vm_compute; reflexivity)
              ltac:(discriminate) ltac:(intros Hparent; by destruct Hparent)
              ltac:(vm_compute; discriminate) ltac:(vm_compute; reflexivity)
              ltac:(vm_compute; reflexivity) ltac:(discriminate) ltac:(discriminate))
    as [Hnew _].
  pose proof (Hnew (Example.outcome (head_call Example.env Example.bucket "d") Example.tree)
                ltac:(vm_compute; reflexivity)) as Hrun.
  unfold Example.move.
  replay Hrun Example.tree Example.tree. reflexivity.
Defined.

Lemma copy_and_move_need_a_destination_witness :
  Example.status_of
    (Example.copy (Example.request "COPY" "http://dav.example.com/f" [] "")
       Example.env Example.bucket (initial Example.tree))
  = Some 400
  ∧ Example.status_of
      (Example.move (Example.request "MOVE" "http://dav.example.com/f" [] "")
         Example.env Example.bucket (initial Example.tree))
    = Some 400.
Proof.
  destruct (copy_and_move_need_a_destination Example.store 8%nat
              (Example.request "COPY" "http://dav.example.com/f" [] "")
              Example.env Example.bucket "f"
              ltac:(vm_compute; reflexivity) ltac:(reflexivity)) as [Hcopy _].
  destruct (copy_and_move_need_a_destination Example.store 8%nat
              (Example.request "MOVE" "http://dav.example.com/f" [] "")
              Example.env Example.bucket "f"
              ltac:(vm_compute; reflexivity) ltac:(reflexivity)) as [_ Hmove].
  unfold Example.status_of, Example.copy, Example.move. split.
  - replay Hcopy Example.tree Example.tree. reflexivity.
  - replay Hmove Example.tree Example.tree. reflexivity.
Defined.

Lemma proppatch_sets_removes_and_keeps_witness :
  Headers_get
    (proppatch_headers
       [("x-amz-meta-resourcetype", COLLECTION); ("x-amz-meta-draft", "1");
        ("Content-Type", "text/plain"); ("ETag", "e")]
       [("author", "ann")] ["draft"])
    "x-amz-meta-resourcetype"
  = Some COLLECTION.
Proof.
  destruct (proppatch_sets_removes_and_keeps
              [("x-amz-meta-resourcetype", COLLECTION); ("x-amz-meta-draft", "1");
               ("Content-Type", "text/plain"); ("ETag", "e")]
              [("author", "ann")] ["draft"] "resourcetype"
              ltac:(reflexivity) ltac:(by repeat constructor)
              ltac:(apply NoDup_singleton) ltac:(by repeat constructor))
    as (_ & _ & Hkept).
  etransitivity; [apply Hkept|reflexivity].
  - intros Hin. apply list_elem_of_singleton in Hin. discriminate.
  - intros Hin. apply list_elem_of_singleton in Hin. discriminate.
Defined.

Lemma proppatch_of_a_missing_resource_witness :
  Site.proppatch (Example.request "PROPPATCH" "http://dav.example.com/nope" [] "ann")
    Example.env Example.bucket (initial Example.tree)
  = (Value not_found,
     {| world := Example.tree; trace := [head_call Example.env Example.bucket "nope"] |}).
Proof.
  destruct (proppatch_of_a_missing_resource Example.store Site.update
              (Example.request "PROPPATCH" "http://dav.example.com/nope" [] "ann")
              Example.env Example.bucket "nope"
              (Example.answer (head_call Example.env Example.bucket "nope") Example.tree)
              (new_Response None 0)
              ltac:(vm_compute; reflexivity)) as [Hmissing _].
  pose proof (Hmissing ltac:(vm_compute; reflexivity)) as Hrun.
  unfold Site.proppatch.
  replay Hrun Example.tree Example.tree. reflexivity.
Defined.

Lemma proppatch_writes_the_object_again_witness :
  Example.status_of
    (Site.proppatch (Example.request "PROPPATCH" "http://dav.example.com/f" [] "ann")
       Example.env Example.bucket (initial Example.tree))
  = Some 207
  ∧ Example.body_of
      (Site.get (Example.request "GET" "http://dav.example.com/f" [] "")
         Example.env Example.bucket
         (initial (Example.after Site.proppatch
                     (Example.request "PROPPATCH" "http://dav.example.com/f" [] "ann")
                     Example.tree)))
    = Some "file"
  ∧ Headers_get
      (Response.headers
         (Example.answer (head_call Example.env Example.bucket "f")
            (Example.after Site.proppatch
               (Example.request "PROPPATCH" "http://dav.example.com/f" [] "ann")
               Example.tree)))
      "x-amz-meta-author"
    = Some "ann".
Proof.
  pose (head := Example.answer (head_call Example.env Example.bucket "f") Example.tree).
  pose (written :=
          put_call Example.env Example.bucket "f"
            (proppatch_headers (Response.headers head) [("author", "ann")] ["draft"]) "file").
  destruct (proppatch_writes_the_object_again Example.store Site.update
              (Example.request "PROPPATCH" "http://dav.example.com/f" [] "ann")
              Example.env Example.bucket "f" head
              (Example.answer (get_call Example.env Example.bucket "f" []) Example.tree)
              (Example.answer written Example.tree)
              ltac:(vm_compute; reflexivity) ltac:(vm_compute; discriminate)
              ltac:(vm_compute; reflexivity)) as [Hwritten _].
  pose proof (Hwritten ltac:(vm_compute; reflexivity)) as Hrun.
  unfold Example.status_of, Example.after, Site.proppatch.
  replay Hrun Example.tree (Example.store written Example.tree).2.
  repeat split; vm_compute; reflexivity.
Defined.

Lemma listAll_fails_on_a_refused_page_witness :
  (listAll Example.store 8 Example.env Example.bucket "c/" true
     (λ keys object, ret (keys ++ [key object])) [] (initial Site.one_page)).1
  = Throw "S3 API error: 500 "
  ∧ length (Example.pages_of Site.one_page "c/" None [None]) = 1%nat.
Proof.
  split; [|reflexivity].
  pose proof (listAll_fails_on_a_refused_page Example.store 8%nat Example.env Example.bucket
                "c/" true 2%nat (Example.pages_of Site.one_page "c/" None [None])
                (Example.outcome
                   (list_call Example.env Example.bucket "c/" true (Some "c/b")) Site.one_page)
                ltac:(vm_compute; reflexivity) ltac:(vm_compute; reflexivity)
                ltac:(vm_compute; lia) ltac:(vm_compute; reflexivity)) as Hrun.
  replay Hrun Site.one_page Site.one_page. reflexivity.
Defined.

Lemma propfind_of_a_missing_resource_witness :
  Example.propfind (Example.request "PROPFIND" "http://dav.example.com/nope" [] "")
    Example.env Example.bucket (initial Example.tree)
  = (Value not_found,
     {| world := Example.tree; trace := [head_call Example.env Example.bucket "nope"] |}).
Proof.
  pose proof (propfind_of_a_missing_resource Example.store 8%nat
                (Example.request "PROPFIND" "http://dav.example.com/nope" [] "")
                Example.env Example.bucket "nope"
                (Example.outcome (head_call Example.env Example.bucket "nope") Example.tree)
                ltac:(vm_compute; reflexivity) ltac:(discriminate)
                ltac:(vm_compute; reflexivity)) as Hrun.
  unfold Example.propfind.
  replay Hrun Example.tree Example.tree. reflexivity.
Defined.

Lemma propfind_depth_zero_witness :
  (λ body, Js.occurrences body "<response>")
  <$> Example.body_of
        (Example.propfind
           (Example.request "PROPFIND" "http://dav.example.com/c" [("Depth", "0")] "")
           Example.env Example.bucket (initial Example.tree))
  = Some 1%nat.
Proof.
  destruct (propfind_depth_zero Example.store 8%nat
              (Example.request "PROPFIND" "http://dav.example.com/c" [("Depth", "0")] "")
              Example.env Example.bucket "c"
              (Example.answer (head_call Example.env Example.bucket "c") Example.tree)
              ltac:(vm_compute; reflexivity) ltac:(vm_compute; reflexivity)) as [_ Hcollection].
  pose proof (Hcollection ltac:(discriminate) ltac:(vm_compute; reflexivity)
                ltac:(vm_compute; reflexivity)) as Hrun.
  unfold Example.body_of, Example.propfind.
  replay Hrun Example.tree Example.tree. vm_compute. reflexivity.
Defined.

Lemma propfind_of_the_root_witness :
  (λ body, Js.occurrences body "<response>")
  <$> Example.body_of
        (Example.propfind
           (Example.request "PROPFIND" "http://dav.example.com/" [("Depth", "1")] "")
           Example.env Example.bucket (initial Example.tree))
  = Some 3%nat.
Proof.
  destruct (propfind_of_the_root Example.store 8%nat
              (Example.request "PROPFIND" "http://dav.example.com/" [("Depth", "1")] "")
              Example.env Example.bucket 2%nat
              (Example.pages_of Example.tree "" (Some "/") [None; Some "c/"])
              ltac:(vm_compute; reflexivity) ltac:(vm_compute; reflexivity)
              ltac:(vm_compute; reflexivity) ltac:(vm_compute; lia)) as [Hchildren _].
  pose proof (Hchildren ltac:(vm_compute; reflexivity)) as Hrun.
  unfold Example.body_of, Example.propfind.
  replay Hrun Example.tree Example.tree. vm_compute. reflexivity.
Defined.

Lemma parseXmlToObjects_reads_the_page_witness :
  key <$> parseXmlToObjects
            (S3.render_page Example.bucket "" (Some "/") 2
               [S3.Content "a&b" (S3.Build_Object "data" [] 1793648880000);
                S3.CommonPrefix "d/"] None)
  = ["a&amp;b"].
Proof.
  destruct (parseXmlToObjects_reads_the_page Example.bucket "" (Some "/") 2%nat
              [S3.Content "a&b" (S3.Build_Object "data" [] 1793648880000);
               S3.CommonPrefix "d/"] None ltac:(reflexivity)) as (_ & Hkeys & _).
  exact Hkeys.
Defined.

